(** * Localization workflow: extraction, validation, bounded retry, merge

    A shallow embedding of [scripts/i18n_workflow.py] and
    [scripts/localize_with_openai.py].

    Python [str] values are sequences of Unicode code points; they are
    modelled as lists of code points ([N]).  The parts of the Python runtime
    the scripts rely on and whose tables are not part of the repository
    (the regular-expression category [\d] and [str.lower]) are collected in
    the class [PyUnicode]; whitespace ([str.strip], [\s]) is the fixed list
    of CPython's [_PyUnicode_IsWhitespace]. *)

From Stdlib Require Import ZArith NArith Ascii String List Bool Lia.
From Stdlib Require Import Sorted Permutation.
From stdpp Require Import base option list gmap.

Set Default Proof Using "Type*".
Local Open Scope N_scope.

(** ** Text *)

Abbreviation str := (list N).

(** ASCII literals: the code points of a string of 7-bit characters. *)
Definition u (s : string) : str :=
  List.map N_of_ascii (list_ascii_of_string s).

(** Python compares [str] values code point by code point. *)
Fixpoint str_leb (a b : str) : bool :=
  match a, b with
  | [], _ => true
  | _ :: _, [] => false
  | x :: a', y :: b' =>
      if x <? y then true else if y <? x then false else str_leb a' b'
  end.

(** [prefix.startswith]: [startswith p s] is [s.startswith(p)]. *)
Fixpoint startswith (p s : str) : bool :=
  match p, s with
  | [], _ => true
  | _ :: _, [] => false
  | x :: p', y :: s' => (x =? y) && startswith p' s'
  end.

(** [needle in text] on strings: substring test. *)
Fixpoint contains (needle text : str) : bool :=
  startswith needle text ||
  match text with
  | [] => false
  | _ :: text' => contains needle text'
  end.

(** Whitespace as [str.strip()], [str.isspace()] and the pattern [\s] see it. *)
Definition isspace (c : N) : bool :=
  ((9 <=? c) && (c <=? 13)) || ((28 <=? c) && (c <=? 32)) ||
  (c =? 133) || (c =? 160) || (c =? 5760) ||
  ((8192 <=? c) && (c <=? 8202)) || (c =? 8232) || (c =? 8233) ||
  (c =? 8239) || (c =? 8287) || (c =? 12288).

Fixpoint lstrip (s : str) : str :=
  match s with
  | c :: s' => if isspace c then lstrip s' else s
  | [] => []
  end.

Definition rstrip (s : str) : str := rev (lstrip (rev s)).

Definition strip (s : str) : str := rstrip (lstrip s).

(** The Unicode tables of the interpreter. *)
Class PyUnicode := {
  (** the category [\d] of [re] on [str] patterns (Unicode decimal digits) *)
  isdecimal : N -> bool;
  (** [str.lower()] *)
  lower : str -> str
}.

(** The tables restricted to Basic Latin and Latin-1 (U+0000..U+00FF), where
    the only decimal digits are [0-9] and lowering adds 32 to [A-Z] and to
    U+00C0..U+00DE except U+00D7.  Used to run the model on concrete texts. *)
Definition latin1_lower_char (c : N) : N :=
  if ((65 <=? c) && (c <=? 90)) ||
     ((192 <=? c) && (c <=? 222) && negb (c =? 215))
  then c + 32 else c.

Definition Latin1 : PyUnicode := {|
  isdecimal := fun c => (48 <=? c) && (c <=? 57);
  lower := List.map latin1_lower_char
|}.

(** ** Regular expressions

    The patterns of the scripts, as syntax trees, with the backtracking
    semantics of [re]: alternatives are tried left to right, quantifiers are
    greedy, and the first overall success wins. *)

Inductive regex : Type :=
| Eps
| Chr (c : N)
| Cls (p : N -> bool)
| Cat (r1 r2 : regex)
| Alt (r1 r2 : regex)
| Opt (r : regex)
| Star (r : regex)
| Grp (i : nat) (r : regex).

Definition Plus (r : regex) : regex := Cat r (Star r).

Definition Lit (s : str) : regex := fold_right (fun c r => Cat (Chr c) r) Eps s.

Definition OneOf (cs : str) : regex := Cls (fun c => existsb (N.eqb c) cs).

Definition NoneOf (cs : str) : regex := Cls (fun c => negb (existsb (N.eqb c) cs)).

(** [\s] *)
Definition Space : regex := Cls isspace.

(** [.] without DOTALL: anything but a line feed. *)
Definition Dot : regex := Cls (fun c => negb (c =? 10)).

(** Captured groups, by group number. *)
Abbreviation groups := (gmap nat str).

(** [rmatch r s g k]: match [r] at the start of [s] and pass what is left of
    [s], with the groups captured so far, to the continuation [k]; [None]
    makes the engine backtrack.  An iteration of [Star] has to consume a
    character (no pattern here repeats something that can match the empty
    string), so the counter [fuel], started at the length of the text, never
    cuts a repetition short. *)
Fixpoint rmatch {A : Type} (r : regex) (s : str) (g : groups)
    (k : str -> groups -> option A) {struct r} : option A :=
  match r with
  | Eps => k s g
  | Chr c =>
      match s with
      | x :: s' => if x =? c then k s' g else None
      | [] => None
      end
  | Cls p =>
      match s with
      | x :: s' => if p x then k s' g else None
      | [] => None
      end
  | Cat r1 r2 => rmatch r1 s g (fun s1 g1 => rmatch r2 s1 g1 k)
  | Alt r1 r2 =>
      match rmatch r1 s g k with
      | Some a => Some a
      | None => rmatch r2 s g k
      end
  | Opt r1 =>
      match rmatch r1 s g k with
      | Some a => Some a
      | None => k s g
      end
  | Star r1 =>
      (fix loop (fuel : nat) (s : str) (g : groups) {struct fuel} : option A :=
         match fuel with
         | O => k s g
         | S fuel' =>
             match rmatch r1 s g
                     (fun s1 g1 =>
                        if (length s1 <? length s)%nat
                        then loop fuel' s1 g1 else None) with
             | Some a => Some a
             | None => k s g
             end
         end) (length s) s g
  | Grp i r1 =>
      rmatch r1 s g
        (fun s1 g1 => k s1 (<[i := take (length s - length s1) s]> g1))
  end.

(** Length of the match of [r] at the start of [s] ([pattern.match]). *)
Definition match_len (r : regex) (s : str) : option nat :=
  rmatch r s ∅ (fun s' _ => Some (length s - length s')%nat).

(** [pattern.search(s)]: the groups of the leftmost match. *)
Fixpoint search (r : regex) (s : str) : option groups :=
  match rmatch r s ∅ (fun _ g => Some g) with
  | Some g => Some g
  | None =>
      match s with
      | [] => None
      | _ :: s' => search r s'
      end
  end.

(** [match.group(i)], for a group that took part in the match. *)
Definition group (g : groups) (i : nat) : str := default [] (g !! i).

(** [pattern.findall(s)] for a pattern without groups: the texts of the
    successive non-overlapping matches, left to right.  [skip] counts the
    characters still covered by the previous match. *)
Fixpoint findall_from (r : regex) (skip : nat) (s : str) : list str :=
  match s with
  | [] =>
      match skip, match_len r [] with
      | O, Some _ => [[]]
      | _, _ => []
      end
  | _ :: s' =>
      match skip with
      | S n => findall_from r n s'
      | O =>
          match match_len r s with
          | Some len => take len s :: findall_from r (pred len) s'
          | None => findall_from r 0 s'
          end
      end
  end.

Definition findall (r : regex) (s : str) : list str := findall_from r 0 s.

(** ** Structural tokens (both scripts define these identically) *)

Section Tokens.
Context `{PyUnicode}.

(** [\d] *)
Definition Digit : regex := Cls isdecimal.

(** [[a-zA-Z@]] *)
Definition conversion_char (c : N) : bool :=
  ((97 <=? c) && (c <=? 122)) || ((65 <=? c) && (c <=? 90)) || (c =? 64).

(** [FORMAT_PLACEHOLDER_RE]:
    [%(?:\d+\$)?[#+0\- ]*(?:\d+)?(?:\.\d+)?[a-zA-Z@]] *)
Definition FORMAT_PLACEHOLDER_RE : regex :=
  Cat (Chr 37)
    (Cat (Opt (Cat (Plus Digit) (Chr 36)))
       (Cat (Star (OneOf (u "#+0- ")))
          (Cat (Opt (Plus Digit))
             (Cat (Opt (Cat (Chr 46) (Plus Digit)))
                (Cls conversion_char))))).

(** [INTERPOLATION_RE]: a backslash, an opening parenthesis, one or more
    characters other than a closing parenthesis, a closing parenthesis. *)
Definition INTERPOLATION_RE : regex :=
  Cat (Chr 92) (Cat (Chr 40) (Cat (Plus (NoneOf (u ")"))) (Chr 41))).

(** The degree sign is U+00B0. *)
Definition DEGREE_F : str := [176; 70].
Definition DEGREE_C : str := [176; 67].

Definition extract_token_set (text : str) : list str * list str * list str :=
  let placeholders := findall FORMAT_PLACEHOLDER_RE text in
  let interpolations := findall INTERPOLATION_RE text in
  let units := List.filter (fun unit => contains unit text) [DEGREE_F; DEGREE_C] in
  (placeholders, interpolations, units).

(** The three components of the fingerprint. *)
Definition placeholders_of (text : str) : list str := (extract_token_set text).1.1.
Definition interpolations_of (text : str) : list str := (extract_token_set text).1.2.
Definition units_of (text : str) : list str := (extract_token_set text).2.

(** [not text.strip()] *)
Definition is_blank (text : str) : bool := bool_decide (strip text = []).

(** The second component of [validate_translation]'s result.  The Python
    value is the text built from the same data: the kind of mismatch and the
    two token tuples. *)
Inductive Reason : Type :=
| placeholder_mismatch (expected got : list str)
| interpolation_mismatch (expected got : list str)
| unit_mismatch (expected got : list str)
| empty_translation
| reason_ok.

Definition validate_translation (source target : str) : bool * Reason :=
  let '(src_placeholders, src_interpolations, src_units) := extract_token_set source in
  let '(dst_placeholders, dst_interpolations, dst_units) := extract_token_set target in
  if decide (src_placeholders ≠ dst_placeholders) then
    (false, placeholder_mismatch src_placeholders dst_placeholders)
  else if decide (src_interpolations ≠ dst_interpolations) then
    (false, interpolation_mismatch src_interpolations dst_interpolations)
  else if decide (src_units ≠ dst_units) then
    (false, unit_mismatch src_units dst_units)
  else if decide (strip target = []) then
    (false, empty_translation)
  else (true, reason_ok).

End Tokens.


(** ** Data model *)

Record Context := {
  file : str;
  line : Z;
  kind : str;
  target : str   (* app | widget *)
}.

Record Candidate := {
  source : str;
  contexts : list Context
}.

Inductive Status := status_translated | status_fallback.

Inductive Validation :=
| validation_ok
| fallback_due_to_validation
| fallback_missing_translation.

Record TranslationRow := {
  row_source : str;
  row_target : str;
  row_status : Status;
  row_validation : Validation;
  row_contexts : list Context
}.

#[global] Instance Status_eq_dec : EqDecision Status.
Proof. solve_decision. Defined.
#[global] Instance Validation_eq_dec : EqDecision Validation.
Proof. solve_decision. Defined.
#[global] Instance Context_eq_dec : EqDecision Context.
Proof. solve_decision. Defined.

(** ** The translation service boundary

    One request of [call_openai_batch]: the pending sources and the feedback
    of the previous attempt.  The feedback text is built from the list of
    issues (one per failing source: the source and the reason
    [validate_translation] gave); the list itself stands for the text.  The
    model, the two language codes and the key are the same in every request
    of a run and are left out. *)
Record Request := {
  sources : list str;
  validation_feedback : option (list (str * Reason))
}.

(** The service as one run sees it: the answer to the [n]-th request of the
    run (counted from 0).  [None] is a transport failure (HTTP or connection
    error, empty or unparsable body), which [call_openai_batch] raises as
    [RuntimeError]. *)
Definition Service := nat -> Request -> option (gmap str str).

Inductive Result (A : Type) :=
| Ok (a : A)
| RuntimeError (requests_made : list Request).
Arguments Ok {A} a.
Arguments RuntimeError {A} requests_made.

(** ** Batch translation with bounded retry *)

Record OrchState := {
  final_targets : gmap str str;
  validations : gmap str Validation;
  calls : list Request   (* the requests issued so far, oldest first *)
}.

Definition initial_state : OrchState :=
  {| final_targets := ∅; validations := ∅; calls := [] |}.

(** [chunked(values, size)]: slices [values[idx : idx + size]] for
    [idx = 0, size, 2 * size, ...] below [len(values)], for a positive [size]
    (both scripts pass their constant [BATCH_SIZE]).  The counter [n] bounds
    the number of slices by the length of [values]. *)
Fixpoint chunked_from {A : Type} (n : nat) (values : list A) (size : nat) : list (list A) :=
  match n, values with
  | S n', _ :: _ => take size values :: chunked_from n' (drop size values) size
  | _, _ => []
  end.

Definition chunked {A : Type} (values : list A) (size : nat) : list (list A) :=
  chunked_from (length values) values size.

(** [translate_candidates] is the same loop in both scripts, up to the two
    constants and the wording of the feedback; it is written once, over the
    constants, and instantiated in the module of each script. *)
Section Orchestrator.
Context `{PyUnicode}.
Variable BATCH_SIZE MAX_RETRIES : nat.
Variable service : Service.

(** The body of [for source in pending]: accept the pair or queue the source
    for the next attempt. *)
Definition check_source (translated : gmap str str)
    (acc : OrchState * list str * list (str * Reason)) (source : str)
    : OrchState * list str * list (str * Reason) :=
  let '(st, next_pending, issues) := acc in
  let target := default source (translated !! source) in
  let '(ok, reason) := validate_translation source target in
  if ok then
    ({| final_targets := <[source := target]> (final_targets st);
        validations := <[source := validation_ok]> (validations st);
        calls := calls st |}, next_pending, issues)
  else (st, next_pending ++ [source], issues ++ [(source, reason)]).

Definition check_pending (translated : gmap str str) (pending : list str)
    (st : OrchState) : OrchState * list str * list (str * Reason) :=
  fold_left (check_source translated) pending (st, [], []).

(** [for source in next_pending]: fall back to the source text. *)
Definition fall_back (next_pending : list str) (st : OrchState) : OrchState :=
  fold_left
    (fun st source =>
       {| final_targets := <[source := source]> (final_targets st);
          validations := <[source := fallback_due_to_validation]> (validations st);
          calls := calls st |})
    next_pending st.

(** [for attempt in range(MAX_RETRIES + 1)], over the attempts still to run. *)
Fixpoint attempt_loop (attempts : list nat) (pending : list str)
    (feedback : option (list (str * Reason))) (st : OrchState) : Result OrchState :=
  match attempts with
  | [] => Ok st
  | attempt :: rest =>
      match pending with
      | [] => Ok st
      | _ :: _ =>
          let request := {| sources := pending; validation_feedback := feedback |} in
          let issued := calls st ++ [request] in
          match service (length (calls st)) request with
          | None => RuntimeError issued
          | Some translated =>
              let st1 := {| final_targets := final_targets st;
                            validations := validations st;
                            calls := issued |} in
              let '(st2, next_pending, issues) := check_pending translated pending st1 in
              if negb (bool_decide (next_pending = [])) && (attempt <? MAX_RETRIES)%nat
              then attempt_loop rest next_pending (Some issues) st2
              else Ok (fall_back next_pending st2)
          end
      end
  end.

(** One iteration of [for batch in chunked(...)]. *)
Definition translate_batch (batch : list str) (st : OrchState) : Result OrchState :=
  attempt_loop (seq 0 (MAX_RETRIES + 1)) batch None st.

Fixpoint translate_batches (batches : list (list str)) (st : OrchState) : Result OrchState :=
  match batches with
  | [] => Ok st
  | batch :: rest =>
      match translate_batch batch st with
      | Ok st' => translate_batches rest st'
      | RuntimeError issued => RuntimeError issued
      end
  end.

Definition make_row (st : OrchState) (candidate : Candidate) : TranslationRow :=
  let target := default (source candidate) (final_targets st !! source candidate) in
  let validation :=
    default fallback_missing_translation (validations st !! source candidate) in
  let status :=
    if decide (target ≠ source candidate) then status_translated else status_fallback in
  {| row_source := source candidate;
     row_target := target;
     row_status := status;
     row_validation := validation;
     row_contexts := contexts candidate |}.

(** [translate_candidates]: the rows, with the requests that were issued. *)
Definition translate_candidates_with (candidates : list Candidate)
    : Result (list TranslationRow * list Request) :=
  let ordered_sources := List.map source candidates in
  match translate_batches (chunked ordered_sources BATCH_SIZE) initial_state with
  | Ok st => Ok (List.map (make_row st) candidates, calls st)
  | RuntimeError issued => RuntimeError issued
  end.

End Orchestrator.

(** The service that answers every request with the identity mapping. *)
Definition echo_service : Service :=
  fun _ request => Some (list_to_map (List.map (fun s => (s, s)) (sources request))).

(** ** Ordered dictionaries and sorting

    A Python [dict] whose iteration order is observed is an association list
    in insertion order. *)

Fixpoint dict_get {V : Type} (key : str) (d : list (str * V)) : option V :=
  match d with
  | [] => None
  | (k, v) :: d' => if decide (k = key) then Some v else dict_get key d'
  end.

(** [d[key] = v]: replace in place, or append. *)
Fixpoint dict_set {V : Type} (key : str) (v : V) (d : list (str * V)) : list (str * V) :=
  match d with
  | [] => [(key, v)]
  | (k, w) :: d' =>
      if decide (k = key) then (k, v) :: d' else (k, w) :: dict_set key v d'
  end.

(** [d[key].append(v)] on a [defaultdict(list)]. *)
Definition dict_append {V : Type} (key : str) (v : V) (d : list (str * list V))
    : list (str * list V) :=
  dict_set key (default [] (dict_get key d) ++ [v]) d.

(** [sorted(values, key=...)]: the stable sort; [leb a b] compares the keys
    of [a] and [b]. *)
Fixpoint insert_sorted {A : Type} (leb : A -> A -> bool) (x : A) (l : list A) : list A :=
  match l with
  | [] => [x]
  | y :: l' => if leb x y then x :: l else y :: insert_sorted leb x l'
  end.

Definition sorted {A : Type} (leb : A -> A -> bool) (l : list A) : list A :=
  fold_right (insert_sorted leb) [] l.

(** Python compares tuples lexicographically: the first components decide
    unless they are equal. *)
Definition tuple_leb {A B : Type} `{EqDecision A} (leb1 : A -> A -> bool)
    (leb2 : B -> B -> bool) (x y : A * B) : bool :=
  if decide (x.1 ≠ y.1) then leb1 x.1 y.1 else leb2 x.2 y.2.

(** ** What a scan reads

    The scripts enumerate the Swift files of a target ([rglob]) and apply
    each pattern of [USER_FACING_PATTERNS] to each line that is not a
    comment.  A [ScanHit] is one successful [pattern.search(line)]: the file
    (relative to the project root), the line number, the label of the pattern
    and [match.group(1)].  The hits are given in the order the loops produce
    them. *)
Record ScanHit := {
  hit_file : str;
  hit_line : Z;
  hit_kind : str;
  hit_literal : str
}.

Record Project := {
  (** keys of ["strings"] in the app catalog ([[]] when the file is absent) *)
  app_catalog_keys : list str;
  widget_catalog_keys : list str;
  app_swift_hits : list ScanHit;
  widget_swift_hits : list ScanHit;
  (** [project.pbxproj], split into lines *)
  pbxproj_lines : list str
}.

Definition APP : str := u "app".
Definition WIDGET : str := u "widget".
Definition PBXPROJ : str := u "Alexis Farenheit.xcodeproj/project.pbxproj".

(** The body of a quoted literal: any number of escaped characters
    (a backslash and a character) or characters other than the quotation
    mark (34) and the backslash (92). *)
Definition QuotedBody : regex :=
  Star (Alt (Cat (Chr 92) Dot) (NoneOf [34; 92])).

Definition KEY_ALWAYS : str := u "NSLocationAlwaysAndWhenInUseUsageDescription".
Definition KEY_WHEN_IN_USE : str := u "NSLocationWhenInUseUsageDescription".

Definition enumerate {A : Type} (l : list A) : list (Z * A) :=
  zip (List.map Z.of_nat (seq 1 (length l))) l.

(** ** [scripts/i18n_workflow.py] *)

Module I18nWorkflow.

Definition BATCH_SIZE : nat := 30.
Definition MAX_RETRIES : nat := 2.

(** [PLIST_KEY_PATTERN] *)
Definition PLIST_KEY_PATTERN : regex :=
  Cat (Lit (u "INFOPLIST_KEY_"))
    (Cat (Grp 1 (Alt (Lit KEY_ALWAYS) (Lit KEY_WHEN_IN_USE)))
       (Cat (Star Space)
          (Cat (Chr 61)
             (Cat (Star Space)
                (Cat (Chr 34)
                   (Cat (Grp 2 QuotedBody)
                      (Cat (Chr 34) (Chr 59)))))))).

Definition SKIP_LITERALS : list str :=
  List.map u
    [ "doc.text.magnifyingglass"; "magnifyingglass"; "arrow.triangle.2.circlepath";
      "plus.circle.fill"; "arrow.left.arrow.right"; "doc.text"; "doc.badge.gearshape";
      "trash"; "location.fill"; "clock.fill"; "arrow.counterclockwise";
      "globe.americas.fill"; "mappin.slash"; "mappin.circle.fill"; "xmark.circle.fill";
      "line.3.horizontal"; "lock.fill"; "thermometer.medium"; "equal"; "chevron.right";
      "xmark"; "clock"; "gear"; "ellipsis.circle"; "arrow.clockwise" ]%string.

Definition ascii_letter (c : N) : bool :=
  ((65 <=? c) && (c <=? 90)) || ((97 <=? c) && (c <=? 122)).

Definition looks_translatable (text : str) : bool :=
  if bool_decide (strip text = []) then false
  else if bool_decide (text ∈ SKIP_LITERALS) then false
  else if startswith (u "%") (strip text) then false
  else if startswith (u "\(") text then false
  else if negb (existsb ascii_letter text) then false
  else true.

Section Scan.
Context `{PyUnicode}.
Variable project : Project.

Definition collect_catalog_keys (target : str) : list (str * Context) :=
  let '(catalog_file, keys) :=
    if decide (target = APP)
    then (u "Alexis Farenheit/Localizable.xcstrings", app_catalog_keys project)
    else (u "AlexisExtensionFarenheit/Localizable.xcstrings", widget_catalog_keys project) in
  List.map
    (fun key =>
       (key, {| file := catalog_file; line := 0; kind := u "xcstrings_key"; target := target |}))
    (List.filter looks_translatable keys).

Definition collect_code_keys (target : str) : list (str * Context) :=
  let hits :=
    if decide (target = APP) then app_swift_hits project else widget_swift_hits project in
  List.map
    (fun hit =>
       (hit_literal hit,
        {| file := hit_file hit; line := hit_line hit; kind := hit_kind hit; target := target |}))
    (List.filter (fun hit => looks_translatable (hit_literal hit)) hits).

(** One line of [project.pbxproj] in [collect_plist_keys]. *)
Definition plist_line (acc : list (str * Context) * gmap str str) (numbered : Z * str)
    : list (str * Context) * gmap str str :=
  let '(out, by_key) := acc in
  let '(line_no, text) := numbered in
  match search PLIST_KEY_PATTERN text with
  | None => acc
  | Some g =>
      let key_name := group g 1 in
      let value := group g 2 in
      let by_key' :=
        match by_key !! key_name with
        | None => <[key_name := value]> by_key
        | Some _ => by_key
        end in
      if looks_translatable value then
        (out ++ [(value, {| file := PBXPROJ; line := line_no;
                            kind := u "InfoPlistUsageDescription"; target := APP |})],
         by_key')
      else (out, by_key')
  end.

Definition required : gset str := {[ KEY_ALWAYS; KEY_WHEN_IN_USE ]}.

(** The [RuntimeError] of [collect_plist_keys], by the list it prints:
    [sorted(missing)]. *)
Inductive PlistError := missing_usage_description_keys (sorted_missing : list str).

Definition collect_plist_keys : (list (str * Context) * gmap str str) + PlistError :=
  let '(out, by_key) := fold_left plist_line (enumerate (pbxproj_lines project)) ([], ∅) in
  if decide (dom by_key ≠ required) then
    let missing := required ∖ dom by_key in
    inr (missing_usage_description_keys (sorted str_leb (elements missing)))
  else inl (out, by_key).

(** The sort key [(c.file, c.line, c.kind, c.target)]. *)
Definition context_key (c : Context) : str * (Z * (str * str)) :=
  (file c, (line c, (kind c, target c))).

Definition context_leb (a b : Context) : bool :=
  tuple_leb str_leb (tuple_leb Z.leb (tuple_leb str_leb str_leb))
    (context_key a) (context_key b).

(** [item[0].lower()] as the sort key. *)
Definition lower_leb {V : Type} (a b : str * V) : bool :=
  str_leb (lower a.1) (lower b.1).

Definition group_pairs (pairs : list (str * Context))
    (grouped : list (str * list Context)) : list (str * list Context) :=
  fold_left (fun grouped '(source, ctx) => dict_append source ctx grouped) pairs grouped.

Definition build_candidates (include_targets : list str)
    : (list Candidate * gmap str str) + PlistError :=
  let grouped :=
    fold_left
      (fun grouped target =>
         group_pairs (collect_code_keys target)
           (group_pairs (collect_catalog_keys target) grouped))
      include_targets [] in
  match collect_plist_keys with
  | inr e => inr e
  | inl (plist_candidates, plist_by_key) =>
      let grouped := group_pairs plist_candidates grouped in
      inl (List.map
             (fun '(source, contexts) =>
                {| source := source;
                   contexts := sorted context_leb (remove_dups contexts) |})
             (sorted lower_leb grouped),
           plist_by_key)
  end.

End Scan.

Definition translate_candidates `{PyUnicode} (service : Service)
    (candidates : list Candidate) : Result (list TranslationRow * list Request) :=
  translate_candidates_with BATCH_SIZE MAX_RETRIES service candidates.

(** *** [main], up to the translation step *)

Record Args := {
  include_targets : str;   (* --include-targets *)
  dry_run : bool           (* --dry-run *)
}.

(** [text.split(sep)] for a one-character separator. *)
Fixpoint split (sep : N) (text : str) : list str :=
  match text with
  | [] => [[]]
  | c :: text' =>
      if c =? sep then [] :: split sep text'
      else
        match split sep text' with
        | first :: others => (c :: first) :: others
        | [] => [[c]]
        end
  end.

(** Where [main] leaves off.  After the rows are translated [main] goes on to
    register the region, apply the rows and run the external checks; that
    part issues no translation request and is not followed here. *)
Inductive Outcome :=
| invalid_targets_error (invalid_targets : list str)
| build_candidates_error (e : PlistError)
| dry_run_complete (candidates : list Candidate)
| api_key_required
| transport_error
| rows_translated (rows : list TranslationRow).

Record Run := {
  outcome : Outcome;
  requests : list Request   (* translation requests issued during the run *)
}.

(** The value [main] returns, where it returns before the apply phase. *)
Definition exit_code (o : Outcome) : option Z :=
  match o with
  | invalid_targets_error _ => Some 2%Z
  | build_candidates_error _ => Some 1%Z
  | dry_run_complete _ => Some 0%Z
  | api_key_required => Some 2%Z
  | transport_error => None
  | rows_translated _ => None
  end.

(** [include_targets] in [main]: the tokens of [--include-targets]. *)
Definition include_targets_of (args : Args) : list str :=
  List.filter (fun token => negb (bool_decide (token = [])))
    (List.map strip (split 44 (include_targets args))).

Definition invalid_targets_of (args : Args) : list str :=
  List.filter (fun token => negb (bool_decide (token ∈ [APP; WIDGET])))
    (include_targets_of args).

Definition main `{PyUnicode} (args : Args) (OPENAI_API_KEY : option str)
    (project : Project) (service : Service) : Run :=
  let invalid_targets := invalid_targets_of args in
  if negb (bool_decide (invalid_targets = [])) then
    {| outcome := invalid_targets_error invalid_targets; requests := [] |}
  else
    match build_candidates project (include_targets_of args) with
    | inr e => {| outcome := build_candidates_error e; requests := [] |}
    | inl (candidates, plist_by_key) =>
        if dry_run args then
          {| outcome := dry_run_complete candidates; requests := [] |}
        else
          match OPENAI_API_KEY with
          | None | Some [] => {| outcome := api_key_required; requests := [] |}
          | Some (_ :: _) =>
              match translate_candidates service candidates with
              | RuntimeError issued => {| outcome := transport_error; requests := issued |}
              | Ok (rows, issued) => {| outcome := rows_translated rows; requests := issued |}
              end
          end
    end.

(** Whether a line of the manifest assigns the permission key [key]. *)
Definition manifest_declares (lines : list str) (key : str) : bool :=
  existsb
    (fun text =>
       match search PLIST_KEY_PATTERN text with
       | Some g => bool_decide (group g 1 = key)
       | None => false
       end)
    lines.

(** *** The catalog file

    The content of a [.xcstrings] file as [json.loads] returns it: objects
    keep the order of their keys, which is the order [json.dumps] writes. *)
#[warnings="-register-all"]
Inductive json :=
| JNull
| JBool (b : bool)
| JInt (z : Z)
| JFloat (bits : N)   (* a double, by its bit pattern; never inspected *)
| JStr (s : str)
| JList (l : list json)
| JDict (d : list (str * json)).

Definition string_unit (localized_value : str) : json :=
  JDict [ (u "stringUnit",
           JDict [ (u "state", JStr (u "translated"));
                   (u "value", JStr localized_value) ]) ].

(** [x.get(key, {})] where [x] has to be a dict ([None]: AttributeError). *)
Definition get_or_empty (key : str) (x : json) : option json :=
  match x with
  | JDict d => Some (default (JDict []) (dict_get key d))
  | _ => None
  end.

(** [localizations.get(language, {}).get("stringUnit", {}).get("value")
     if language in localizations else None]: [None] is an exception,
    [Some None] the value [None]. *)
Definition previous_value (language : str) (localizations : list (str * json))
    : option (option json) :=
  match dict_get language localizations with
  | None => Some None
  | Some loc =>
      match get_or_empty (u "stringUnit") loc with
      | Some (JDict unit) => Some (dict_get (u "value") unit)
      | _ => None
      end
  end.

(** [previous != localized_value] *)
Definition differs (previous : option json) (localized_value : str) : bool :=
  match previous with
  | Some (JStr s) => negb (bool_decide (s = localized_value))
  | _ => true
  end.

(** The body of the loop of [update_catalog] on the entry of one key: the
    entry after the update and whether it counts as changed.  [None] stands
    for the exception Python raises on an entry, or a ["localizations"] or
    ["stringUnit"] value, that is not an object. *)
Definition update_entry (language localized_value : str) (entry : json) : option (json * bool) :=
  match entry with
  | JDict e =>
      let e1 :=
        match dict_get (u "extractionState") e with
        | None => dict_set (u "extractionState") (JStr (u "manual")) e
        | Some _ => e
        end in
      match default (JDict []) (dict_get (u "localizations") e1) with
      | JDict localizations =>
          match previous_value language localizations with
          | None => None
          | Some previous =>
              let localizations' :=
                dict_set language (string_unit localized_value) localizations in
              Some (JDict (dict_set (u "localizations") (JDict localizations') e1),
                    differs previous localized_value)
          end
      | _ => None
      end
  | _ => None
  end.

(** [for source_key, localized_value in translations.items()] *)
Fixpoint update_entries (language : str) (translations : list (str * str))
    (strings : list (str * json)) (changed : nat) : option (list (str * json) * nat) :=
  match translations with
  | [] => Some (strings, changed)
  | (source_key, localized_value) :: rest =>
      let entry := default (JDict []) (dict_get source_key strings) in
      match update_entry language localized_value entry with
      | None => None
      | Some (entry', is_changed) =>
          update_entries language rest (dict_set source_key entry' strings)
            (if is_changed then S changed else changed)
      end
  end.

(** [update_catalog(catalog_path, language, translations)]: [stored] is the
    content of the file ([None] when it does not exist); the result is the
    content written and the count returned, or [None] when an exception
    leaves the file as it was. *)
Definition update_catalog `{PyUnicode} (stored : option json) (language : str)
    (translations : list (str * str)) : option (json * nat) :=
  let catalog :=
    match stored with
    | Some c => c
    | None => JDict [ (u "sourceLanguage", JStr (u "en"));
                      (u "strings", JDict []);
                      (u "version", JStr (u "1.0")) ]
    end in
  match catalog with
  | JDict top =>
      let top1 :=
        match dict_get (u "strings") top with
        | None => dict_set (u "strings") (JDict []) top
        | Some _ => top
        end in
      let top2 := dict_set (u "sourceLanguage") (JStr (u "en")) top1 in
      let top3 := dict_set (u "version") (JStr (u "1.0")) top2 in
      match dict_get (u "strings") top3 with
      | Some (JDict strings) =>
          match update_entries language translations strings 0 with
          | None => None
          | Some (strings', changed) =>
              let ordered :=
                JDict [ (u "sourceLanguage", JStr (u "en"));
                        (u "strings", JDict (sorted lower_leb strings'));
                        (u "version", JStr (u "1.0")) ] in
              Some (ordered, changed)
          end
      | _ => None
      end
  | _ => None
  end.

(** The file [update_catalog] writes. *)
Definition written `{PyUnicode} (strings : list (str * json)) : json :=
  JDict [ (u "sourceLanguage", JStr (u "en"));
          (u "strings", JDict (sorted lower_leb strings));
          (u "version", JStr (u "1.0")) ].

(** The entries of the stored catalog ([[]] when there is no file or no
    ["strings"] member). *)
Definition stored_strings (stored : option json) : list (str * json) :=
  match stored with
  | Some (JDict top) =>
      match dict_get (u "strings") top with
      | Some (JDict strings) => strings
      | _ => []
      end
  | _ => []
  end.

(** The dictionary [apply_translations] builds for the catalog of [target]:
    [m[row.source] = row.target] for the rows one of whose contexts has the
    target [group]. *)
Definition catalog_map (group : str) (rows : list TranslationRow) : list (str * str) :=
  fold_left
    (fun m row =>
       if bool_decide (group ∈ List.map target (row_contexts row))
       then dict_set (row_source row) (row_target row) m else m)
    rows [].

(** *** Sanitising the catalog *)

(** The truth value Python gives a JSON value; the floats that are false
    are [0.0] and [-0.0]. *)
Definition truthy (x : json) : bool :=
  match x with
  | JNull => false
  | JBool b => b
  | JInt z => negb (z =? 0)%Z
  | JFloat bits => negb ((bits =? 0) || (bits =? 2 ^ 63))
  | JStr s => negb (bool_decide (s = []))
  | JList l => negb (bool_decide (l = []))
  | JDict d => negb (bool_decide (List.map fst d = []))
  end.

(** [d.pop(key, None)] *)
Definition dict_pop {V : Type} (key : str) (d : list (str * V)) : list (str * V) :=
  List.filter (fun item => negb (bool_decide (item.1 = key))) d.

(** [entry.get("extractionState") == "manual"] *)
Definition is_manual (e : list (str * json)) : bool :=
  match dict_get (u "extractionState") e with
  | Some (JStr state) => bool_decide (state = u "manual")
  | _ => false
  end.

(** The body of the loop of [sanitize_catalog_for_symbols] on one item of
    ["strings"]: the entry after it and what it adds to [changed].  [None]
    is the AttributeError of [entry.get] on an entry that is not an
    object. *)
Definition sanitize_entry (language key : str) (entry : json) : option (json * nat) :=
  if negb (startswith (u "%") key) then Some (entry, 0%nat)
  else
    match entry with
    | JDict e =>
        if negb (truthy (default JNull (dict_get (u "isCommentAutoGenerated") e)))
        then Some (entry, 0%nat)
        else
          let '(e1, c1) :=
            if is_manual e
            then (dict_pop (u "extractionState") e, 1%nat)
            else (e, 0%nat) in
          match dict_get (u "localizations") e1 with
          | Some (JDict localizations) =>
              if bool_decide (language ∈ List.map fst localizations)
              then Some (JDict (dict_set (u "localizations")
                                  (JDict (dict_pop language localizations)) e1),
                         S c1)
              else Some (JDict e1, c1)
          | _ => Some (JDict e1, c1)
          end
    | _ => None
    end.

(** [for key, entry in strings.items()] *)
Fixpoint sanitize_entries (language : str) (strings : list (str * json))
    : option (list (str * json) * nat) :=
  match strings with
  | [] => Some ([], 0%nat)
  | (key, entry) :: rest =>
      match sanitize_entry language key entry with
      | None => None
      | Some (entry', c) =>
          match sanitize_entries language rest with
          | None => None
          | Some (rest', c') => Some ((key, entry') :: rest', (c + c')%nat)
          end
      end
  end.

(** [sanitize_catalog_for_symbols(catalog_path, language)]: [stored] is the
    content of the file ([None] when it does not exist); the result is the
    content of the file afterwards and the count returned, or [None] when
    an exception leaves the file as it was. *)
Definition sanitize_catalog_for_symbols `{PyUnicode} (stored : option json)
    (language : str) : option (option json * nat) :=
  match stored with
  | None => Some (None, 0%nat)
  | Some (JDict top) =>
      match default (JDict []) (dict_get (u "strings") top) with
      | JDict strings =>
          match sanitize_entries language strings with
          | None => None
          | Some (strings', changed) =>
              match changed with
              | O => Some (stored, 0%nat)
              | S _ =>
                  let ordered :=
                    JDict [ (u "sourceLanguage",
                             default (JStr (u "en")) (dict_get (u "sourceLanguage") top));
                            (u "strings", JDict (sorted lower_leb strings'));
                            (u "version",
                             default (JStr (u "1.0")) (dict_get (u "version") top)) ] in
                  Some (Some ordered, changed)
              end
          end
      | _ => None
      end
  | Some _ => None
  end.

(** *** [InfoPlist.strings] *)

(** [text.replace(old, new)] for a one-character [old]. *)
Definition replace_char (old : N) (new : str) (text : str) : str :=
  flat_map (fun c => if c =? old then new else [c]) text.

Definition escape_string_literal (text : str) : str :=
  replace_char 34 [92; 34] (replace_char 92 [92; 92] text).

(** [sep.join(lines)] *)
Fixpoint join (sep : str) (lines : list str) : str :=
  match lines with
  | [] => []
  | [line] => line
  | line :: rest => line ++ sep ++ join sep rest
  end.

(** One line of the file: the key and the escaped value, both quoted. *)
Definition strings_line (key target_value : str) : str :=
  [34] ++ key ++ [34] ++ u " = " ++ [34] ++ escape_string_literal target_value ++ [34; 59].

(** [write_info_plist_strings]: the content written, or [None] for the
    KeyError of [plist_by_key[key]]. *)
Definition write_info_plist_strings (translated_by_source : list (str * str))
    (plist_by_key : gmap str str) : option str :=
  match plist_by_key !! KEY_ALWAYS, plist_by_key !! KEY_WHEN_IN_USE with
  | Some always, Some when_in_use =>
      let line key source_value :=
        strings_line key (default source_value (dict_get source_value translated_by_source)) in
      Some (join [10] [line KEY_ALWAYS always; line KEY_WHEN_IN_USE when_in_use] ++ [10])
  | _, _ => None
  end.

(** *** [apply_translations] *)

(** [translated_by_source[row.source] = row.target] over the rows. *)
Definition translated_by_source (rows : list TranslationRow) : list (str * str) :=
  fold_left (fun m row => dict_set (row_source row) (row_target row) m) rows [].

(** The files [apply_translations] reads and writes. *)
Record Files := {
  app_catalog : option json;
  widget_catalog : option json;
  info_plist_strings : option str
}.

Record Counters := {
  appCatalogEntriesUpdated : nat;
  widgetCatalogEntriesUpdated : nat;
  appSanitizedKeys : nat;
  widgetSanitizedKeys : nat
}.

(** [apply_translations]: the files afterwards, and the counters when no
    step raised.  A step that raises leaves the files as the steps before
    it wrote them. *)
Definition apply_translations `{PyUnicode} (files : Files) (language : str)
    (rows : list TranslationRow) (plist_by_key : gmap str str)
    : Files * option Counters :=
  let app_map := catalog_map APP rows in
  let widget_map := catalog_map WIDGET rows in
  match update_catalog (app_catalog files) language app_map with
  | None => (files, None)
  | Some (app1, app_changed) =>
      let files1 := {| app_catalog := Some app1;
                       widget_catalog := widget_catalog files;
                       info_plist_strings := info_plist_strings files |} in
      match update_catalog (widget_catalog files) language widget_map with
      | None => (files1, None)
      | Some (widget1, widget_changed) =>
          let files2 := {| app_catalog := Some app1;
                           widget_catalog := Some widget1;
                           info_plist_strings := info_plist_strings files |} in
          match sanitize_catalog_for_symbols (Some app1) language with
          | None => (files2, None)
          | Some (app2, app_sanitized) =>
              let files3 := {| app_catalog := app2;
                               widget_catalog := Some widget1;
                               info_plist_strings := info_plist_strings files |} in
              match sanitize_catalog_for_symbols (Some widget1) language with
              | None => (files3, None)
              | Some (widget2, widget_sanitized) =>
                  let files4 := {| app_catalog := app2;
                                   widget_catalog := widget2;
                                   info_plist_strings := info_plist_strings files |} in
                  match write_info_plist_strings (translated_by_source rows)
                          plist_by_key with
                  | None => (files4, None)
                  | Some content =>
                      ({| app_catalog := app2;
                          widget_catalog := widget2;
                          info_plist_strings := Some content |},
                       Some {| appCatalogEntriesUpdated := app_changed;
                               widgetCatalogEntriesUpdated := widget_changed;
                               appSanitizedKeys := app_sanitized;
                               widgetSanitizedKeys := widget_sanitized |})
                  end
              end
          end
      end
  end.

(** *** The known regions of the project file *)

(** [text.strip(chars)]: drop the characters of [chars] at both ends. *)
Fixpoint lstrip_chars (chars s : str) : str :=
  match s with
  | c :: s' => if existsb (N.eqb c) chars then lstrip_chars chars s' else s
  | [] => []
  end.

Definition strip_chars (chars s : str) : str :=
  rev (lstrip_chars chars (rev (lstrip_chars chars s))).

(** The nested [normalize_region]: trim the token, then the commas at its
    ends, then the quotation marks at its ends, and trim again. *)
Definition normalize_region (token : str) : str :=
  strip (strip_chars [34] (strip_chars [44] (strip token))).

(** The class [[A-Za-z0-9_]]. *)
Definition word_char (c : N) : bool :=
  ascii_letter c || ((48 <=? c) && (c <=? 57)) || (c =? 95).

(** The nested [format_region]: [re.fullmatch] on a repeated class holds
    when the text is not empty and all its characters are in the class. *)
Definition format_region (region : str) : str :=
  if negb (bool_decide (region = [])) && forallb word_char region
  then region
  else [34] ++ region ++ [34].

(** The index of the first value that satisfies [p]. *)
Fixpoint find_index {A : Type} (p : A -> bool) (l : list A) : option nat :=
  match l with
  | [] => None
  | x :: l' => if p x then Some 0%nat else option_map S (find_index p l')
  end.

Inductive RegionError :=
| no_known_regions_block      (* Could not locate knownRegions block *)
| malformed_known_regions_block.

(** The two loops that look for the block: the index of the first line
    that holds [knownRegions = (] and of the first later line that is [);]
    once trimmed. *)
Definition locate_block (lines : list str) : (nat * nat) + RegionError :=
  match find_index (contains (u "knownRegions = (")) lines with
  | None => inr no_known_regions_block
  | Some start_idx =>
      match find_index (fun text => bool_decide (strip text = u ");"))
              (drop (S start_idx) lines) with
      | None => inr malformed_known_regions_block
      | Some offset => inl (start_idx, (S start_idx + offset)%nat)
      end
  end.

(** [lines[start_idx + 1 : end_idx]] *)
Definition block_of (lines : list str) (start_idx end_idx : nat) : list str :=
  take (end_idx - S start_idx) (drop (S start_idx) lines).

(** [normalized]: the regions of the lines of the block, the empty ones
    left out. *)
Definition normalized_regions (block : list str) : list str :=
  List.filter (fun region => negb (bool_decide (region = [])))
    (List.map (fun text => normalize_region (strip_chars [44] (strip text))) block).

(** The loop over [normalized]: the regions in the order of their first
    occurrence, and the set [seen]. *)
Definition unique_step (acc : list str * gset str) (region : str) : list str * gset str :=
  let '(unique_regions, seen) := acc in
  if decide (region ∈ seen) then acc
  else (unique_regions ++ [region], seen ∪ {[region]}).

Definition unique_regions_of (normalized : list str) : list str * gset str :=
  fold_left unique_step normalized ([], ∅).

(** [get_known_regions] *)
Definition get_known_regions (lines : list str) : list str + RegionError :=
  match locate_block lines with
  | inr e => inr e
  | inl (start_idx, end_idx) =>
      inl (unique_regions_of (normalized_regions (block_of lines start_idx end_idx))).1
  end.

Definition BASE : str := u "Base".

(** When the language is not yet seen: insert it at the index of [Base],
    or append it when there is no [Base]. *)
Definition with_language (language : str) (acc : list str * gset str) : list str :=
  let '(unique_regions, seen) := acc in
  if decide (language ∈ seen) then unique_regions
  else
    match find_index (fun region => bool_decide (region = BASE)) unique_regions with
    | Some base_idx => take base_idx unique_regions ++ [language] ++ drop base_idx unique_regions
    | None => unique_regions ++ [language]
    end.

(** Keep [Base] last when present. *)
Definition base_last (unique_regions : list str) : list str :=
  if bool_decide (BASE ∈ unique_regions)
  then List.filter (fun region => negb (bool_decide (region = BASE))) unique_regions ++ [BASE]
  else unique_regions.

(** One line of the new block: four tabs, the region, a comma. *)
Definition block_line (region : str) : str :=
  [9; 9; 9; 9] ++ format_region region ++ [44].

(** The regions [ensure_known_region] writes, from the lines of the block. *)
Definition ensured_regions (language : str) (block : list str) : list str :=
  base_last (with_language language (unique_regions_of (normalized_regions block))).

(** [ensure_known_region]: whether the block changed, and the lines of the
    file afterwards (the file is written only when the block changed). *)
Definition ensure_known_region (lines : list str) (language : str)
    : (bool * list str) + RegionError :=
  match locate_block lines with
  | inr e => inr e
  | inl (start_idx, end_idx) =>
      let old_block := block_of lines start_idx end_idx in
      let new_block := List.map block_line (ensured_regions language old_block) in
      if decide (old_block ≠ new_block)
      then inl (true, take (S start_idx) lines ++ new_block ++ drop end_idx lines)
      else inl (false, lines)
  end.

End I18nWorkflow.

(** ** [scripts/localize_with_openai.py] *)

Module LocalizeWithOpenai.

Definition BATCH_SIZE : nat := 25.
Definition MAX_RETRIES : nat := 2.

Definition SPANISH_KEYWORDS : list str :=
  [ u "agregar"; u "busca"; u "buscar"; u "ciudad"; u "ciudades"; u "cancelar";
    u "actualizar"; u "zona horaria"; u "conversor"; u "sin resultados"; u "intenta";
    u "permiso"; u "ubicaci" ++ [243] ++ u "n"; u "ajustes"; u "muestra"; u "desliza";
    u "tiempo mundial"; u "cerrar"; u "limpiar"; u "m" ++ [225] ++ u "ximo";
    u "esta ciudad"; u "no se pudo"; u "obteniendo"; u "solicitando"; u "lugar";
    u "lugares" ].

(** The accented vowels, n with tilde, and the inverted question and
    exclamation marks. *)
Definition SPANISH_MARKS : str := [225; 233; 237; 243; 250; 241; 191; 161].

(** [PLIST_PATTERN]: the value is group 1. *)
Definition PLIST_PATTERN : regex :=
  Cat (Lit (u "INFOPLIST_KEY_NSLocation"))
    (Cat (Alt (Lit (u "AlwaysAndWhenInUse")) (Lit (u "WhenInUse")))
       (Cat (Lit (u "UsageDescription"))
          (Cat (Star Space)
             (Cat (Chr 61)
                (Cat (Star Space)
                   (Cat (Chr 34)
                      (Cat (Grp 1 QuotedBody)
                         (Cat (Chr 34) (Chr 59))))))))).

Section Scan.
Context `{PyUnicode}.

Definition is_spanish_like (text : str) : bool :=
  let lowered := lower text in
  if existsb (fun ch => existsb (N.eqb ch) lowered) SPANISH_MARKS then true
  else existsb (fun token => contains token lowered) SPANISH_KEYWORDS.

Definition should_include_for_source_lang (text source_lang : str) : bool :=
  if decide (lower source_lang = u "es") then is_spanish_like text else true.

(** The nested function [add] of [extract_candidates]. *)
Definition add (source_lang : str) (buckets : list (str * list Context))
    (source file_path : str) (line_no : Z) (kind target : str)
    : list (str * list Context) :=
  if bool_decide (strip source = []) then buckets
  else if negb (should_include_for_source_lang source source_lang) then buckets
  else dict_append source
         {| file := file_path; line := line_no; kind := kind; target := target |} buckets.

Definition add_hits (source_lang target : str) (hits : list ScanHit)
    (buckets : list (str * list Context)) : list (str * list Context) :=
  fold_left
    (fun buckets hit =>
       add source_lang buckets (hit_literal hit) (hit_file hit) (hit_line hit)
         (hit_kind hit) target)
    hits buckets.

Definition add_plist_lines (source_lang : str) (lines : list str)
    (buckets : list (str * list Context)) : list (str * list Context) :=
  fold_left
    (fun buckets '(line_no, text) =>
       match search PLIST_PATTERN text with
       | Some g =>
           add source_lang buckets (group g 1) PBXPROJ line_no
             (u "InfoPlistUsageDescription") APP
       | None => buckets
       end)
    (enumerate lines) buckets.

(** [sorted(buckets.items())]: the keys of a dict differ, so the pairs are
    ordered by their first components. *)
Definition item_leb {V : Type} (a b : str * V) : bool := str_leb a.1 b.1.

Definition extract_candidates (project : Project) (include_targets : list str)
    (source_lang : str) : list Candidate :=
  let buckets := [] in
  let buckets :=
    if bool_decide (APP ∈ include_targets) then
      add_plist_lines source_lang (pbxproj_lines project)
        (add_hits source_lang APP (app_swift_hits project) buckets)
    else buckets in
  let buckets :=
    if bool_decide (WIDGET ∈ include_targets) then
      add_hits source_lang WIDGET (widget_swift_hits project) buckets
    else buckets in
  List.map (fun '(source, contexts) => {| source := source; contexts := contexts |})
    (sorted item_leb buckets).

End Scan.

Definition translate_candidates `{PyUnicode} (service : Service)
    (candidates : list Candidate) : Result (list TranslationRow * list Request) :=
  translate_candidates_with BATCH_SIZE MAX_RETRIES service candidates.

(** *** The catalog of the target language

    [update_catalog] of this script keys the entries by the translated text
    and stores the source text as the localization for the source
    language. *)

(** The body of its loop on the entry of one key; [None] is the exception
    Python raises on an entry or a ["localizations"] value that is not an
    object. *)
Definition update_entry (source_lang source_text : str) (entry : I18nWorkflow.json)
    : option I18nWorkflow.json :=
  match entry with
  | I18nWorkflow.JDict e =>
      let e1 := dict_set (u "extractionState") (I18nWorkflow.JStr (u "manual")) e in
      match default (I18nWorkflow.JDict []) (dict_get (u "localizations") e1) with
      | I18nWorkflow.JDict localizations =>
          let localizations' :=
            dict_set source_lang (I18nWorkflow.string_unit source_text) localizations in
          Some (I18nWorkflow.JDict
                  (dict_set (u "localizations") (I18nWorkflow.JDict localizations') e1))
      | _ => None
      end
  | _ => None
  end.

(** [for target_text, source_text in pairs] *)
Fixpoint update_entries (source_lang : str) (pairs : list (str * str))
    (strings : list (str * I18nWorkflow.json)) : option (list (str * I18nWorkflow.json)) :=
  match pairs with
  | [] => Some strings
  | (target_text, source_text) :: rest =>
      let entry := default (I18nWorkflow.JDict []) (dict_get target_text strings) in
      match update_entry source_lang source_text entry with
      | None => None
      | Some entry' =>
          update_entries source_lang rest (dict_set target_text entry' strings)
      end
  end.

(** [update_catalog(catalog_path, source_lang, target_lang, pairs)]:
    [stored] is the content of the file ([None] when it does not exist);
    the result is the content written, or [None] when an exception leaves
    the file as it was. *)
Definition update_catalog `{PyUnicode} (stored : option I18nWorkflow.json)
    (source_lang target_lang : str) (pairs : list (str * str))
    : option I18nWorkflow.json :=
  let catalog :=
    match stored with
    | Some c => c
    | None =>
        I18nWorkflow.JDict [ (u "sourceLanguage", I18nWorkflow.JStr target_lang);
                             (u "strings", I18nWorkflow.JDict []);
                             (u "version", I18nWorkflow.JStr (u "1.0")) ]
    end in
  match catalog with
  | I18nWorkflow.JDict top =>
      let top1 := dict_set (u "sourceLanguage") (I18nWorkflow.JStr target_lang) top in
      let top2 :=
        match dict_get (u "strings") top1 with
        | None => dict_set (u "strings") (I18nWorkflow.JDict []) top1
        | Some _ => top1
        end in
      let top3 := dict_set (u "version") (I18nWorkflow.JStr (u "1.0")) top2 in
      match dict_get (u "strings") top3 with
      | Some (I18nWorkflow.JDict strings) =>
          match update_entries source_lang pairs strings with
          | None => None
          | Some strings' =>
              Some (I18nWorkflow.JDict
                      [ (u "sourceLanguage", I18nWorkflow.JStr target_lang);
                        (u "strings",
                         I18nWorkflow.JDict (sorted I18nWorkflow.lower_leb strings'));
                        (u "version", I18nWorkflow.JStr (u "1.0")) ])
          end
      | _ => None
      end
  | _ => None
  end.

End LocalizeWithOpenai.

(** ** Vocabulary of the statements *)

Section Vocabulary.
Context `{PyUnicode}.

(** The target an attempt pairs with [source], and whether it is accepted. *)
Definition target_for (translated : gmap str str) (source : str) : str :=
  default source (translated !! source).

Definition accepted (translated : gmap str str) (source : str) : bool :=
  (validate_translation source (target_for translated source)).1.

Definition issue_for (translated : gmap str str) (source : str) : str * Reason :=
  (source, (validate_translation source (target_for translated source)).2).

End Vocabulary.

(** Every answer maps each source of the request to itself. *)
Definition identity_service (service : Service) : Prop :=
  forall n request,
    exists translated,
      service n request = Some translated /\
      forall s, s ∈ sources request -> translated !! s = Some s.

(** Requests one batch costs under such a service. *)
Definition batch_calls (max_retries : nat) (batch : list str) : nat :=
  match batch with
  | [] => 0
  | _ :: _ => if existsb is_blank batch then max_retries + 1 else 1
  end.

(** The validation such a service leaves on a source. *)
Definition echo_validation (source : str) : Validation :=
  if is_blank source then fallback_due_to_validation else validation_ok.

(** The row of a candidate whose translation is its own source. *)
Definition echo_row (candidate : Candidate) : TranslationRow :=
  {| row_source := source candidate;
     row_target := source candidate;
     row_status := status_fallback;
     row_validation := echo_validation (source candidate);
     row_contexts := contexts candidate |}.

(** Two candidates, the second one blank. *)
Definition hello_candidates : list Candidate :=
  [ {| source := u "Hello"; contexts := [] |};
    {| source := u "  "; contexts := [] |} ].


(** ** Sample inputs *)

(** A manifest line that assigns [value] to the permission key [key]. *)
Definition manifest_line (key value : str) : str :=
  u "    INFOPLIST_KEY_" ++ key ++ u " = " ++ [34] ++ value ++ [34; 59].

(** A project whose manifest assigns both permission keys; the app scan
    hits [apple] before [Zebra]. *)
Definition sample_project : Project := {|
  app_catalog_keys := [u "Cancel"; u "%lld"];
  widget_catalog_keys := [u "Cancel"];
  app_swift_hits :=
    [ {| hit_file := u "Alexis Farenheit/ContentView.swift"; hit_line := 12;
         hit_kind := u "Text"; hit_literal := u "apple" |};
      {| hit_file := u "Alexis Farenheit/ContentView.swift"; hit_line := 30;
         hit_kind := u "Button"; hit_literal := u "Zebra" |} ];
  widget_swift_hits := [];
  pbxproj_lines :=
    [ u "/* Begin XCBuildConfiguration section */";
      manifest_line KEY_ALWAYS (u "We use your location for local weather.");
      manifest_line KEY_WHEN_IN_USE (u "We use your location while the app is open.") ]
|}.

(** The same project with the when-in-use assignment removed. *)
Definition project_without_when_in_use : Project := {|
  app_catalog_keys := app_catalog_keys sample_project;
  widget_catalog_keys := widget_catalog_keys sample_project;
  app_swift_hits := app_swift_hits sample_project;
  widget_swift_hits := widget_swift_hits sample_project;
  pbxproj_lines :=
    [ u "/* Begin XCBuildConfiguration section */";
      manifest_line KEY_ALWAYS (u "We use your location for local weather.") ]
|}.

Definition sample_args : I18nWorkflow.Args :=
  {| I18nWorkflow.include_targets := u "app, widget"; I18nWorkflow.dry_run := false |}.

(** A stored catalog with another source language and version, an entry
    that is not translated ([About]) and one that is ([Cancel]). *)
Definition sample_catalog : I18nWorkflow.json :=
  I18nWorkflow.JDict
    [ (u "sourceLanguage", I18nWorkflow.JStr (u "fr"));
      (u "version", I18nWorkflow.JStr (u "2.3"));
      (u "strings",
       I18nWorkflow.JDict
         [ (u "Cancel", I18nWorkflow.JDict []);
           (u "About",
            I18nWorkflow.JDict [ (u "comment", I18nWorkflow.JStr (u "menu item")) ]) ]) ].

Definition sample_translations : list (str * str) :=
  [ (u "Cancel", u "Cancelar"); (u "Search %d cities", u "Buscar %d ciudades") ].

(** A service that knows two words and echoes every other text. *)
Definition glossary (s : str) : str :=
  if decide (s = u "Cancel") then u "Cancelar"
  else if decide (s = u "apple") then u "manzana"
  else s.

Definition glossary_service : Service :=
  fun _ request =>
    Some (list_to_map (List.map (fun s => (s, glossary s)) (sources request))).

(** Two candidates, neither blank. *)
Definition word_candidates : list Candidate :=
  [ {| source := u "Cancel"; contexts := [] |};
    {| source := u "Hello"; contexts := [] |} ].

(** A catalog with the entry of a generated key that is marked [manual]
    and localized in two languages, and the entry of a plain key. *)
Definition generated_catalog : I18nWorkflow.json :=
  I18nWorkflow.JDict
    [ (u "sourceLanguage", I18nWorkflow.JStr (u "en"));
      (u "strings",
       I18nWorkflow.JDict
         [ (u "%lld items",
            I18nWorkflow.JDict
              [ (u "isCommentAutoGenerated", I18nWorkflow.JBool true);
                (u "extractionState", I18nWorkflow.JStr (u "manual"));
                (u "localizations",
                 I18nWorkflow.JDict
                   [ (u "es", I18nWorkflow.string_unit (u "%lld elementos"));
                     (u "fr", I18nWorkflow.string_unit (u "%lld articles")) ]) ]);
           (u "Cancel",
            I18nWorkflow.JDict
              [ (u "extractionState", I18nWorkflow.JStr (u "manual"));
                (u "localizations",
                 I18nWorkflow.JDict
                   [ (u "es", I18nWorkflow.string_unit (u "Cancelar")) ]) ]) ]);
      (u "version", I18nWorkflow.JStr (u "1.0")) ].

(** The entry of the generated key once sanitised for [es]. *)
Definition generated_entry_clean : list (str * I18nWorkflow.json) :=
  [ (u "isCommentAutoGenerated", I18nWorkflow.JBool true);
    (u "localizations",
     I18nWorkflow.JDict [ (u "fr", I18nWorkflow.string_unit (u "%lld articles")) ]) ].

(** The files before a first run: an app catalog, no widget catalog, no
    [InfoPlist.strings]. *)
Definition sample_files : I18nWorkflow.Files :=
  {| I18nWorkflow.app_catalog := Some sample_catalog;
     I18nWorkflow.widget_catalog := None;
     I18nWorkflow.info_plist_strings := None |}.

(** One translated row, used in both targets. *)
Definition sample_rows : list TranslationRow :=
  [ {| row_source := u "Cancel";
       row_target := u "Cancelar";
       row_status := status_translated;
       row_validation := validation_ok;
       row_contexts :=
         [ {| file := u "Alexis Farenheit/Localizable.xcstrings"; line := 0;
              kind := u "xcstrings_key"; target := APP |};
           {| file := u "AlexisExtensionFarenheit/Localizable.xcstrings"; line := 0;
              kind := u "xcstrings_key"; target := WIDGET |} ] |} ].

Definition sample_plist_by_key : gmap str str :=
  <[KEY_ALWAYS := u "We use your location for local weather."]>
    (<[KEY_WHEN_IN_USE := u "We use your location while the app is open."]> ∅).

(** A project file with two known regions. *)
Definition region_lines : list str :=
  [ [9; 9; 9] ++ u "knownRegions = (";
    [9; 9; 9; 9] ++ u "en,";
    [9; 9; 9; 9] ++ u "Base,";
    [9; 9; 9] ++ u ");";
    [9; 9; 9] ++ u "mainGroup = 1;" ].

(** Two source texts with the same translation. *)
Definition colliding_pairs : list (str * str) :=
  [ (u "Cancel", u "Cancelar"); (u "Cancel", u "Anular") ].

(** ** Vocabulary of the further statements *)

Section StateVocabulary.
Context `{PyUnicode}.

(** What the two dictionaries of [translate_candidates] say about a source:
    a source validated [ok] has a target that passes [validate_translation];
    any other recorded source has itself as target. *)
Definition sound_entry (st : OrchState) (s : str) : Prop :=
  match validations st !! s with
  | Some validation_ok =>
      exists t, final_targets st !! s = Some t
                /\ validate_translation s t = (true, reason_ok)
  | Some fallback_due_to_validation => final_targets st !! s = Some s
  | Some fallback_missing_translation => False
  | None => True
  end.

(** The same reading of a finished row. *)
Definition sound_row (row : TranslationRow) : Prop :=
  (row_validation row = validation_ok
   /\ validate_translation (row_source row) (row_target row) = (true, reason_ok))
  \/ (row_validation row = fallback_due_to_validation
      /\ row_target row = row_source row).

(** A service that answers every request for some of [texts], with an
    answer that passes validation. *)
Definition valid_service (texts : list str) (service : Service) : Prop :=
  forall n request,
    (forall s, s ∈ sources request -> s ∈ texts) ->
    exists translated,
      service n request = Some translated
      /\ forall s, s ∈ sources request -> accepted translated s = true.

End StateVocabulary.

(** The sources of a request with feedback are those the feedback lists. *)
Definition feedback_matches (request : Request) : Prop :=
  match validation_feedback request with
  | None => True
  | Some issues => List.map fst issues = sources request
  end.

(** A request of the batch that started with [batch]. *)
Definition request_of (batch : list str) (request : Request) : Prop :=
  sources request ≠ []
  /\ (forall s, s ∈ sources request -> s ∈ batch)
  /\ (length (sources request) <= length batch)%nat
  /\ feedback_matches request.

(** The requests issued, whether the run returned or raised. *)
Definition issued_of {A : Type} (calls_of : A -> list Request) (r : Result A)
    : list Request :=
  match r with
  | Ok a => calls_of a
  | RuntimeError issued => issued
  end.

(** The (text, context) pairs [build_candidates] groups, in the order it
    meets them: for each target the catalog keys and then the code
    literals, and last the usage descriptions of the manifest. *)
Definition scanned_pairs (project : Project) (include_targets : list str)
    : list (str * Context) :=
  flat_map
    (fun target =>
       I18nWorkflow.collect_catalog_keys project target
       ++ I18nWorkflow.collect_code_keys project target)
    include_targets
  ++ (fold_left I18nWorkflow.plist_line (enumerate (pbxproj_lines project)) ([], ∅)).1.

(** The values paired with [k], in the order of the pairs. *)
Definition values_of {V : Type} (k : str) (pairs : list (str * V)) : list V :=
  List.map snd (List.filter (fun pair => bool_decide (pair.1 = k)) pairs).

(** [for k, v in pairs: d.setdefault(k, []).append(v)]. *)
Definition append_pairs {V : Type} (pairs : list (str * V)) (d : list (str * list V))
    : list (str * list V) :=
  fold_left (fun d '(k, v) => dict_append k v d) pairs d.

(** The value [update_catalog] compares a translation of [key] with: the
    [previous] of its loop, read from the entries [strings]. *)
Definition stored_value (language key : str) (strings : list (str * I18nWorkflow.json)) : option I18nWorkflow.json :=
  match default (I18nWorkflow.JDict []) (dict_get key strings) with
  | I18nWorkflow.JDict e =>
      match default (I18nWorkflow.JDict []) (dict_get (u "localizations") e) with
      | I18nWorkflow.JDict localizations =>
          match I18nWorkflow.previous_value language localizations with
          | Some previous => previous
          | None => None
          end
      | _ => None
      end
  | _ => None
  end.

(** The members of a JSON object ([[]] for any other value). *)
Definition members (x : I18nWorkflow.json) : list (str * I18nWorkflow.json) :=
  match x with
  | I18nWorkflow.JDict d => d
  | _ => []
  end.

(** [entry.get("isCommentAutoGenerated")] as a condition: the entries the
    loop of [sanitize_catalog_for_symbols] looks at. *)
Definition auto_generated (e : list (str * I18nWorkflow.json)) : bool :=
  I18nWorkflow.truthy
    (default I18nWorkflow.JNull (dict_get (u "isCommentAutoGenerated") e)).

(** What the nested [add] of [extract_candidates] lets into the buckets. *)
Definition bucket_ok `{PyUnicode} (source_lang : str) (item : str * list Context) : Prop :=
  is_blank item.1 = false
  /\ LocalizeWithOpenai.should_include_for_source_lang item.1 source_lang = true
  /\ item.2 ≠ [].

(** Whether no group of [r] has the number [i]. *)
Fixpoint no_group (i : nat) (r : regex) : bool :=
  match r with
  | Eps | Chr _ | Cls _ => true
  | Cat r1 r2 | Alt r1 r2 => no_group i r1 && no_group i r2
  | Opt r1 | Star r1 => no_group i r1
  | Grp j r1 => negb (Nat.eqb i j) && no_group i r1
  end.

(** A region code: letters, digits, underscores and hyphens, at least one
    ([en], [pt-BR], [zh-Hans], [Base]). *)
Definition region_code (region : str) : bool :=
  negb (bool_decide (region = []))
  && forallb (fun c => I18nWorkflow.word_char c || (c =? 45)) region.

(** A region other than [Base] and the language being added. *)
Definition other_region (language region : str) : bool :=
  negb (bool_decide (region = I18nWorkflow.BASE))
  && negb (bool_decide (region = language)).

(** The number of slices [chunked] cuts [n] values into. *)
Definition slices (n size : nat) : nat := ((n + size - 1) / size)%nat.

(** * Properties *)

(** ** Whitespace *)

Lemma lstrip_nil (s : str) : lstrip s = [] <-> Forall (fun c => isspace c = true) s.
Proof.
  induction s as [|c s IH]; simpl.
  - split; auto.
  - destruct (isspace c) eqn:E.
    + rewrite IH. split.
      * intros Hs. constructor; assumption.
      * intros Hs. inversion Hs; assumption.
    + split; [discriminate|].
      intros Hs. inversion Hs; congruence.
Qed.

Lemma lstrip_head (s t : str) (c : N) : lstrip s = c :: t -> isspace c = false.
Proof.
  induction s as [|x s IH]; simpl; [discriminate|].
  destruct (isspace x) eqn:E; [exact IH|].
  intros [= -> _]. exact E.
Qed.

Lemma strip_nil (s : str) : strip s = [] <-> Forall (fun c => isspace c = true) s.
Proof.
  unfold strip, rstrip. split.
  - intros Hs.
    assert (Hl : lstrip (rev (lstrip s)) = []).
    { destruct (lstrip (rev (lstrip s))) as [|y l] eqn:E; [reflexivity|].
      simpl in Hs. destruct (rev l); discriminate. }
    apply lstrip_nil in Hl.
    destruct (lstrip s) as [|c t] eqn:E.
    + apply lstrip_nil; exact E.
    + apply lstrip_head in E.
      rewrite List.Forall_forall in Hl.
      specialize (Hl c). rewrite <- List.in_rev in Hl.
      rewrite Hl in E; [discriminate | left; reflexivity].
  - intros Hs. apply lstrip_nil in Hs. rewrite Hs. reflexivity.
Qed.

Lemma strip_not_nil (s : str) (c : N) :
  In c s -> isspace c = false -> strip s <> [].
Proof.
  intros Hin Hc Hs. apply strip_nil in Hs.
  rewrite List.Forall_forall in Hs. rewrite (Hs c Hin) in Hc. discriminate.
Qed.

(** ** Matches start with their first literal character *)

Lemma match_len_first (c : N) (r : regex) (s : str) (n : nat) :
  match_len (Cat (Chr c) r) s = Some n -> exists s', s = c :: s'.
Proof.
  unfold match_len. simpl. destruct s as [|x s']; [discriminate|].
  destruct (x =? c) eqn:E; [|discriminate].
  apply N.eqb_eq in E. subst x. eauto.
Qed.

Lemma findall_from_first (c : N) (r : regex) (s : str) (skip : nat) :
  findall_from (Cat (Chr c) r) skip s <> [] -> In c s.
Proof.
  revert skip. induction s as [|x s IH]; intros skip; simpl.
  - destruct skip; simpl; intros Hne; exfalso; apply Hne; reflexivity.
  - destruct skip as [|n].
    + destruct (match_len (Cat (Chr c) r) (x :: s)) as [len|] eqn:E.
      * intros _. apply match_len_first in E. destruct E as [s' [= -> _]].
        left; reflexivity.
      * intros Hne. right. exact (IH _ Hne).
    + intros Hne. right. exact (IH _ Hne).
Qed.

(** ** The engine hands over a suffix of the text *)

Section Engine.
Context {A : Type}.

Lemma rmatch_rest (r : regex) :
  forall (s : str) (g : groups) (k : str -> groups -> option A) (a : A),
    rmatch r s g k = Some a ->
    exists s' g', (length s' <= length s)%nat /\ k s' g' = Some a.
Proof.
  induction r as [|c|p|r1 IH1 r2 IH2|r1 IH1 r2 IH2|r1 IH1|r1 IH1|i r1 IH1];
    intros s g k a; cbn [rmatch].
  - intros Hk. exists s, g. split; [lia|exact Hk].
  - destruct s as [|x s']; [discriminate|].
    destruct (x =? c); [|discriminate].
    intros Hk. exists s', g. split; [simpl; lia|exact Hk].
  - destruct s as [|x s']; [discriminate|].
    destruct (p x); [|discriminate].
    intros Hk. exists s', g. split; [simpl; lia|exact Hk].
  - intros Hm. apply IH1 in Hm. destruct Hm as (s1 & g1 & Hlen1 & Hm).
    apply IH2 in Hm. destruct Hm as (s2 & g2 & Hlen2 & Hk).
    exists s2, g2. split; [lia|exact Hk].
  - destruct (rmatch r1 s g k) as [a1|] eqn:E1.
    + intros [= <-]. exact (IH1 _ _ _ _ E1).
    + apply IH2.
  - destruct (rmatch r1 s g k) as [a1|] eqn:E1.
    + intros [= <-]. exact (IH1 _ _ _ _ E1).
    + intros Hk. exists s, g. split; [lia|exact Hk].
  - generalize (length s) at 1. intros fuel. revert s g.
    induction fuel as [|fuel IHfuel]; intros s g.
    + intros Hk. exists s, g. split; [lia|exact Hk].
    + match goal with
      | |- context [rmatch r1 s g ?k1] => destruct (rmatch r1 s g k1) as [a1|] eqn:E1
      end.
      * intros [= <-]. apply IH1 in E1. destruct E1 as (s1 & g1 & Hlen1 & E1).
        destruct (length s1 <? length s)%nat; [|discriminate].
        apply IHfuel in E1. destruct E1 as (s2 & g2 & Hlen2 & Hk).
        exists s2, g2. split; [lia|exact Hk].
      * intros Hk. exists s, g. split; [lia|exact Hk].
  - intros Hm. apply IH1 in Hm. destruct Hm as (s1 & g1 & Hlen1 & Hk).
    eexists s1, _. split; [exact Hlen1|exact Hk].
Qed.

End Engine.

(** A match of a pattern that starts with a literal character is not empty,
    so [findall_from] never meets an empty match of such a pattern. *)
Lemma match_len_positive (c : N) (r : regex) (s : str) (n : nat) :
  match_len (Cat (Chr c) r) s = Some n -> (1 <= n <= length s)%nat.
Proof.
  unfold match_len. cbn [rmatch]. destruct s as [|x s']; [discriminate|].
  destruct (x =? c); [|discriminate].
  intros Hm. apply rmatch_rest in Hm. destruct Hm as (s1 & g1 & Hlen & [= <-]).
  simpl. lia.
Qed.

Section TokenProperties.
Context `{PyUnicode}.

Lemma extract_token_set_components (text : str) :
  extract_token_set text = (placeholders_of text, interpolations_of text, units_of text).
Proof. reflexivity. Qed.

Lemma validate_translation_unfold (source target : str) :
  validate_translation source target =
  if decide (placeholders_of source ≠ placeholders_of target) then
    (false, placeholder_mismatch (placeholders_of source) (placeholders_of target))
  else if decide (interpolations_of source ≠ interpolations_of target) then
    (false, interpolation_mismatch (interpolations_of source) (interpolations_of target))
  else if decide (units_of source ≠ units_of target) then
    (false, unit_mismatch (units_of source) (units_of target))
  else if decide (strip target = []) then (false, empty_translation)
  else (true, reason_ok).
Proof. reflexivity. Qed.

(** Equal source and target: only the blank check is left. *)
Lemma validate_translation_identity (s : str) :
  validate_translation s s =
  if is_blank s then (false, empty_translation) else (true, reason_ok).
Proof.
  rewrite validate_translation_unfold. unfold is_blank.
  repeat (destruct (decide (_ ≠ _)) as [Hne|_]; [exfalso; apply Hne; reflexivity|]).
  destruct (decide (strip s = [])) as [E|E].
  - rewrite bool_decide_eq_true_2; auto.
  - rewrite bool_decide_eq_false_2; auto.
Qed.

Lemma placeholder_not_blank (s : str) : placeholders_of s <> [] -> strip s <> [].
Proof.
  intros Hne. apply (strip_not_nil s 37); [|reflexivity].
  exact (findall_from_first _ _ _ _ Hne).
Qed.

Lemma interpolation_not_blank (s : str) : interpolations_of s <> [] -> strip s <> [].
Proof.
  intros Hne. apply (strip_not_nil s 92); [|reflexivity].
  exact (findall_from_first _ _ _ _ Hne).
Qed.

(** C4: the checks of [validate_translation] run in a fixed order
    (placeholder tuples, interpolation tuples, unit tuples, blank target) and
    the reason reported is that of the first check that fails, whatever the
    later checks would say. *)
Theorem C4_validation_priority (source target : str) :
  (placeholders_of source ≠ placeholders_of target ->
     validate_translation source target =
     (false, placeholder_mismatch (placeholders_of source) (placeholders_of target)))
  /\ (placeholders_of source = placeholders_of target ->
      interpolations_of source ≠ interpolations_of target ->
      validate_translation source target =
      (false, interpolation_mismatch (interpolations_of source) (interpolations_of target)))
  /\ (placeholders_of source = placeholders_of target ->
      interpolations_of source = interpolations_of target ->
      units_of source ≠ units_of target ->
      validate_translation source target =
      (false, unit_mismatch (units_of source) (units_of target)))
  /\ (placeholders_of source = placeholders_of target ->
      interpolations_of source = interpolations_of target ->
      units_of source = units_of target ->
      strip target = [] ->
      validate_translation source target = (false, empty_translation))
  /\ (placeholders_of source = placeholders_of target ->
      interpolations_of source = interpolations_of target ->
      units_of source = units_of target ->
      strip target ≠ [] ->
      validate_translation source target = (true, reason_ok)).
Proof.
  rewrite validate_translation_unfold.
  repeat split; intros;
    repeat (match goal with
            | |- context [decide ?P] => destruct (decide P); try contradiction
            end); try reflexivity.
Qed.

(** C6: a text with a format placeholder or an interpolation span is a valid
    translation of itself. *)
Theorem C6_identity_with_tokens_ok (s : str) :
  placeholders_of s ≠ [] \/ interpolations_of s ≠ [] ->
  validate_translation s s = (true, reason_ok).
Proof.
  intros Htok. rewrite validate_translation_identity. unfold is_blank.
  rewrite bool_decide_eq_false_2; [reflexivity|].
  destruct Htok as [Hp|Hi].
  - exact (placeholder_not_blank s Hp).
  - exact (interpolation_not_blank s Hi).
Qed.

(** C7: when the candidate keeps the placeholders of the source and carries
    the same interpolation spans in another order, validation reports an
    interpolation mismatch. *)
Theorem C7_reordered_interpolations_mismatch (source candidate : str) :
  placeholders_of source = placeholders_of candidate ->
  Permutation (interpolations_of source) (interpolations_of candidate) ->
  interpolations_of source ≠ interpolations_of candidate ->
  validate_translation source candidate =
  (false, interpolation_mismatch (interpolations_of source) (interpolations_of candidate)).
Proof.
  intros Hp Hperm Hi. rewrite validate_translation_unfold.
  destruct (decide (placeholders_of source ≠ placeholders_of candidate)) as [Hne|_];
    [contradiction|].
  destruct (decide (interpolations_of source ≠ interpolations_of candidate)) as [_|He];
    [reflexivity|contradiction].
Qed.

(** C9: a text that is empty or made of whitespace only is not a valid
    translation of itself: the reason is [empty translation]. *)
Theorem C9_blank_identity_rejected (s : str) :
  Forall (fun c => isspace c = true) s ->
  validate_translation s s = (false, empty_translation).
Proof.
  intros Hs. rewrite validate_translation_identity. unfold is_blank.
  rewrite bool_decide_eq_true_2; [reflexivity|].
  apply strip_nil. exact Hs.
Qed.

End TokenProperties.

(** ** One attempt *)

Section AttemptProperties.
Context `{PyUnicode}.

Lemma check_source_eq (translated : gmap str str) (st : OrchState)
    (next_pending : list str) (issues : list (str * Reason)) (source : str) :
  check_source translated (st, next_pending, issues) source =
  if accepted translated source then
    ({| final_targets := <[source := target_for translated source]> (final_targets st);
        validations := <[source := validation_ok]> (validations st);
        calls := calls st |}, next_pending, issues)
  else (st, next_pending ++ [source], issues ++ [issue_for translated source]).
Proof.
  unfold check_source, accepted, issue_for, target_for.
  destruct (validate_translation source (default source (translated !! source)))
    as [[] reason]; reflexivity.
Qed.

Lemma fold_check_source (translated : gmap str str) (pending : list str) :
  forall st next_pending issues,
  exists st',
    fold_left (check_source translated) pending (st, next_pending, issues) =
    (st',
     next_pending ++ List.filter (fun s => negb (accepted translated s)) pending,
     issues ++ List.map (issue_for translated)
                 (List.filter (fun s => negb (accepted translated s)) pending))
    /\ calls st' = calls st
    /\ (forall s,
          final_targets st' !! s =
          if bool_decide (s ∈ pending) && accepted translated s
          then Some (target_for translated s) else final_targets st !! s)
    /\ (forall s,
          validations st' !! s =
          if bool_decide (s ∈ pending) && accepted translated s
          then Some validation_ok else validations st !! s).
Proof.
  induction pending as [|x pending IH]; intros st next_pending issues;
    cbn [fold_left List.filter List.map].
  - exists st. rewrite !app_nil_r. repeat split; reflexivity.
  - rewrite check_source_eq. destruct (accepted translated x) eqn:Hx; cbn [negb List.map].
    + destruct (IH {| final_targets := <[x := target_for translated x]> (final_targets st);
                      validations := <[x := validation_ok]> (validations st);
                      calls := calls st |} next_pending issues)
        as (st' & Hfold & Hcalls & Hft & Hval).
      exists st'. split; [exact Hfold|]. split; [exact Hcalls|].
      cbn [final_targets validations] in Hft, Hval.
      split; intros s.
      * rewrite Hft. destruct (decide (s = x)) as [->|Hne].
        -- rewrite Hx, lookup_insert_eq.
           rewrite (bool_decide_eq_true_2 (x ∈ x :: pending)) by (left).
           destruct (bool_decide (x ∈ pending)); reflexivity.
        -- rewrite lookup_insert_ne by congruence.
           destruct (decide (s ∈ pending)) as [Hin|Hnin].
           ++ rewrite !bool_decide_eq_true_2; [reflexivity| right; exact Hin | exact Hin].
           ++ rewrite !bool_decide_eq_false_2; [reflexivity| |exact Hnin].
              intros Hin. apply elem_of_cons in Hin. destruct Hin; contradiction.
      * rewrite Hval. destruct (decide (s = x)) as [->|Hne].
        -- rewrite Hx, lookup_insert_eq.
           rewrite (bool_decide_eq_true_2 (x ∈ x :: pending)) by (left).
           destruct (bool_decide (x ∈ pending)); reflexivity.
        -- rewrite lookup_insert_ne by congruence.
           destruct (decide (s ∈ pending)) as [Hin|Hnin].
           ++ rewrite !bool_decide_eq_true_2; [reflexivity| right; exact Hin | exact Hin].
           ++ rewrite !bool_decide_eq_false_2; [reflexivity| |exact Hnin].
              intros Hin. apply elem_of_cons in Hin. destruct Hin; contradiction.
    + destruct (IH st (next_pending ++ [x]) (issues ++ [issue_for translated x]))
        as (st' & Hfold & Hcalls & Hft & Hval).
      exists st'. rewrite Hfold, <- !app_assoc.
      split; [reflexivity|]. split; [exact Hcalls|].
      split; intros s.
      * rewrite Hft. destruct (decide (s = x)) as [->|Hne].
        -- rewrite Hx, !andb_false_r. reflexivity.
        -- destruct (decide (s ∈ pending)) as [Hin|Hnin].
           ++ rewrite !bool_decide_eq_true_2; [reflexivity| right; exact Hin | exact Hin].
           ++ rewrite !bool_decide_eq_false_2; [reflexivity| |exact Hnin].
              intros Hin. apply elem_of_cons in Hin. destruct Hin; contradiction.
      * rewrite Hval. destruct (decide (s = x)) as [->|Hne].
        -- rewrite Hx, !andb_false_r. reflexivity.
        -- destruct (decide (s ∈ pending)) as [Hin|Hnin].
           ++ rewrite !bool_decide_eq_true_2; [reflexivity| right; exact Hin | exact Hin].
           ++ rewrite !bool_decide_eq_false_2; [reflexivity| |exact Hnin].
              intros Hin. apply elem_of_cons in Hin. destruct Hin; contradiction.
Qed.

(** What one pass over the pending sources does. *)
Lemma check_pending_spec (translated : gmap str str) (pending : list str) (st : OrchState) :
  exists st',
    check_pending translated pending st =
    (st',
     List.filter (fun s => negb (accepted translated s)) pending,
     List.map (issue_for translated)
       (List.filter (fun s => negb (accepted translated s)) pending))
    /\ calls st' = calls st
    /\ (forall s,
          final_targets st' !! s =
          if bool_decide (s ∈ pending) && accepted translated s
          then Some (target_for translated s) else final_targets st !! s)
    /\ (forall s,
          validations st' !! s =
          if bool_decide (s ∈ pending) && accepted translated s
          then Some validation_ok else validations st !! s).
Proof. exact (fold_check_source translated pending st [] []). Qed.

End AttemptProperties.

(** ** A service that only echoes *)

Section IdentityService.
Context `{PyUnicode}.
Variable MAX_RETRIES : nat.
Variable service : Service.
Hypothesis service_echoes : identity_service service.

Lemma accepted_same (translated : gmap str str) (s : str) :
  target_for translated s = s -> accepted translated s = negb (is_blank s).
Proof.
  intros Ht. unfold accepted. rewrite Ht, validate_translation_identity.
  destruct (is_blank s); reflexivity.
Qed.

Lemma issue_for_same (translated : gmap str str) (s : str) :
  target_for translated s = s -> is_blank s = true ->
  issue_for translated s = (s, empty_translation).
Proof.
  intros Ht Hb. unfold issue_for. rewrite Ht, validate_translation_identity, Hb.
  reflexivity.
Qed.

Lemma rejected_echo (translated : gmap str str) (pending : list str) :
  (forall s, s ∈ pending -> translated !! s = Some s) ->
  List.filter (fun s => negb (accepted translated s)) pending = List.filter is_blank pending.
Proof.
  intros Hid. apply List.filter_ext_in. intros s Hin.
  rewrite accepted_same, negb_involutive; [reflexivity|].
  unfold target_for. rewrite (Hid s); [reflexivity|].
  apply list_elem_of_In; exact Hin.
Qed.

Lemma filter_all {A : Type} (f : A -> bool) (l : list A) :
  Forall (fun x => f x = true) l -> List.filter f l = l.
Proof.
  induction 1 as [|x l Hx _ IH]; simpl; [reflexivity|].
  rewrite Hx, IH. reflexivity.
Qed.

Lemma fall_back_spec (next_pending : list str) :
  forall st,
    calls (fall_back next_pending st) = calls st
    /\ (forall s, final_targets (fall_back next_pending st) !! s =
                  if bool_decide (s ∈ next_pending) then Some s
                  else final_targets st !! s)
    /\ (forall s, validations (fall_back next_pending st) !! s =
                  if bool_decide (s ∈ next_pending) then Some fallback_due_to_validation
                  else validations st !! s).
Proof.
  unfold fall_back.
  induction next_pending as [|x l IH]; intros st; cbn [fold_left].
  - repeat split; reflexivity.
  - match goal with |- context [fold_left ?f l ?st0] => destruct (IH st0) as (Hc & Hft & Hval) end.
    cbn [calls final_targets validations] in Hc, Hft, Hval.
    split; [exact Hc|]. split; intros s.
    + rewrite Hft. destruct (decide (s ∈ l)) as [Hin|Hnin].
      * rewrite !bool_decide_eq_true_2; [reflexivity| right; exact Hin | exact Hin].
      * rewrite (bool_decide_eq_false_2 (s ∈ l)) by exact Hnin.
        destruct (decide (s = x)) as [->|Hne].
        -- rewrite lookup_insert_eq, bool_decide_eq_true_2; [reflexivity|left].
        -- rewrite lookup_insert_ne by congruence.
           rewrite bool_decide_eq_false_2; [reflexivity|].
           intros Hin. apply elem_of_cons in Hin. destruct Hin; contradiction.
    + rewrite Hval. destruct (decide (s ∈ l)) as [Hin|Hnin].
      * rewrite !bool_decide_eq_true_2; [reflexivity| right; exact Hin | exact Hin].
      * rewrite (bool_decide_eq_false_2 (s ∈ l)) by exact Hnin.
        destruct (decide (s = x)) as [->|Hne].
        -- rewrite lookup_insert_eq, bool_decide_eq_true_2; [reflexivity|left].
        -- rewrite lookup_insert_ne by congruence.
           rewrite bool_decide_eq_false_2; [reflexivity|].
           intros Hin. apply elem_of_cons in Hin. destruct Hin; contradiction.
Qed.

(** One attempt under an echoing service: the blank sources stay pending. *)
Lemma echo_attempt (pending : list str) (feedback : option (list (str * Reason)))
    (st : OrchState) :
  exists translated st2,
    service (length (calls st))
      {| sources := pending; validation_feedback := feedback |} = Some translated
    /\ check_pending translated pending
         {| final_targets := final_targets st; validations := validations st;
            calls := calls st ++ [{| sources := pending; validation_feedback := feedback |}] |}
       = (st2, List.filter is_blank pending,
          List.map (issue_for translated) (List.filter is_blank pending))
    /\ length (calls st2) = S (length (calls st))
    /\ (forall s, final_targets st2 !! s =
                  if bool_decide (s ∈ pending) && negb (is_blank s) then Some s
                  else final_targets st !! s)
    /\ (forall s, validations st2 !! s =
                  if bool_decide (s ∈ pending) && negb (is_blank s) then Some validation_ok
                  else validations st !! s).
Proof.
  destruct (service_echoes (length (calls st))
              {| sources := pending; validation_feedback := feedback |})
    as (translated & Hcall & Hid).
  cbn [sources] in Hid.
  match goal with
  | |- context [check_pending _ pending ?st1] =>
      destruct (check_pending_spec translated pending st1) as (st2 & Hchk & Hc & Hft & Hval)
  end.
  cbn [calls final_targets validations] in Hc, Hft, Hval.
  exists translated, st2. rewrite (rejected_echo translated pending Hid) in Hchk.
  split; [exact Hcall|]. split; [exact Hchk|].
  split; [rewrite Hc, length_app; simpl; lia|].
  split; intros s.
  - rewrite Hft. destruct (bool_decide (s ∈ pending)) eqn:Hin; [|reflexivity].
    apply bool_decide_eq_true_1 in Hin. cbn [andb].
    assert (Ht : target_for translated s = s)
      by (unfold target_for; rewrite (Hid s Hin); reflexivity).
    rewrite (accepted_same translated s Ht), Ht. reflexivity.
  - rewrite Hval. destruct (bool_decide (s ∈ pending)) eqn:Hin; [|reflexivity].
    apply bool_decide_eq_true_1 in Hin. cbn [andb].
    assert (Ht : target_for translated s = s)
      by (unfold target_for; rewrite (Hid s Hin); reflexivity).
    rewrite (accepted_same translated s Ht). reflexivity.
Qed.

Lemma blank_lookup (pending : list str) (s : str) :
  Forall (fun x => is_blank x = true) pending ->
  bool_decide (s ∈ pending) && negb (is_blank s) = false.
Proof.
  intros Hall. destruct (bool_decide (s ∈ pending)) eqn:Hin; [|reflexivity].
  apply bool_decide_eq_true_1 in Hin.
  rewrite Forall_forall in Hall. rewrite (Hall s Hin). reflexivity.
Qed.

(** Blank sources are requested again until the attempts run out. *)
Lemma attempt_loop_blank (k : nat) :
  forall a pending feedback st,
    (a + k = MAX_RETRIES)%nat -> pending ≠ [] ->
    Forall (fun x => is_blank x = true) pending ->
    exists st',
      attempt_loop MAX_RETRIES service (seq a (S k)) pending feedback st = Ok st'
      /\ length (calls st') = (length (calls st) + S k)%nat
      /\ (forall s, final_targets st' !! s =
                    if bool_decide (s ∈ pending) then Some s else final_targets st !! s)
      /\ (forall s, validations st' !! s =
                    if bool_decide (s ∈ pending) then Some fallback_due_to_validation
                    else validations st !! s).
Proof.
  induction k as [|k IH]; intros a pending feedback st Hak Hne Hblank.
  - destruct pending as [|p ps]; [contradiction|].
    destruct (echo_attempt (p :: ps) feedback st) as (tr & st2 & Hcall & Hchk & Hc & Hft & Hval).
    rewrite (filter_all is_blank (p :: ps) Hblank) in Hchk.
    cbn [seq attempt_loop]. rewrite Hcall, Hchk.
    replace (a <? MAX_RETRIES)%nat with false
      by (symmetry; apply Nat.ltb_ge; lia).
    rewrite andb_false_r.
    destruct (fall_back_spec (p :: ps) st2) as (Hc' & Hft' & Hval').
    eexists. split; [reflexivity|]. split; [rewrite Hc', Hc; lia|].
    split; intros s.
    + rewrite Hft', Hft, (blank_lookup _ s Hblank). reflexivity.
    + rewrite Hval', Hval, (blank_lookup _ s Hblank). reflexivity.
  - destruct pending as [|p ps]; [contradiction|].
    destruct (echo_attempt (p :: ps) feedback st) as (tr & st2 & Hcall & Hchk & Hc & Hft & Hval).
    rewrite (filter_all is_blank (p :: ps) Hblank) in Hchk.
    cbn [seq attempt_loop]. rewrite Hcall, Hchk.
    replace (a <? MAX_RETRIES)%nat with true
      by (symmetry; apply Nat.ltb_lt; lia).
    rewrite bool_decide_eq_false_2 by discriminate. cbn [negb andb].
    destruct (IH (S a) (p :: ps) (Some (List.map (issue_for tr) (p :: ps))) st2)
      as (st' & Hloop & Hc' & Hft' & Hval'); [lia|discriminate|exact Hblank|].
    exists st'. split; [exact Hloop|]. split; [rewrite Hc', Hc; lia|].
    split; intros s.
    + rewrite Hft', Hft, (blank_lookup _ s Hblank). reflexivity.
    + rewrite Hval', Hval, (blank_lookup _ s Hblank). reflexivity.
Qed.

Lemma filter_nil_existsb {A : Type} (f : A -> bool) (l : list A) :
  List.filter f l = [] -> existsb f l = false.
Proof.
  induction l as [|x l IH]; simpl; [reflexivity|].
  destruct (f x); [discriminate|]. exact IH.
Qed.

Lemma filter_cons_existsb {A : Type} (f : A -> bool) (l : list A) (x : A) (t : list A) :
  List.filter f l = x :: t -> existsb f l = true.
Proof.
  induction l as [|y l IH]; simpl; [discriminate|].
  destruct (f y); [reflexivity|]. exact IH.
Qed.

Lemma elem_of_filter_blank (l : list str) (s : str) :
  bool_decide (s ∈ List.filter is_blank l) = bool_decide (s ∈ l) && is_blank s.
Proof.
  apply eq_true_iff_eq. rewrite andb_true_iff, !bool_decide_eq_true.
  rewrite !list_elem_of_In, List.filter_In. reflexivity.
Qed.

Lemma echo_lookup_targets (batch : list str) (s : str) (old : option str) :
  (if bool_decide (s ∈ List.filter is_blank batch) then Some s
   else if bool_decide (s ∈ batch) && negb (is_blank s) then Some s else old)
  = if bool_decide (s ∈ batch) then Some s else old.
Proof.
  rewrite elem_of_filter_blank.
  destruct (bool_decide (s ∈ batch)), (is_blank s); reflexivity.
Qed.

Lemma echo_lookup_validations (batch : list str) (s : str) (old : option Validation) :
  (if bool_decide (s ∈ List.filter is_blank batch) then Some fallback_due_to_validation
   else if bool_decide (s ∈ batch) && negb (is_blank s) then Some validation_ok else old)
  = if bool_decide (s ∈ batch) then Some (echo_validation s) else old.
Proof.
  rewrite elem_of_filter_blank. unfold echo_validation.
  destruct (bool_decide (s ∈ batch)), (is_blank s); reflexivity.
Qed.

(** One batch under an echoing service. *)
Lemma translate_batch_echo (batch : list str) (st : OrchState) :
  exists st',
    translate_batch MAX_RETRIES service batch st = Ok st'
    /\ length (calls st') = (length (calls st) + batch_calls MAX_RETRIES batch)%nat
    /\ (forall s, final_targets st' !! s =
                  if bool_decide (s ∈ batch) then Some s else final_targets st !! s)
    /\ (forall s, validations st' !! s =
                  if bool_decide (s ∈ batch) then Some (echo_validation s)
                  else validations st !! s).
Proof.
  unfold translate_batch. rewrite Nat.add_1_r. cbn [seq].
  destruct batch as [|b bs].
  - exists st. cbn [attempt_loop batch_calls].
    split; [reflexivity|]. split; [lia|]. split; intros s; reflexivity.
  - destruct (echo_attempt (b :: bs) None st) as (tr & st2 & Hcall & Hchk & Hc & Hft & Hval).
    cbn [attempt_loop]. rewrite Hcall, Hchk. unfold batch_calls.
    destruct (List.filter is_blank (b :: bs)) as [|x t] eqn:Hblank.
    + rewrite (filter_nil_existsb _ _ Hblank).
      rewrite bool_decide_eq_true_2 by reflexivity. cbn [negb andb fall_back fold_left].
      exists st2. split; [reflexivity|]. split; [lia|].
      split; intros s.
      * rewrite Hft.
        pose proof (echo_lookup_targets (b :: bs) s (final_targets st !! s)) as E.
        rewrite Hblank in E.
        rewrite (bool_decide_eq_false_2 (s ∈ [])) in E by (apply not_elem_of_nil).
        exact E.
      * rewrite Hval.
        pose proof (echo_lookup_validations (b :: bs) s (validations st !! s)) as E.
        rewrite Hblank in E.
        rewrite (bool_decide_eq_false_2 (s ∈ [])) in E by (apply not_elem_of_nil).
        exact E.
    + rewrite (filter_cons_existsb _ _ _ _ Hblank).
      rewrite bool_decide_eq_false_2 by discriminate. cbn [negb andb].
      assert (Hall : Forall (fun y => is_blank y = true) (x :: t)).
      { rewrite <- Hblank. apply List.Forall_forall. intros y Hy.
        apply List.filter_In in Hy. tauto. }
      destruct MAX_RETRIES as [|k] eqn:HR.
      * cbn [Nat.ltb Nat.leb].
        destruct (fall_back_spec (x :: t) st2) as (Hc' & Hft' & Hval').
        eexists. split; [reflexivity|]. split; [rewrite Hc', Hc; lia|].
        split; intros s.
        -- rewrite Hft', Hft, <- Hblank. apply echo_lookup_targets.
        -- rewrite Hval', Hval, <- Hblank. apply echo_lookup_validations.
      * replace (0 <? S k)%nat with true by reflexivity.
        rewrite <- HR.
        destruct (attempt_loop_blank k 1 (x :: t)
                    (Some (List.map (issue_for tr) (x :: t))) st2)
          as (st' & Hloop & Hc' & Hft' & Hval'); [lia|discriminate|exact Hall|].
        exists st'. split; [rewrite HR at 2; exact Hloop|].
        split; [rewrite Hc', Hc; lia|].
        split; intros s.
        -- rewrite Hft', Hft, <- Hblank. apply echo_lookup_targets.
        -- rewrite Hval', Hval, <- Hblank. apply echo_lookup_validations.
Qed.

(** All batches under an echoing service. *)
Lemma translate_batches_echo (batches : list (list str)) :
  forall st,
  exists st',
    translate_batches MAX_RETRIES service batches st = Ok st'
    /\ length (calls st') =
       (length (calls st) + sum_list (List.map (batch_calls MAX_RETRIES) batches))%nat
    /\ (forall s, final_targets st' !! s =
                  if bool_decide (s ∈ concat batches) then Some s
                  else final_targets st !! s)
    /\ (forall s, validations st' !! s =
                  if bool_decide (s ∈ concat batches) then Some (echo_validation s)
                  else validations st !! s).
Proof.
  induction batches as [|batch rest IH]; intros st.
  - exists st. cbn. split; [reflexivity|]. split; [lia|]. split; intros s; reflexivity.
  - destruct (translate_batch_echo batch st) as (st1 & Hb & Hc & Hft & Hval).
    destruct (IH st1) as (st' & Hrest & Hc' & Hft' & Hval').
    exists st'. cbn [translate_batches]. rewrite Hb.
    split; [exact Hrest|].
    split; [rewrite Hc', Hc; simpl; lia|].
    split; intros s.
    + rewrite Hft', Hft. cbn [concat].
      destruct (decide (s ∈ concat rest)) as [Hin|Hnin].
      * rewrite !bool_decide_eq_true_2; [reflexivity| |exact Hin].
        apply elem_of_app; right; exact Hin.
      * rewrite (bool_decide_eq_false_2 _ Hnin).
        destruct (decide (s ∈ batch)) as [Hin|Hnin'].
        -- rewrite !bool_decide_eq_true_2; [reflexivity| |exact Hin].
           apply elem_of_app; left; exact Hin.
        -- rewrite !bool_decide_eq_false_2; [reflexivity| |exact Hnin'].
           intros Hin. apply elem_of_app in Hin. destruct Hin; contradiction.
    + rewrite Hval', Hval. cbn [concat].
      destruct (decide (s ∈ concat rest)) as [Hin|Hnin].
      * rewrite !bool_decide_eq_true_2; [reflexivity| |exact Hin].
        apply elem_of_app; right; exact Hin.
      * rewrite (bool_decide_eq_false_2 _ Hnin).
        destruct (decide (s ∈ batch)) as [Hin|Hnin'].
        -- rewrite !bool_decide_eq_true_2; [reflexivity| |exact Hin].
           apply elem_of_app; left; exact Hin.
        -- rewrite !bool_decide_eq_false_2; [reflexivity| |exact Hnin'].
           intros Hin. apply elem_of_app in Hin. destruct Hin; contradiction.
Qed.

End IdentityService.

(** ** Batches *)

Lemma concat_chunked_from {A : Type} (size : nat) :
  (0 < size)%nat ->
  forall (n : nat) (values : list A),
    (length values <= n)%nat -> concat (chunked_from n values size) = values.
Proof.
  intros Hsize. induction n as [|n IH]; intros values Hlen.
  - destruct values; [reflexivity | simpl in Hlen; lia].
  - destruct values as [|x values]; [reflexivity|].
    cbn [chunked_from concat]. rewrite IH.
    + apply take_drop.
    + rewrite length_drop. simpl in *. lia.
Qed.

Lemma concat_chunked {A : Type} (values : list A) (size : nat) :
  (0 < size)%nat -> concat (chunked values size) = values.
Proof. intros Hsize. apply concat_chunked_from; [exact Hsize | lia]. Qed.

Lemma echo_service_echoes : identity_service echo_service.
Proof.
  intros n request. unfold echo_service. eexists. split; [reflexivity|].
  induction (sources request) as [|x l IH]; intros s Hin.
  - apply elem_of_nil in Hin. contradiction.
  - cbn [List.map list_to_map foldr]. destruct (decide (x = s)) as [->|Hne].
    + apply lookup_insert_eq.
    + rewrite lookup_insert_ne by exact Hne. apply IH.
      apply elem_of_cons in Hin. destruct Hin as [->|Hin]; [contradiction|exact Hin].
Qed.

Section EchoRows.
Context `{PyUnicode}.

Lemma translate_candidates_echo (batch_size max_retries : nat) (service : Service)
    (candidates : list Candidate) :
  (0 < batch_size)%nat ->
  identity_service service ->
  exists issued,
    translate_candidates_with batch_size max_retries service candidates =
      Ok (List.map echo_row candidates, issued)
    /\ length issued =
       sum_list (List.map (batch_calls max_retries)
                   (chunked (List.map source candidates) batch_size)).
Proof.
  intros Hsize Hecho. unfold translate_candidates_with.
  destruct (translate_batches_echo max_retries service Hecho
              (chunked (List.map source candidates) batch_size) initial_state)
    as (st & Hrun & Hc & Hft & Hval).
  rewrite Hrun. exists (calls st). split; [|exact Hc].
  f_equal. f_equal. apply List.map_ext_in. intros c Hin.
  unfold make_row, echo_row.
  assert (Hsrc : source c ∈ concat (chunked (List.map source candidates) batch_size)).
  { rewrite concat_chunked by exact Hsize.
    apply list_elem_of_In, List.in_map, Hin. }
  rewrite Hft, Hval, !bool_decide_eq_true_2 by exact Hsrc.
  cbn [default from_option id].
  destruct (decide (source c ≠ source c)) as [Hne|_]; [contradiction|reflexivity].
Qed.

(** C1, as the code has it: when every answer of the service maps each
    pending source to itself, every candidate ends with its source as
    target and status [fallback]; its validation is
    [fallback_due_to_validation] when the source is blank and [ok]
    otherwise; a batch costs [MAX_RETRIES + 1] requests when it holds a
    blank source and one request otherwise. *)
Theorem C1_echo_service_outcome (service : Service) (candidates : list Candidate) :
  identity_service service ->
  (forall batch st,
     exists st',
       translate_batch I18nWorkflow.MAX_RETRIES service batch st = Ok st'
       /\ length (calls st') =
          (length (calls st) +
           match batch with
           | [] => 0
           | _ :: _ =>
               if existsb is_blank batch then I18nWorkflow.MAX_RETRIES + 1 else 1
           end)%nat
       /\ forall s, s ∈ batch ->
             final_targets st' !! s = Some s
             /\ validations st' !! s =
                Some (if is_blank s then fallback_due_to_validation else validation_ok))
  /\ exists issued,
       I18nWorkflow.translate_candidates service candidates =
         Ok (List.map echo_row candidates, issued)
       /\ length issued =
          sum_list (List.map (batch_calls I18nWorkflow.MAX_RETRIES)
                      (chunked (List.map source candidates) I18nWorkflow.BATCH_SIZE)).
Proof.
  intros Hecho. split.
  - intros batch st.
    destruct (translate_batch_echo I18nWorkflow.MAX_RETRIES service Hecho batch st)
      as (st' & Hrun & Hc & Hft & Hval).
    exists st'. split; [exact Hrun|]. split; [exact Hc|].
    intros s Hin. rewrite Hft, Hval, !bool_decide_eq_true_2 by exact Hin.
    split; reflexivity.
  - apply translate_candidates_echo; [|exact Hecho].
    unfold I18nWorkflow.BATCH_SIZE. lia.
Qed.

(** C2, as the code has it: in one attempt a pending source the answer has no
    value for is paired with itself; it is then accepted (target = source,
    validation [ok]) unless it is blank, in which case it fails with the
    reason [empty translation] and stays pending. *)
Theorem C2_missing_value_defaults_to_source (translated : gmap str str)
    (pending : list str) (st : OrchState) (source : str) :
  source ∈ pending ->
  translated !! source = None ->
  target_for translated source = source
  /\ let '(st', next_pending, issues) := check_pending translated pending st in
     if is_blank source then
       source ∈ next_pending /\ (source, empty_translation) ∈ issues
       /\ final_targets st' !! source = final_targets st !! source
     else
       final_targets st' !! source = Some source
       /\ validations st' !! source = Some validation_ok
       /\ source ∉ next_pending.
Proof.
  intros Hin Hnone.
  assert (Ht : target_for translated source = source)
    by (unfold target_for; rewrite Hnone; reflexivity).
  split; [exact Ht|].
  destruct (check_pending_spec translated pending st) as (st' & Hchk & _ & Hft & Hval).
  rewrite Hchk.
  pose proof (accepted_same translated source Ht) as Hacc.
  destruct (is_blank source) eqn:Hb; cbn [negb] in Hacc.
  - assert (Hrej : source ∈ List.filter (fun s => negb (accepted translated s)) pending).
    { apply list_elem_of_In, List.filter_In. split.
      - apply list_elem_of_In; exact Hin.
      - rewrite Hacc; reflexivity. }
    split; [exact Hrej|]. split.
    + rewrite <- (issue_for_same translated source Ht Hb).
      apply list_elem_of_In, List.in_map, list_elem_of_In, Hrej.
    + rewrite Hft, Hacc, andb_false_r. reflexivity.
  - rewrite Hft, Hval, Hacc, bool_decide_eq_true_2 by exact Hin.
    cbn [andb]. rewrite Ht. split; [reflexivity|]. split; [reflexivity|].
    intros Hrej. apply list_elem_of_In, List.filter_In in Hrej.
    destruct Hrej as [_ Hrej]. rewrite Hacc in Hrej. discriminate.
Qed.

End EchoRows.

Lemma C1_echo_service_outcome_witness :
  identity_service echo_service
  /\ exists issued,
       I18nWorkflow.translate_candidates (H := Latin1) echo_service hello_candidates =
         Ok (List.map echo_row hello_candidates, issued)
       /\ length issued =
          sum_list (List.map (batch_calls I18nWorkflow.MAX_RETRIES)
                      (chunked (List.map source hello_candidates) I18nWorkflow.BATCH_SIZE)).
Proof.
  split; [exact echo_service_echoes|].
  exact (proj2 (@C1_echo_service_outcome Latin1 echo_service hello_candidates
                  echo_service_echoes)).
Defined.

(** C1 as stated fails: the echoing service is asked once about [Hello], and
    the row is validated [ok]. *)
Lemma C1_counterexample :
  identity_service echo_service
  /\ I18nWorkflow.translate_candidates (H := Latin1) echo_service
       [ {| source := u "Hello"; contexts := [] |} ]
     = Ok ([ {| row_source := u "Hello"; row_target := u "Hello";
                row_status := status_fallback; row_validation := validation_ok;
                row_contexts := [] |} ],
           [ {| sources := [u "Hello"]; validation_feedback := None |} ]).
Proof. split; [exact echo_service_echoes | vm_compute; reflexivity]. Qed.

Lemma C2_missing_value_defaults_to_source_witness :
  u "Buscar %d ciudades" ∈ [u "Buscar %d ciudades"]
  /\ (∅ : gmap str str) !! u "Buscar %d ciudades" = None
  /\ target_for ∅ (u "Buscar %d ciudades") = u "Buscar %d ciudades"
  /\ let '(st', next_pending, issues) :=
       check_pending (H := Latin1) ∅ [u "Buscar %d ciudades"] initial_state in
     if is_blank (u "Buscar %d ciudades") then
       u "Buscar %d ciudades" ∈ next_pending
       /\ (u "Buscar %d ciudades", empty_translation) ∈ issues
       /\ final_targets st' !! u "Buscar %d ciudades"
          = final_targets initial_state !! u "Buscar %d ciudades"
     else
       final_targets st' !! u "Buscar %d ciudades" = Some (u "Buscar %d ciudades")
       /\ validations st' !! u "Buscar %d ciudades" = Some validation_ok
       /\ u "Buscar %d ciudades" ∉ next_pending.
Proof.
  assert (Hin : u "Buscar %d ciudades" ∈ [u "Buscar %d ciudades"]) by (left).
  assert (Hnone : (∅ : gmap str str) !! u "Buscar %d ciudades" = None) by reflexivity.
  split; [exact Hin|]. split; [exact Hnone|].
  exact (@C2_missing_value_defaults_to_source Latin1 ∅ [u "Buscar %d ciudades"]
           initial_state (u "Buscar %d ciudades") Hin Hnone).
Defined.

(** C2 as stated fails: the service returns nothing for a text with a
    placeholder; the text is paired with itself, passes validation and is
    final after this attempt. *)
Lemma C2_counterexample :
  validate_translation (H := Latin1) (u "Buscar %d ciudades") (u "Buscar %d ciudades")
    = (true, reason_ok)
  /\ check_pending (H := Latin1) ∅ [u "Buscar %d ciudades"] initial_state
     = ({| final_targets := {[ u "Buscar %d ciudades" := u "Buscar %d ciudades" ]};
           validations := {[ u "Buscar %d ciudades" := validation_ok ]};
           calls := [] |}, [], []).
Proof. split; vm_compute; reflexivity. Qed.

(** ** Order on texts *)

Lemma str_leb_refl (a : str) : str_leb a a = true.
Proof.
  induction a as [|x a IH]; simpl; [reflexivity|].
  rewrite N.ltb_irrefl. exact IH.
Qed.

Lemma str_leb_total (a b : str) : str_leb a b = true \/ str_leb b a = true.
Proof.
  revert b. induction a as [|x a IH]; intros [|y b]; simpl; auto.
  destruct (x <? y) eqn:Hxy; [left; reflexivity|].
  destruct (y <? x) eqn:Hyx; [right; reflexivity|].
  apply IH.
Qed.

Lemma str_leb_trans (a b c : str) :
  str_leb a b = true -> str_leb b c = true -> str_leb a c = true.
Proof.
  revert b c. induction a as [|x a IH]; intros [|y b] [|z c]; simpl; auto; try discriminate.
  destruct (x <? y) eqn:Hxy, (y <? x) eqn:Hyx, (y <? z) eqn:Hyz, (z <? y) eqn:Hzy,
           (x <? z) eqn:Hxz, (z <? x) eqn:Hzx;
    try discriminate; try reflexivity;
    rewrite ?N.ltb_lt, ?N.ltb_ge in *; try lia.
  apply IH.
Qed.

Lemma str_leb_antisym (a b : str) :
  str_leb a b = true -> str_leb b a = true -> a = b.
Proof.
  revert b. induction a as [|x a IH]; intros [|y b]; simpl; auto; try discriminate.
  destruct (x <? y) eqn:Hxy, (y <? x) eqn:Hyx; try discriminate;
    rewrite ?N.ltb_lt, ?N.ltb_ge in *; try lia.
  intros H1 H2. f_equal; [lia | apply IH; assumption].
Qed.

(** ** The stable sort *)

Section Sorting.
Context {A : Type} (leb : A -> A -> bool).

Lemma insert_sorted_Permutation (x : A) (l : list A) :
  Permutation (insert_sorted leb x l) (x :: l).
Proof.
  induction l as [|y l IH]; simpl; [reflexivity|].
  destruct (leb x y); [reflexivity|].
  rewrite IH. apply perm_swap.
Qed.

Lemma sorted_Permutation (l : list A) : Permutation (sorted leb l) l.
Proof.
  induction l as [|x l IH]; simpl; [reflexivity|].
  rewrite insert_sorted_Permutation, IH. reflexivity.
Qed.

Hypothesis leb_total : forall a b, leb a b = true \/ leb b a = true.
Hypothesis leb_trans : forall a b c, leb a b = true -> leb b c = true -> leb a c = true.

Lemma insert_sorted_StronglySorted (x : A) (l : list A) :
  StronglySorted (fun a b => leb a b = true) l ->
  StronglySorted (fun a b => leb a b = true) (insert_sorted leb x l).
Proof.
  induction 1 as [|y l Hl IH Hy]; simpl.
  - constructor; constructor.
  - destruct (leb x y) eqn:Hxy.
    + constructor; [constructor; assumption|].
      constructor; [exact Hxy|].
      rewrite List.Forall_forall in *. intros z Hz. eauto.
    + constructor; [exact IH|].
      rewrite List.Forall_forall in *. intros z Hz.
      apply (Permutation_in _ (insert_sorted_Permutation x l)) in Hz.
      destruct Hz as [<-|Hz]; [|auto].
      destruct (leb_total x y) as [E|E]; [congruence|exact E].
Qed.

Lemma sorted_StronglySorted (l : list A) :
  StronglySorted (fun a b => leb a b = true) (sorted leb l).
Proof.
  induction l as [|x l IH]; simpl; [constructor|].
  apply insert_sorted_StronglySorted, IH.
Qed.

End Sorting.

(** A list already in order is left as it is. *)
Lemma sorted_fixed {A : Type} (leb : A -> A -> bool) (l : list A) :
  StronglySorted (fun a b => leb a b = true) l -> sorted leb l = l.
Proof.
  induction 1 as [|x l Hl IH Hx]; simpl; [reflexivity|].
  rewrite IH. destruct l as [|y l]; [reflexivity|]. simpl.
  inversion Hx as [|? ? Hxy _]; subst. rewrite Hxy. reflexivity.
Qed.

Lemma StronglySorted_map_key {A B : Type} (f : A -> B) (R : B -> B -> Prop) (l : list A) :
  StronglySorted (fun a b => R (f a) (f b)) l -> StronglySorted R (List.map f l).
Proof.
  induction 1 as [|x l Hl IH Hx]; simpl; constructor; [exact IH|].
  rewrite List.Forall_forall in *. intros y Hy.
  apply List.in_map_iff in Hy. destruct Hy as (z & <- & Hz). auto.
Qed.

(** Two duplicate-free lists in order that hold the same elements are the
    same list, when the order is antisymmetric on these elements. *)
Lemma StronglySorted_unique {A : Type} (R : A -> A -> Prop) :
  forall l1 l2 : list A,
    (forall a b, a ∈ l1 -> b ∈ l1 -> R a b -> R b a -> a = b) ->
    StronglySorted R l1 -> StronglySorted R l2 -> NoDup l1 -> NoDup l2 ->
    (forall x, x ∈ l1 <-> x ∈ l2) -> l1 = l2.
Proof.
  intros l1. induction l1 as [|x l1 IH]; intros l2 Hanti Hs1 Hs2 Hn1 Hn2 Hsame.
  - destruct l2 as [|y l2]; [reflexivity|].
    exfalso. apply (not_elem_of_nil y), Hsame. left.
  - destruct l2 as [|y l2].
    + exfalso. apply (not_elem_of_nil x), Hsame. left.
    + inversion Hs1 as [|? ? Hs1' Hx]; subst. inversion Hs2 as [|? ? Hs2' Hy]; subst.
      apply NoDup_cons in Hn1. destruct Hn1 as [Hx1 Hn1].
      apply NoDup_cons in Hn2. destruct Hn2 as [Hy2 Hn2].
      rewrite List.Forall_forall in Hx, Hy.
      assert (Hxy : x = y).
      { assert (Hx2 : x ∈ y :: l2) by (apply Hsame; left).
        assert (Hy1 : y ∈ x :: l1) by (apply Hsame; left).
        apply elem_of_cons in Hx2. destruct Hx2 as [E|Hx2]; [exact E|].
        pose proof Hy1 as Hy1'.
        apply elem_of_cons in Hy1. destruct Hy1 as [E|Hy1]; [symmetry; exact E|].
        apply Hanti; [left | exact Hy1' | apply Hx | apply Hy];
          apply list_elem_of_In; assumption. }
      subst y. f_equal. apply IH; try assumption.
      * intros a b Ha Hb. apply Hanti; right; assumption.
      * intros z. split; intros Hz.
        -- assert (Hz2 : z ∈ x :: l2) by (apply Hsame; right; exact Hz).
           apply elem_of_cons in Hz2. destruct Hz2 as [->|Hz2]; [contradiction|exact Hz2].
        -- assert (Hz1 : z ∈ x :: l1) by (apply Hsame; right; exact Hz).
           apply elem_of_cons in Hz1. destruct Hz1 as [->|Hz1]; [contradiction|exact Hz1].
Qed.

(** ** Tuples *)

Section TupleOrder.
Context {A B : Type} `{EqDecision A}.
Variables (leb1 : A -> A -> bool) (leb2 : B -> B -> bool).
Hypothesis total1 : forall a b, leb1 a b = true \/ leb1 b a = true.
Hypothesis total2 : forall a b, leb2 a b = true \/ leb2 b a = true.
Hypothesis trans1 : forall a b c, leb1 a b = true -> leb1 b c = true -> leb1 a c = true.
Hypothesis trans2 : forall a b c, leb2 a b = true -> leb2 b c = true -> leb2 a c = true.
Hypothesis antisym1 : forall a b, leb1 a b = true -> leb1 b a = true -> a = b.
Hypothesis antisym2 : forall a b, leb2 a b = true -> leb2 b a = true -> a = b.

Lemma tuple_leb_total (x y : A * B) :
  tuple_leb leb1 leb2 x y = true \/ tuple_leb leb1 leb2 y x = true.
Proof using total1 total2.
  unfold tuple_leb. destruct x as [a b], y as [a' b']; cbn [fst snd].
  destruct (decide (a ≠ a')) as [Hne|Heq], (decide (a' ≠ a)) as [Hne'|Heq'];
    try apply total1; try apply total2.
  - apply dec_stable in Heq'. congruence.
  - apply dec_stable in Heq. congruence.
Qed.

Lemma tuple_leb_antisym (x y : A * B) :
  tuple_leb leb1 leb2 x y = true -> tuple_leb leb1 leb2 y x = true -> x = y.
Proof using antisym1 antisym2.
  unfold tuple_leb. destruct x as [a b], y as [a' b']; cbn [fst snd].
  destruct (decide (a ≠ a')) as [Hne|Heq], (decide (a' ≠ a)) as [Hne'|Heq'].
  - intros H1 H2. exfalso. apply Hne. apply antisym1; assumption.
  - apply dec_stable in Heq'. congruence.
  - apply dec_stable in Heq. congruence.
  - apply dec_stable in Heq. subst a'. intros H1 H2. f_equal. apply antisym2; assumption.
Qed.

Lemma tuple_leb_trans (x y z : A * B) :
  tuple_leb leb1 leb2 x y = true -> tuple_leb leb1 leb2 y z = true ->
  tuple_leb leb1 leb2 x z = true.
Proof using trans1 antisym1 trans2.
  unfold tuple_leb. destruct x as [a b], y as [a' b'], z as [a'' b'']; cbn [fst snd].
  destruct (decide (a ≠ a')) as [Hxy|Hxy]; [|apply dec_stable in Hxy; subst a'];
    (destruct (decide (a' ≠ a'')) as [Hyz|Hyz] || destruct (decide (a ≠ a'')) as [Hyz|Hyz]);
    try (apply dec_stable in Hyz; subst a'').
  - destruct (decide (a ≠ a'')) as [Hxz|Hxz].
    + apply trans1.
    + apply dec_stable in Hxz. subst a''. intros H1 H2.
      exfalso. apply Hxy. apply antisym1; assumption.
  - destruct (decide (a ≠ a')) as [_|Hc]; [|contradiction].
    intros H1 _. exact H1.
  - intros _ H2. exact H2.
  - destruct (decide (a ≠ a)) as [Hc|_]; [contradiction|]. apply trans2.
Qed.

End TupleOrder.

(** ** Ordered dictionaries *)

Section Dicts.
Context {V : Type}.
Implicit Types (d : list (str * V)) (k : str) (v : V).

Lemma dict_set_keys k v d :
  List.map fst (dict_set k v d) =
  if bool_decide (k ∈ List.map fst d) then List.map fst d else List.map fst d ++ [k].
Proof.
  induction d as [|[k' w] d IH]; cbn [dict_set List.map fst].
  - rewrite bool_decide_eq_false_2 by (apply not_elem_of_nil). reflexivity.
  - destruct (decide (k' = k)) as [->|Hne]; cbn [List.map fst].
    + rewrite bool_decide_eq_true_2 by (left). reflexivity.
    + rewrite IH. destruct (decide (k ∈ List.map fst d)) as [Hin|Hnin].
      * rewrite !bool_decide_eq_true_2; [reflexivity| right; exact Hin | exact Hin].
      * rewrite !bool_decide_eq_false_2; [reflexivity| | exact Hnin].
        intros Hin. apply elem_of_cons in Hin. destruct Hin; [congruence|contradiction].
Qed.

Lemma dict_set_NoDup k v d :
  NoDup (List.map fst d) -> NoDup (List.map fst (dict_set k v d)).
Proof.
  intros Hd. rewrite dict_set_keys.
  destruct (bool_decide (k ∈ List.map fst d)) eqn:Hin; [exact Hd|].
  apply bool_decide_eq_false_1 in Hin.
  apply NoDup_app. split; [exact Hd|]. split.
  - intros x Hx Hx'. apply list_elem_of_singleton in Hx'. subst x. contradiction.
  - apply NoDup_singleton.
Qed.

Lemma dict_get_set_eq k v d : dict_get k (dict_set k v d) = Some v.
Proof.
  induction d as [|[k' w] d IH]; simpl.
  - destruct (decide (k = k)); [reflexivity|contradiction].
  - destruct (decide (k' = k)) as [->|Hne]; simpl.
    + destruct (decide (k = k)); [reflexivity|contradiction].
    + destruct (decide (k' = k)); [contradiction|exact IH].
Qed.

Lemma dict_get_set_ne k k' v d : k ≠ k' -> dict_get k' (dict_set k v d) = dict_get k' d.
Proof.
  intros Hne. induction d as [|[k0 w] d IH]; simpl.
  - destruct (decide (k = k')); [contradiction|reflexivity].
  - destruct (decide (k0 = k)) as [->|Hne0]; simpl.
    + destruct (decide (k = k')); [contradiction|reflexivity].
    + destruct (decide (k0 = k')); [reflexivity|exact IH].
Qed.

(** Storing the value a key already has changes nothing. *)
Lemma dict_set_same k v d : dict_get k d = Some v -> dict_set k v d = d.
Proof.
  induction d as [|[k0 w] d IH]; simpl; [discriminate|].
  destruct (decide (k0 = k)) as [->|Hne].
  - intros [= ->]. reflexivity.
  - intros Hget. rewrite IH by exact Hget. reflexivity.
Qed.

End Dicts.

Lemma dict_append_NoDup {V : Type} (k : str) (v : V) (d : list (str * list V)) :
  NoDup (List.map fst d) -> NoDup (List.map fst (dict_append k v d)).
Proof. apply dict_set_NoDup. Qed.

(** ** The order of the candidates *)

Section CandidateOrder.
Context `{PyUnicode}.

Lemma group_pairs_NoDup (pairs : list (str * Context)) :
  forall grouped,
    NoDup (List.map fst grouped) ->
    NoDup (List.map fst (I18nWorkflow.group_pairs pairs grouped)).
Proof.
  unfold I18nWorkflow.group_pairs.
  induction pairs as [|[s c] pairs IH]; intros grouped Hg; cbn [fold_left];
    [exact Hg|].
  apply IH, dict_append_NoDup, Hg.
Qed.

Lemma grouped_targets_NoDup (project : Project) (include_targets : list str) :
  forall grouped,
    NoDup (List.map fst grouped) ->
    NoDup (List.map fst
             (fold_left
                (fun grouped target =>
                   I18nWorkflow.group_pairs (I18nWorkflow.collect_code_keys project target)
                     (I18nWorkflow.group_pairs
                        (I18nWorkflow.collect_catalog_keys project target) grouped))
                include_targets grouped)).
Proof.
  induction include_targets as [|t ts IH]; intros grouped Hg; cbn [fold_left];
    [exact Hg|].
  apply IH. repeat apply group_pairs_NoDup. exact Hg.
Qed.

Lemma add_NoDup (source_lang : str) (buckets : list (str * list Context))
    (source file_path : str) (line_no : Z) (kind target : str) :
  NoDup (List.map fst buckets) ->
  NoDup (List.map fst
           (LocalizeWithOpenai.add source_lang buckets source file_path line_no kind target)).
Proof.
  intros Hb. unfold LocalizeWithOpenai.add.
  destruct (bool_decide (strip source = [])); [exact Hb|].
  destruct (negb _); [exact Hb|].
  apply dict_append_NoDup, Hb.
Qed.

Lemma add_hits_NoDup (source_lang target : str) (hits : list ScanHit) :
  forall buckets,
    NoDup (List.map fst buckets) ->
    NoDup (List.map fst (LocalizeWithOpenai.add_hits source_lang target hits buckets)).
Proof.
  unfold LocalizeWithOpenai.add_hits.
  induction hits as [|h hits IH]; intros buckets Hb; cbn [fold_left]; [exact Hb|].
  apply IH, add_NoDup, Hb.
Qed.

Lemma add_plist_lines_NoDup (source_lang : str) (lines : list str) :
  forall buckets,
    NoDup (List.map fst buckets) ->
    NoDup (List.map fst (LocalizeWithOpenai.add_plist_lines source_lang lines buckets)).
Proof.
  unfold LocalizeWithOpenai.add_plist_lines.
  induction (enumerate lines) as [|[n text] numbered IH]; intros buckets Hb;
    cbn [fold_left]; [exact Hb|].
  apply IH. destruct (search _ text); [apply add_NoDup|]; exact Hb.
Qed.

Lemma candidate_sources {V : Type} (make : str -> V -> list Context)
    (items : list (str * V)) :
  List.map source
    (List.map (fun '(s, v) => {| source := s; contexts := make s v |}) items)
  = List.map fst items.
Proof.
  rewrite List.map_map. apply List.map_ext. intros [s v]. reflexivity.
Qed.

(** The candidates of [build_candidates]: ordered by lowered source, one per
    source. *)
Lemma build_candidates_order (project : Project) (include_targets : list str)
    (candidates : list Candidate) (plist_by_key : gmap str str) :
  I18nWorkflow.build_candidates project include_targets = inl (candidates, plist_by_key) ->
  StronglySorted (fun a b => str_leb (lower a) (lower b) = true)
    (List.map source candidates)
  /\ NoDup (List.map source candidates).
Proof.
  unfold I18nWorkflow.build_candidates.
  destruct (I18nWorkflow.collect_plist_keys project) as [[plist by_key]|e];
    [|discriminate].
  intros [= <- _].
  rewrite (candidate_sources
             (fun _ ctxs => sorted I18nWorkflow.context_leb (remove_dups ctxs))).
  split.
  - apply StronglySorted_map_key.
    apply (sorted_StronglySorted I18nWorkflow.lower_leb).
    + intros a b. apply str_leb_total.
    + intros a b c. apply str_leb_trans.
  - rewrite (sorted_Permutation I18nWorkflow.lower_leb).
    apply group_pairs_NoDup, grouped_targets_NoDup. constructor.
Qed.

(** The candidates of [extract_candidates]: ordered by source, code point by
    code point, one per source. *)
Lemma extract_candidates_order (project : Project) (include_targets : list str)
    (source_lang : str) :
  StronglySorted (fun a b => str_leb a b = true)
    (List.map source
       (LocalizeWithOpenai.extract_candidates project include_targets source_lang))
  /\ NoDup (List.map source
              (LocalizeWithOpenai.extract_candidates project include_targets source_lang)).
Proof.
  unfold LocalizeWithOpenai.extract_candidates.
  rewrite (candidate_sources (fun _ ctxs => ctxs)).
  split.
  - apply StronglySorted_map_key.
    apply (sorted_StronglySorted LocalizeWithOpenai.item_leb).
    + intros a b. apply str_leb_total.
    + intros a b c. apply str_leb_trans.
  - rewrite (sorted_Permutation LocalizeWithOpenai.item_leb).
    destruct (bool_decide (WIDGET ∈ include_targets));
      destruct (bool_decide (APP ∈ include_targets));
      repeat first [apply add_hits_NoDup | apply add_plist_lines_NoDup];
      constructor.
Qed.

(** The contexts of a candidate depend on the set of its contexts only, not
    on the order [set(contexts)] is iterated in. *)
Lemma context_leb_total (a b : Context) :
  I18nWorkflow.context_leb a b = true \/ I18nWorkflow.context_leb b a = true.
Proof.
  apply tuple_leb_total; [apply str_leb_total|].
  apply tuple_leb_total; [intros x y; rewrite !Z.leb_le; lia|].
  apply tuple_leb_total; apply str_leb_total.
Qed.

Lemma context_leb_antisym (a b : Context) :
  I18nWorkflow.context_leb a b = true -> I18nWorkflow.context_leb b a = true -> a = b.
Proof.
  intros Hab Hba.
  assert (Hkey : I18nWorkflow.context_key a = I18nWorkflow.context_key b).
  { revert Hab Hba. apply tuple_leb_antisym; [apply str_leb_antisym|].
    apply tuple_leb_antisym; [intros x y; rewrite !Z.leb_le; lia|].
    apply tuple_leb_antisym; apply str_leb_antisym. }
  destruct a, b. injection Hkey as -> -> -> ->. reflexivity.
Qed.

Lemma context_leb_trans (a b c : Context) :
  I18nWorkflow.context_leb a b = true -> I18nWorkflow.context_leb b c = true ->
  I18nWorkflow.context_leb a c = true.
Proof.
  apply tuple_leb_trans; [apply str_leb_trans | | apply str_leb_antisym].
  apply tuple_leb_trans;
    [intros x y z; rewrite !Z.leb_le; lia | | intros x y; rewrite !Z.leb_le; lia].
  apply tuple_leb_trans; [apply str_leb_trans | apply str_leb_trans | apply str_leb_antisym].
Qed.

Lemma sorted_contexts_of_set (contexts1 contexts2 : list Context) :
  (forall c, c ∈ contexts1 <-> c ∈ contexts2) ->
  sorted I18nWorkflow.context_leb (remove_dups contexts1)
  = sorted I18nWorkflow.context_leb (remove_dups contexts2).
Proof.
  intros Hsame.
  apply (StronglySorted_unique (fun a b => I18nWorkflow.context_leb a b = true)).
  - intros a b _ _. apply context_leb_antisym.
  - apply sorted_StronglySorted; [exact context_leb_total | exact context_leb_trans].
  - apply sorted_StronglySorted; [exact context_leb_total | exact context_leb_trans].
  - rewrite sorted_Permutation. apply NoDup_remove_dups.
  - rewrite sorted_Permutation. apply NoDup_remove_dups.
  - intros c. rewrite !sorted_Permutation, !elem_of_remove_dups. apply Hsame.
Qed.

(** C3, as the code has it: [build_candidates] returns the candidates in
    case-insensitive order of their sources (the key is the lowered source);
    [extract_candidates] returns them in plain code-point order, which
    tells upper from lower case.  Either list holds each source once.  The
    order [extract_candidates] gives is fixed by the set of its sources
    alone; so is the order [build_candidates] gives, when no two sources
    differ only in case. *)
Theorem C3_candidate_order :
  (forall project include_targets candidates plist_by_key,
     I18nWorkflow.build_candidates project include_targets = inl (candidates, plist_by_key) ->
     StronglySorted (fun a b => str_leb (lower a) (lower b) = true)
       (List.map source candidates)
     /\ NoDup (List.map source candidates))
  /\ (forall project include_targets source_lang,
        StronglySorted (fun a b => str_leb a b = true)
          (List.map source
             (LocalizeWithOpenai.extract_candidates project include_targets source_lang))
        /\ NoDup (List.map source
                    (LocalizeWithOpenai.extract_candidates project include_targets
                       source_lang)))
  /\ (forall project1 project2 targets1 targets2 lang1 lang2,
        (forall s,
           s ∈ List.map source (LocalizeWithOpenai.extract_candidates project1 targets1 lang1)
           <-> s ∈ List.map source
                     (LocalizeWithOpenai.extract_candidates project2 targets2 lang2)) ->
        List.map source (LocalizeWithOpenai.extract_candidates project1 targets1 lang1)
        = List.map source (LocalizeWithOpenai.extract_candidates project2 targets2 lang2))
  /\ (forall project1 project2 targets1 targets2 candidates1 candidates2 by_key1 by_key2,
        I18nWorkflow.build_candidates project1 targets1 = inl (candidates1, by_key1) ->
        I18nWorkflow.build_candidates project2 targets2 = inl (candidates2, by_key2) ->
        (forall s, s ∈ List.map source candidates1 <-> s ∈ List.map source candidates2) ->
        (forall a b,
           a ∈ List.map source candidates1 -> b ∈ List.map source candidates1 ->
           lower a = lower b -> a = b) ->
        List.map source candidates1 = List.map source candidates2).
Proof.
  split; [exact build_candidates_order|].
  split; [exact extract_candidates_order|].
  split.
  - intros p1 p2 t1 t2 l1 l2 Hsame.
    destruct (extract_candidates_order p1 t1 l1) as [Hs1 Hn1].
    destruct (extract_candidates_order p2 t2 l2) as [Hs2 Hn2].
    apply (StronglySorted_unique (fun a b => str_leb a b = true)); try assumption.
    intros a b _ _. apply str_leb_antisym.
  - intros p1 p2 t1 t2 c1 c2 k1 k2 Hb1 Hb2 Hsame Hinj.
    destruct (build_candidates_order p1 t1 c1 k1 Hb1) as [Hs1 Hn1].
    destruct (build_candidates_order p2 t2 c2 k2 Hb2) as [Hs2 Hn2].
    apply (StronglySorted_unique (fun a b => str_leb (lower a) (lower b) = true));
      try assumption.
    intros a b Ha Hb Hab Hba. apply Hinj; try assumption.
    apply str_leb_antisym; assumption.
Qed.

End CandidateOrder.

(** ** The required manifest keys *)

Lemma enumerate_lines {A : Type} (l : list A) :
  forall start,
    List.map snd (zip (List.map Z.of_nat (seq start (length l))) l) = l.
Proof.
  induction l as [|x l IH]; intros start; simpl; [reflexivity|].
  rewrite IH. reflexivity.
Qed.

Section ManifestKeys.
Import I18nWorkflow.

Lemma plist_line_keys (out : list (str * Context)) (by_key : gmap str str)
    (n : Z) (text : str) (k : str) :
  k ∈ dom (plist_line (out, by_key) (n, text)).2 <->
  k ∈ dom by_key \/
  exists g, search PLIST_KEY_PATTERN text = Some g /\ group g 1 = k.
Proof.
  unfold plist_line. destruct (search PLIST_KEY_PATTERN text) as [g|].
  - assert (Hdom : forall by_key' : gmap str str,
              by_key' = match by_key !! group g 1 with
                        | None => <[group g 1 := group g 2]> by_key
                        | Some _ => by_key
                        end ->
              (k ∈ dom by_key' <-> k ∈ dom by_key \/ group g 1 = k)).
    { intros by_key' ->. destruct (by_key !! group g 1) eqn:E.
      - split; [auto|]. intros [Hk|<-]; [exact Hk|].
        apply elem_of_dom. eauto.
      - rewrite dom_insert, elem_of_union, elem_of_singleton.
        split; intros [Hk|Hk]; auto. }
    destruct (looks_translatable (group g 2)); cbn [snd];
      rewrite (Hdom _ eq_refl); split;
      (intros [Hk|Hk]; [left; exact Hk | right]);
      [ exists g; split; [reflexivity|exact Hk]
      | destruct Hk as (g' & [= <-] & Hk); exact Hk
      | exists g; split; [reflexivity|exact Hk]
      | destruct Hk as (g' & [= <-] & Hk); exact Hk ].
  - cbn [snd]. split; [auto|]. intros [Hk|(g & Hg & _)]; [exact Hk|discriminate].
Qed.

Lemma plist_fold_keys (numbered : list (Z * str)) (k : str) :
  forall acc,
    k ∈ dom (fold_left plist_line numbered acc).2 <->
    k ∈ dom acc.2 \/ manifest_declares (List.map snd numbered) k = true.
Proof.
  induction numbered as [|[n text] numbered IH]; intros [out by_key]; cbn [fold_left].
  - cbn. split; [auto|]. intros [Hk|Hk]; [exact Hk|discriminate].
  - rewrite IH, plist_line_keys. cbn [List.map snd manifest_declares existsb].
    rewrite orb_true_iff. fold (manifest_declares (List.map snd numbered) k).
    destruct (search PLIST_KEY_PATTERN text) as [g|].
    + rewrite bool_decide_eq_true. split.
      * intros [[Hk|(g' & [= <-] & Hk)]|Hk]; auto.
      * intros [Hk|[Hk|Hk]]; eauto.
    + split.
      * intros [[Hk|(g' & Hg & _)]|Hk]; auto; discriminate.
      * intros [Hk|[Hk|Hk]]; auto; discriminate.
Qed.

(** The keys [collect_plist_keys] finds are those the manifest assigns. *)
Lemma collect_plist_keys_result (project : Project) :
  exists out by_key,
    (forall k, k ∈ dom by_key <-> manifest_declares (pbxproj_lines project) k = true)
    /\ collect_plist_keys project =
       if decide (dom by_key ≠ required) then
         inr (missing_usage_description_keys
                (sorted str_leb (elements (required ∖ dom by_key))))
       else inl (out, by_key).
Proof.
  unfold collect_plist_keys.
  pose proof (fun k => plist_fold_keys (enumerate (pbxproj_lines project)) k ([], ∅)) as Hk.
  destruct (fold_left plist_line (enumerate (pbxproj_lines project)) ([], ∅))
    as [out by_key].
  exists out, by_key. split; [|reflexivity].
  intros k. rewrite Hk. unfold enumerate. rewrite enumerate_lines. cbn [snd].
  rewrite dom_empty, elem_of_empty. tauto.
Qed.

Lemma required_keys (k : str) : k ∈ required <-> k ∈ [KEY_ALWAYS; KEY_WHEN_IN_USE].
Proof.
  unfold required. rewrite elem_of_union, !elem_of_singleton.
  rewrite elem_of_cons, list_elem_of_singleton. reflexivity.
Qed.

(** A required key the manifest does not assign makes [collect_plist_keys]
    raise, and the error lists the required keys that are not assigned. *)
Lemma collect_plist_keys_missing (project : Project) (key : str) :
  key ∈ [KEY_ALWAYS; KEY_WHEN_IN_USE] ->
  manifest_declares (pbxproj_lines project) key = false ->
  exists missing,
    collect_plist_keys project = inr (missing_usage_description_keys missing)
    /\ forall k, k ∈ missing <->
                 k ∈ [KEY_ALWAYS; KEY_WHEN_IN_USE]
                 /\ manifest_declares (pbxproj_lines project) k = false.
Proof.
  intros Hreq Habsent.
  destruct (collect_plist_keys_result project) as (out & by_key & Hdom & ->).
  destruct (decide (dom by_key ≠ required)) as [_|Heq].
  - eexists. split; [reflexivity|]. intros k.
    rewrite (sorted_Permutation str_leb), elem_of_elements, elem_of_difference.
    rewrite required_keys, Hdom.
    destruct (manifest_declares (pbxproj_lines project) k); split; intros [? ?];
      split; congruence.
  - exfalso. apply dec_stable in Heq.
    apply required_keys in Hreq. rewrite <- Heq, Hdom, Habsent in Hreq. discriminate.
Qed.

Context `{PyUnicode}.

(** C8: when the manifest assigns no value to one of the two required
    permission keys, the run issues no translation request and returns a
    non-zero exit code; past the check of [--include-targets], the error is
    that of [collect_plist_keys] and lists exactly the required keys the
    manifest does not assign. *)
Theorem C8_missing_manifest_key (args : Args) (OPENAI_API_KEY : option str)
    (project : Project) (service : Service) (key : str) :
  key ∈ [KEY_ALWAYS; KEY_WHEN_IN_USE] ->
  manifest_declares (pbxproj_lines project) key = false ->
  requests (main args OPENAI_API_KEY project service) = []
  /\ (exit_code (outcome (main args OPENAI_API_KEY project service)) = Some 1%Z
      \/ exit_code (outcome (main args OPENAI_API_KEY project service)) = Some 2%Z)
  /\ (invalid_targets_of args = [] ->
      exists missing,
        outcome (main args OPENAI_API_KEY project service) =
          build_candidates_error (missing_usage_description_keys missing)
        /\ exit_code (outcome (main args OPENAI_API_KEY project service)) = Some 1%Z
        /\ forall k, k ∈ missing <->
                     k ∈ [KEY_ALWAYS; KEY_WHEN_IN_USE]
                     /\ manifest_declares (pbxproj_lines project) k = false).
Proof.
  intros Hreq Habsent.
  destruct (collect_plist_keys_missing project key Hreq Habsent) as (missing & Hraise & Hmissing).
  assert (Hbuild : build_candidates project (include_targets_of args) =
                   inr (missing_usage_description_keys missing)).
  { unfold build_candidates. rewrite Hraise. reflexivity. }
  unfold main. rewrite Hbuild.
  destruct (bool_decide (invalid_targets_of args = [])) eqn:Hvalid; cbn [negb].
  - apply bool_decide_eq_true_1 in Hvalid. cbn [requests outcome exit_code].
    split; [reflexivity|]. split; [left; reflexivity|].
    intros _. exists missing. repeat split; try reflexivity; apply Hmissing; assumption.
  - apply bool_decide_eq_false_1 in Hvalid. cbn [requests outcome exit_code].
    split; [reflexivity|]. split; [right; reflexivity|].
    intros Hnone. contradiction.
Qed.

End ManifestKeys.

(** ** The catalog merge *)

Section CatalogMerge.
Import I18nWorkflow.

(** Sorting by a key computed from the dictionary key does not change what a
    key is bound to. *)
Lemma dict_get_insert_sorted {V : Type} (leb : str * V -> str * V -> bool)
    (x : str * V) (l : list (str * V)) (k : str) :
  (forall a b, a.1 = b.1 -> leb a b = true) ->
  dict_get k (insert_sorted leb x l) = dict_get k (x :: l).
Proof.
  intros Hkey. induction l as [|y l IH]; [reflexivity|].
  cbn [insert_sorted]. destruct (leb x y) eqn:Hxy; [reflexivity|].
  destruct x as [kx vx], y as [ky vy]. cbn [dict_get] in *.
  destruct (decide (ky = k)) as [->|Hy].
  - destruct (decide (kx = k)) as [->|Hx]; [|reflexivity].
    rewrite (Hkey (k, vx) (k, vy) eq_refl) in Hxy. discriminate.
  - exact IH.
Qed.

Lemma dict_get_sorted {V : Type} (leb : str * V -> str * V -> bool)
    (l : list (str * V)) (k : str) :
  (forall a b, a.1 = b.1 -> leb a b = true) ->
  dict_get k (sorted leb l) = dict_get k l.
Proof.
  intros Hkey. induction l as [|[kx vx] l IH]; [reflexivity|].
  cbn [sorted fold_right]. fold (sorted leb l).
  rewrite dict_get_insert_sorted by exact Hkey.
  cbn [dict_get]. rewrite IH. reflexivity.
Qed.

Context `{PyUnicode}.

Lemma lower_leb_same_key {V : Type} (a b : str * V) : a.1 = b.1 -> lower_leb a b = true.
Proof. unfold lower_leb. intros ->. apply str_leb_refl. Qed.

Lemma lower_leb_sorted {V : Type} (l : list (str * V)) :
  sorted lower_leb (sorted lower_leb l) = sorted lower_leb l.
Proof.
  apply sorted_fixed, sorted_StronglySorted.
  - intros a b. apply str_leb_total.
  - intros a b c. apply str_leb_trans.
Qed.

(** An entry that went through [update_entry] is left as it is by a second
    pass with the same value, and does not count as changed. *)
Lemma update_entry_again (language localized_value : str) (entry entry' : json)
    (is_changed : bool) :
  update_entry language localized_value entry = Some (entry', is_changed) ->
  update_entry language localized_value entry' = Some (entry', false).
Proof.
  unfold update_entry. destruct entry as [| | | | | |e]; try discriminate.
  set (e1 := match dict_get (u "extractionState") e with
             | None => dict_set (u "extractionState") (JStr (u "manual")) e
             | Some _ => e
             end).
  assert (Hstate : exists x, dict_get (u "extractionState") e1 = Some x).
  { subst e1. destruct (dict_get (u "extractionState") e) eqn:E; [eauto|].
    rewrite dict_get_set_eq. eauto. }
  destruct Hstate as [x Hstate].
  destruct (default (JDict []) (dict_get (u "localizations") e1))
    as [| | | | | |localizations]; try discriminate.
  destruct (previous_value language localizations) as [previous|]; [|discriminate].
  intros [= <- _].
  assert (Hne : u "localizations" ≠ u "extractionState") by (vm_compute; discriminate).
  rewrite dict_get_set_ne by exact Hne. rewrite Hstate.
  rewrite dict_get_set_eq. cbn [default from_option id].
  unfold previous_value. rewrite dict_get_set_eq.
  replace (get_or_empty (u "stringUnit") (string_unit localized_value))
    with (Some (JDict [ (u "state", JStr (u "translated"));
                        (u "value", JStr localized_value) ])) by reflexivity.
  replace (dict_get (u "value")
             [ (u "state", JStr (u "translated")); (u "value", JStr localized_value) ])
    with (Some (JStr localized_value)) by reflexivity.
  cbn [differs]. rewrite bool_decide_eq_true_2 by reflexivity. cbn [negb].
  rewrite (dict_set_same language (string_unit localized_value)
             (dict_set language (string_unit localized_value) localizations))
    by apply dict_get_set_eq.
  rewrite (dict_set_same (u "localizations")) by apply dict_get_set_eq.
  reflexivity.
Qed.

(** The loop leaves the entries of other keys alone. *)
Lemma update_entries_frame (language : str) (translations : list (str * str)) :
  forall strings changed strings' changed' k,
    update_entries language translations strings changed = Some (strings', changed') ->
    k ∉ List.map fst translations ->
    dict_get k strings' = dict_get k strings.
Proof.
  induction translations as [|[source_key value] rest IH];
    intros strings changed strings' changed' k; cbn [update_entries].
  - intros [= <- _] _. reflexivity.
  - destruct (update_entry language value _) as [[entry' c]|]; [|discriminate].
    intros Hrun Hk. cbn [List.map fst] in Hk.
    apply not_elem_of_cons in Hk. destruct Hk as [Hne Hk].
    rewrite (IH _ _ _ _ k Hrun Hk). apply dict_get_set_ne. congruence.
Qed.

(** After the loop every translated key is bound to an entry a second pass
    leaves as it is. *)
Lemma update_entries_done (language : str) (translations : list (str * str)) :
  NoDup (List.map fst translations) ->
  forall strings changed strings' changed',
    update_entries language translations strings changed = Some (strings', changed') ->
    forall k v, (k, v) ∈ translations ->
      exists entry,
        dict_get k strings' = Some entry
        /\ update_entry language v entry = Some (entry, false).
Proof.
  induction translations as [|[source_key value] rest IH];
    intros Hnodup strings changed strings' changed' Hrun k v Hin.
  - apply elem_of_nil in Hin. contradiction.
  - cbn [List.map fst] in Hnodup. apply NoDup_cons in Hnodup.
    destruct Hnodup as [Hfresh Hnodup]. cbn [update_entries] in Hrun.
    destruct (update_entry language value _) as [[entry' c]|] eqn:Hentry; [|discriminate].
    apply elem_of_cons in Hin. destruct Hin as [[= -> ->]|Hin].
    + exists entry'. split.
      * rewrite (update_entries_frame _ _ _ _ _ _ source_key Hrun Hfresh).
        apply dict_get_set_eq.
      * exact (update_entry_again _ _ _ _ _ Hentry).
    + exact (IH Hnodup _ _ _ _ Hrun k v Hin).
Qed.

(** On such entries the loop changes nothing and counts nothing. *)
Lemma update_entries_fixed (language : str) (translations : list (str * str))
    (strings : list (str * json)) :
  (forall k v, (k, v) ∈ translations ->
     exists entry,
       dict_get k strings = Some entry
       /\ update_entry language v entry = Some (entry, false)) ->
  forall changed,
    update_entries language translations strings changed = Some (strings, changed).
Proof.
  induction translations as [|[source_key value] rest IH]; intros Hdone changed;
    cbn [update_entries]; [reflexivity|].
  destruct (Hdone source_key value) as (entry & Hget & Hentry); [left|].
  rewrite Hget. cbn [default from_option id]. rewrite Hentry.
  rewrite (dict_set_same _ _ _ Hget). apply IH.
  intros k v Hin. apply Hdone. right. exact Hin.
Qed.

Lemma update_catalog_written (language : str) (translations : list (str * str))
    (strings : list (str * json)) :
  update_catalog (Some (written strings)) language translations =
  match update_entries language translations (sorted lower_leb strings) 0 with
  | None => None
  | Some (strings', changed) => Some (written strings', changed)
  end.
Proof. reflexivity. Qed.

Lemma update_catalog_result (stored : option json) (language : str)
    (translations : list (str * str)) (content : json) (changed : nat) :
  update_catalog stored language translations = Some (content, changed) ->
  exists strings',
    update_entries language translations (stored_strings stored) 0 = Some (strings', changed)
    /\ content = written strings'.
Proof.
  assert (Hloop : forall strings,
            match update_entries language translations strings 0 with
            | None => None
            | Some (strings', changed') => Some (written strings', changed')
            end = Some (content, changed) ->
            exists strings',
              update_entries language translations strings 0 = Some (strings', changed)
              /\ content = written strings').
  { intros strings.
    destruct (update_entries language translations strings 0) as [[strings' c]|];
      [|discriminate].
    intros [= <- <-]. eauto. }
  destruct stored as [[| | | | | |top]|]; try discriminate.
  - unfold update_catalog, stored_strings.
    assert (H1 : u "version" ≠ u "strings") by (vm_compute; discriminate).
    assert (H2 : u "sourceLanguage" ≠ u "strings") by (vm_compute; discriminate).
    rewrite (dict_get_set_ne _ _ _ _ H1), (dict_get_set_ne _ _ _ _ H2).
    destruct (dict_get (u "strings") top) as [x|] eqn:Hstrings.
    + rewrite Hstrings. destruct x; try discriminate. apply Hloop.
    + rewrite dict_get_set_eq. apply Hloop.
  - apply (Hloop []).
Qed.

Lemma catalog_map_NoDup (group : str) (rows : list TranslationRow) :
  NoDup (List.map fst (catalog_map group rows)).
Proof.
  unfold catalog_map.
  assert (Hfold : forall m : list (str * str),
            NoDup (List.map fst m) ->
            NoDup (List.map fst
                     (fold_left
                        (fun m row =>
                           if bool_decide (group ∈ List.map target (row_contexts row))
                           then dict_set (row_source row) (row_target row) m else m)
                        rows m))).
  { induction rows as [|row rows IH]; intros m Hm; cbn [fold_left]; [exact Hm|].
    apply IH. destruct (bool_decide _); [apply dict_set_NoDup|]; exact Hm. }
  apply Hfold. constructor.
Qed.

Lemma update_catalog_again (stored : option json) (language : str)
    (translations : list (str * str)) (content : json) (changed : nat) :
  NoDup (List.map fst translations) ->
  update_catalog stored language translations = Some (content, changed) ->
  update_catalog (Some content) language translations = Some (content, 0%nat).
Proof.
  intros Hnodup Hfirst.
  destruct (update_catalog_result _ _ _ _ _ Hfirst) as (strings' & Hloop & ->).
  rewrite update_catalog_written.
  rewrite (update_entries_fixed language translations (sorted lower_leb strings')).
  - unfold written. rewrite lower_leb_sorted. reflexivity.
  - intros k v Hin.
    destruct (update_entries_done language translations Hnodup _ _ _ _ Hloop k v Hin)
      as (entry & Hget & Hentry).
    exists entry. split; [|exact Hentry].
    rewrite dict_get_sorted; [exact Hget|].
    intros a b. apply lower_leb_same_key.
Qed.

(** C5: merging the same translations a second time writes the same
    catalog and counts no change.  [translations] is a dictionary (its keys
    differ); the second part is the merge of the same rows, through the
    dictionary [apply_translations] builds from them. *)
Theorem C5_merge_idempotent (stored : option json) (language : str) (content : json)
    (changed : nat) :
  (forall translations,
     NoDup (List.map fst translations) ->
     update_catalog stored language translations = Some (content, changed) ->
     update_catalog (Some content) language translations = Some (content, 0%nat))
  /\ (forall group rows,
        update_catalog stored language (catalog_map group rows) = Some (content, changed) ->
        update_catalog (Some content) language (catalog_map group rows)
        = Some (content, 0%nat)).
Proof.
  split.
  - intros translations. apply update_catalog_again.
  - intros group rows. apply update_catalog_again, catalog_map_NoDup.
Qed.

(** C10: a merge keeps the entry of every key that is not translated, and
    writes the source language [en] and the version [1.0] whatever the
    stored catalog said. *)
Theorem C10_merge_frame (stored : option json) (language : str)
    (translations : list (str * str)) (content : json) (changed : nat) :
  update_catalog stored language translations = Some (content, changed) ->
  exists strings,
    content = JDict [ (u "sourceLanguage", JStr (u "en"));
                      (u "strings", JDict strings);
                      (u "version", JStr (u "1.0")) ]
    /\ forall k, k ∉ List.map fst translations ->
                 dict_get k strings = dict_get k (stored_strings stored).
Proof.
  intros Hrun.
  destruct (update_catalog_result _ _ _ _ _ Hrun) as (strings' & Hloop & ->).
  exists (sorted lower_leb strings'). split; [reflexivity|].
  intros k Hk. rewrite dict_get_sorted by (intros a b; apply lower_leb_same_key).
  exact (update_entries_frame _ _ _ _ _ _ k Hloop Hk).
Qed.

End CatalogMerge.

(** ** The merge is defined on well-formed catalogs *)

Section MergeDefined.
Import I18nWorkflow.
Context `{PyUnicode}.

(** Whether [update_entry] raises does not depend on the value stored. *)
Lemma update_entry_defined (language v v' : str) (entry : json) :
  is_Some (update_entry language v entry) -> is_Some (update_entry language v' entry).
Proof.
  unfold update_entry.
  destruct entry as [| | | | | |e]; try (intros [? Hx]; discriminate Hx).
  set (e1 := match dict_get (u "extractionState") e with
             | None => dict_set (u "extractionState") (JStr (u "manual")) e
             | Some _ => e
             end).
  destruct (default (JDict []) (dict_get (u "localizations") e1))
    as [| | | | | |localizations]; try (intros [? Hx]; discriminate Hx).
  destruct (previous_value language localizations);
    [eauto | intros [? Hx]; discriminate Hx].
Qed.

Lemma update_entries_defined (language : str) (translations : list (str * str)) :
  forall strings changed,
    (forall k entry, dict_get k strings = Some entry ->
                     is_Some (update_entry language [] entry)) ->
    is_Some (update_entries language translations strings changed).
Proof.
  induction translations as [|[source_key value] rest IH]; intros strings changed Hok;
    cbn [update_entries]; [eauto|].
  assert (Hentry : is_Some (update_entry language value
                              (default (JDict []) (dict_get source_key strings)))).
  { apply (update_entry_defined language []).
    destruct (dict_get source_key strings) as [entry|] eqn:Hget.
    - exact (Hok _ _ Hget).
    - cbn. eauto. }
  destruct Hentry as [[entry' c] Hentry]. rewrite Hentry. apply IH.
  intros k entry Hget. destruct (decide (source_key = k)) as [<-|Hne].
  - rewrite dict_get_set_eq in Hget. injection Hget as <-.
    apply (update_entry_defined language value).
    rewrite (update_entry_again _ _ _ _ _ Hentry). eauto.
  - rewrite dict_get_set_ne in Hget by exact Hne. exact (Hok _ _ Hget).
Qed.

(** A first merge into a missing file, or into a catalog whose entries
    [update_entry] accepts, writes the file. *)
Lemma update_catalog_defined (stored : option json) (language : str)
    (translations : list (str * str)) :
  match stored with
  | None => True
  | Some (JDict top) =>
      match dict_get (u "strings") top with
      | None => True
      | Some (JDict strings) =>
          forall k entry, dict_get k strings = Some entry ->
                          is_Some (update_entry language [] entry)
      | Some _ => False
      end
  | Some _ => False
  end ->
  is_Some (update_catalog stored language translations).
Proof.
  assert (Hloop : forall strings,
            (forall k entry, dict_get k strings = Some entry ->
                             is_Some (update_entry language [] entry)) ->
            is_Some match update_entries language translations strings 0 with
                    | None => None
                    | Some (strings', changed') => Some (written strings', changed')
                    end).
  { intros strings Hok.
    destruct (update_entries_defined language translations strings 0%nat Hok)
      as [[strings' c] ->]. eauto. }
  destruct stored as [[| | | | | |top]|]; try contradiction.
  - unfold update_catalog.
    assert (H1 : u "version" ≠ u "strings") by (vm_compute; discriminate).
    assert (H2 : u "sourceLanguage" ≠ u "strings") by (vm_compute; discriminate).
    rewrite (dict_get_set_ne _ _ _ _ H1), (dict_get_set_ne _ _ _ _ H2).
    destruct (dict_get (u "strings") top) as [x|] eqn:Hstrings.
    + rewrite Hstrings. destruct x; try contradiction. apply Hloop.
    + intros _. rewrite dict_get_set_eq. apply Hloop. intros k entry [=].
  - intros _. apply (Hloop []). intros k entry [=].
Qed.

End MergeDefined.

(** ** Witnesses *)

Lemma C4_validation_priority_witness :
  validate_translation (H := Latin1) (u "%d \(x) " ++ DEGREE_F) []
    = (false, placeholder_mismatch [u "%d"] [])
  /\ validate_translation (H := Latin1) (u "\(x) " ++ DEGREE_F) (u "  ")
     = (false, interpolation_mismatch [u "\(x)"] []).
Proof.
  split.
  - apply (proj1 (@C4_validation_priority Latin1 (u "%d \(x) " ++ DEGREE_F) [])).
    vm_compute. discriminate.
  - apply (proj1 (proj2 (@C4_validation_priority Latin1 (u "\(x) " ++ DEGREE_F) (u "  ")))).
    + vm_compute. reflexivity.
    + vm_compute. discriminate.
Defined.

Lemma C6_identity_with_tokens_ok_witness :
  (placeholders_of (H := Latin1) (u "Search %d cities") ≠ []
   \/ interpolations_of (H := Latin1) (u "Search %d cities") ≠ [])
  /\ validate_translation (H := Latin1) (u "Search %d cities") (u "Search %d cities")
     = (true, reason_ok).
Proof.
  assert (Htok : placeholders_of (H := Latin1) (u "Search %d cities") ≠ []
                 \/ interpolations_of (H := Latin1) (u "Search %d cities") ≠ [])
    by (left; vm_compute; discriminate).
  split; [exact Htok|].
  exact (@C6_identity_with_tokens_ok Latin1 (u "Search %d cities") Htok).
Defined.

Lemma C7_reordered_interpolations_mismatch_witness :
  validate_translation (H := Latin1) (u "\(a) of \(b)") (u "\(b) de \(a)")
  = (false, interpolation_mismatch [u "\(a)"; u "\(b)"] [u "\(b)"; u "\(a)"]).
Proof.
  apply (@C7_reordered_interpolations_mismatch Latin1 (u "\(a) of \(b)") (u "\(b) de \(a)")).
  - vm_compute. reflexivity.
  - vm_compute. apply perm_swap.
  - vm_compute. discriminate.
Defined.

Lemma C9_blank_identity_rejected_witness :
  validate_translation (H := Latin1) (u "  ") (u "  ") = (false, empty_translation).
Proof.
  apply (@C9_blank_identity_rejected Latin1 (u "  ")).
  repeat constructor.
Defined.

Lemma C3_candidate_order_witness :
  exists candidates plist_by_key,
    I18nWorkflow.build_candidates (H := Latin1) sample_project [APP; WIDGET]
      = inl (candidates, plist_by_key)
    /\ List.map source candidates
       = [ u "apple"; u "Cancel";
           u "We use your location for local weather.";
           u "We use your location while the app is open."; u "Zebra" ]
    /\ StronglySorted
         (fun a b => str_leb (lower (PyUnicode := Latin1) a)
                       (lower (PyUnicode := Latin1) b) = true)
         (List.map source candidates)
    /\ NoDup (List.map source candidates).
Proof.
  destruct (I18nWorkflow.build_candidates (H := Latin1) sample_project [APP; WIDGET])
    as [[candidates plist_by_key]|e] eqn:Hbuild; [|vm_compute in Hbuild; discriminate].
  exists candidates, plist_by_key. split; [reflexivity|]. split.
  - assert (Hsrc : match I18nWorkflow.build_candidates (H := Latin1) sample_project
                           [APP; WIDGET] with
                   | inl (cs, _) => List.map source cs
                   | inr _ => []
                   end = [ u "apple"; u "Cancel";
                           u "We use your location for local weather.";
                           u "We use your location while the app is open."; u "Zebra" ])
      by (vm_compute; reflexivity).
    rewrite Hbuild in Hsrc. exact Hsrc.
  - exact (proj1 (@C3_candidate_order Latin1) sample_project [APP; WIDGET]
             candidates plist_by_key Hbuild).
Defined.

(** C3 as stated fails for [extract_candidates]: [Zebra] comes before
    [apple], which the case-insensitive order puts first. *)
Lemma C3_counterexample :
  List.map source
    (LocalizeWithOpenai.extract_candidates (H := Latin1) sample_project [APP] (u "en"))
  = [ u "We use your location for local weather.";
      u "We use your location while the app is open."; u "Zebra"; u "apple" ]
  /\ str_leb (lower (PyUnicode := Latin1) (u "Zebra"))
       (lower (PyUnicode := Latin1) (u "apple")) = false
  /\ str_leb (lower (PyUnicode := Latin1) (u "apple"))
       (lower (PyUnicode := Latin1) (u "Zebra")) = true.
Proof. repeat split; vm_compute; reflexivity. Qed.

Lemma C8_missing_manifest_key_witness :
  I18nWorkflow.main (H := Latin1) sample_args (Some (u "sk-test"))
    project_without_when_in_use echo_service
  = {| I18nWorkflow.outcome :=
         I18nWorkflow.build_candidates_error
           (I18nWorkflow.missing_usage_description_keys [KEY_WHEN_IN_USE]);
       I18nWorkflow.requests := [] |}
  /\ I18nWorkflow.requests
       (I18nWorkflow.main (H := Latin1) sample_args (Some (u "sk-test"))
          project_without_when_in_use echo_service) = []
  /\ (I18nWorkflow.exit_code
        (I18nWorkflow.outcome
           (I18nWorkflow.main (H := Latin1) sample_args (Some (u "sk-test"))
              project_without_when_in_use echo_service)) = Some 1%Z
      \/ I18nWorkflow.exit_code
           (I18nWorkflow.outcome
              (I18nWorkflow.main (H := Latin1) sample_args (Some (u "sk-test"))
                 project_without_when_in_use echo_service)) = Some 2%Z).
Proof.
  split; [vm_compute; reflexivity|].
  assert (Hreq : KEY_WHEN_IN_USE ∈ [KEY_ALWAYS; KEY_WHEN_IN_USE]) by (right; left).
  assert (Habsent : I18nWorkflow.manifest_declares
                      (pbxproj_lines project_without_when_in_use) KEY_WHEN_IN_USE = false)
    by (vm_compute; reflexivity).
  pose proof (@C8_missing_manifest_key Latin1 sample_args (Some (u "sk-test"))
                project_without_when_in_use echo_service KEY_WHEN_IN_USE Hreq Habsent)
    as (Hrequests & Hcode & _).
  split; [exact Hrequests | exact Hcode].
Defined.

Lemma C5_merge_idempotent_witness :
  exists content changed,
    I18nWorkflow.update_catalog (H := Latin1) (Some sample_catalog) (u "es") sample_translations
      = Some (content, changed)
    /\ changed = 2%nat
    /\ I18nWorkflow.update_catalog (H := Latin1) (Some content) (u "es") sample_translations
       = Some (content, 0%nat).
Proof.
  destruct (I18nWorkflow.update_catalog (H := Latin1) (Some sample_catalog) (u "es")
              sample_translations) as [[content changed]|] eqn:Hfirst;
    [|vm_compute in Hfirst; discriminate].
  exists content, changed. split; [reflexivity|]. split.
  - assert (Hn : match I18nWorkflow.update_catalog (H := Latin1) (Some sample_catalog)
                         (u "es") sample_translations with
                 | Some (_, n) => n
                 | None => 0%nat
                 end = 2%nat) by (vm_compute; reflexivity).
    rewrite Hfirst in Hn. exact Hn.
  - apply (proj1 (@C5_merge_idempotent Latin1 (Some sample_catalog) (u "es") content changed)
             sample_translations); [|exact Hfirst].
    vm_compute. repeat constructor; intros Hin.
    + apply elem_of_cons in Hin. destruct Hin as [Hin|Hin]; [discriminate|].
      apply elem_of_nil in Hin. exact Hin.
    + apply elem_of_nil in Hin. exact Hin.
Defined.

Lemma C10_merge_frame_witness :
  exists content changed strings,
    I18nWorkflow.update_catalog (H := Latin1) (Some sample_catalog) (u "es") sample_translations
      = Some (content, changed)
    /\ content = I18nWorkflow.JDict
                   [ (u "sourceLanguage", I18nWorkflow.JStr (u "en"));
                     (u "strings", I18nWorkflow.JDict strings);
                     (u "version", I18nWorkflow.JStr (u "1.0")) ]
    /\ dict_get (u "About") strings
       = Some (I18nWorkflow.JDict [ (u "comment", I18nWorkflow.JStr (u "menu item")) ]).
Proof.
  destruct (I18nWorkflow.update_catalog (H := Latin1) (Some sample_catalog) (u "es")
              sample_translations) as [[content changed]|] eqn:Hfirst;
    [|vm_compute in Hfirst; discriminate].
  destruct (@C10_merge_frame Latin1 (Some sample_catalog) (u "es") sample_translations
              content changed Hfirst) as (strings & Hcontent & Hframe).
  exists content, changed, strings. split; [reflexivity|]. split; [exact Hcontent|].
  rewrite (Hframe (u "About")); [vm_compute; reflexivity|].
  vm_compute. intros Hin.
  apply elem_of_cons in Hin. destruct Hin as [Hin|Hin]; [discriminate|].
  apply elem_of_cons in Hin. destruct Hin as [Hin|Hin]; [discriminate|].
  apply elem_of_nil in Hin. exact Hin.
Defined.

(** * Further properties *)

(** ** The retry loop, for any service *)

Section RetryLoop.
Context `{PyUnicode}.
Variable MAX_RETRIES : nat.
Variable service : Service.

Lemma validate_translation_true (s t : str) :
  (validate_translation s t).1 = true -> validate_translation s t = (true, reason_ok).
Proof.
  rewrite validate_translation_unfold.
  repeat (match goal with
          | |- context [decide ?P] => destruct (decide P)
          end; cbn [fst]; try discriminate).
  reflexivity.
Qed.

(** The state after the pass of one attempt over the pending sources. *)
Lemma check_pending_state (translated : gmap str str) (pending : list str) (st : OrchState) :
  check_pending translated pending st =
    ((check_pending translated pending st).1.1,
     List.filter (fun s => negb (accepted translated s)) pending,
     List.map (issue_for translated)
       (List.filter (fun s => negb (accepted translated s)) pending))
  /\ calls (check_pending translated pending st).1.1 = calls st
  /\ (forall s,
        final_targets (check_pending translated pending st).1.1 !! s =
        if bool_decide (s ∈ pending) && accepted translated s
        then Some (target_for translated s) else final_targets st !! s)
  /\ (forall s,
        validations (check_pending translated pending st).1.1 !! s =
        if bool_decide (s ∈ pending) && accepted translated s
        then Some validation_ok else validations st !! s).
Proof.
  destruct (check_pending_spec translated pending st) as (st' & -> & Hc & Hft & Hval).
  cbn [fst]. repeat split; assumption.
Qed.

(** One attempt: a request, then either the next attempt or the end of the
    batch. *)
Lemma attempt_loop_step (attempt : nat) (rest : list nat) (p : str) (ps : list str)
    (feedback : option (list (str * Reason))) (st : OrchState) :
  attempt_loop MAX_RETRIES service (attempt :: rest) (p :: ps) feedback st =
  match service (length (calls st))
          {| sources := p :: ps; validation_feedback := feedback |} with
  | None =>
      RuntimeError (calls st ++ [{| sources := p :: ps; validation_feedback := feedback |}])
  | Some translated =>
      let st2 :=
        (check_pending translated (p :: ps)
           {| final_targets := final_targets st; validations := validations st;
              calls := calls st ++ [{| sources := p :: ps;
                                       validation_feedback := feedback |}] |}).1.1 in
      let next_pending := List.filter (fun s => negb (accepted translated s)) (p :: ps) in
      if negb (bool_decide (next_pending = [])) && (attempt <? MAX_RETRIES)%nat
      then attempt_loop MAX_RETRIES service rest next_pending
             (Some (List.map (issue_for translated) next_pending)) st2
      else Ok (fall_back next_pending st2)
  end.
Proof.
  cbn [attempt_loop]. destruct (service _ _) as [translated|]; [|reflexivity].
  match goal with
  | |- context [check_pending translated (p :: ps) ?st1] =>
      destruct (check_pending_state translated (p :: ps) st1) as (Hchk & _)
  end.
  rewrite Hchk at 1. reflexivity.
Qed.

Lemma sound_check_pending (translated : gmap str str) (pending : list str) (st : OrchState) :
  (forall s, sound_entry st s) ->
  forall s, sound_entry (check_pending translated pending st).1.1 s.
Proof.
  intros Hsound s. unfold sound_entry.
  destruct (check_pending_state translated pending st) as (_ & _ & Hft & Hval).
  rewrite Hft, Hval.
  destruct (bool_decide (s ∈ pending) && accepted translated s) eqn:Hacc.
  - apply andb_true_iff in Hacc. destruct Hacc as [_ Hacc].
    eexists. split; [reflexivity|]. apply validate_translation_true. exact Hacc.
  - apply Hsound.
Qed.

Lemma sound_fall_back (next_pending : list str) (st : OrchState) :
  (forall s, sound_entry st s) ->
  forall s, sound_entry (fall_back next_pending st) s.
Proof.
  intros Hsound s. unfold sound_entry.
  destruct (fall_back_spec next_pending st) as (_ & Hft & Hval).
  rewrite Hft, Hval. destruct (bool_decide (s ∈ next_pending)); [reflexivity|].
  apply Hsound.
Qed.

(** A batch that returns leaves every source it was given recorded, and
    keeps the records of the batches before it. *)
Lemma attempt_loop_records (k : nat) :
  forall a pending feedback st st',
    (a + k = MAX_RETRIES)%nat ->
    attempt_loop MAX_RETRIES service (seq a (S k)) pending feedback st = Ok st' ->
    (forall s, sound_entry st s) ->
    (forall s, sound_entry st' s)
    /\ (forall s, is_Some (validations st !! s) -> is_Some (validations st' !! s))
    /\ (forall s, s ∈ pending -> is_Some (validations st' !! s)).
Proof.
  induction k as [|k IH]; intros a pending feedback st st' Hak Hrun Hsound;
    (destruct pending as [|p ps];
     [ cbn in Hrun; injection Hrun as <-;
       split; [exact Hsound|]; split; [auto|];
       intros s Hin; apply elem_of_nil in Hin; contradiction |]);
    cbn [seq] in Hrun; rewrite attempt_loop_step in Hrun;
    destruct (service _ _) as [translated|]; try discriminate;
    cbv zeta in Hrun;
    match type of Hrun with
    | context [check_pending translated (p :: ps) ?st1] =>
        pose proof (sound_check_pending translated (p :: ps) st1 Hsound) as Hsound2;
        destruct (check_pending_state translated (p :: ps) st1) as (_ & _ & _ & Hval2);
        set (st2 := (check_pending translated (p :: ps) st1).1.1) in *
    end;
    cbn [validations] in Hval2;
    set (next_pending := List.filter (fun s => negb (accepted translated s)) (p :: ps)) in *.
  - replace (a <? MAX_RETRIES)%nat with false in Hrun
      by (symmetry; apply Nat.ltb_ge; lia).
    rewrite andb_false_r in Hrun. injection Hrun as <-.
    destruct (fall_back_spec next_pending st2) as (_ & _ & Hval').
    split; [apply sound_fall_back; exact Hsound2|]. split.
    + intros s Hs. rewrite Hval'. destruct (bool_decide (s ∈ next_pending)); [eauto|].
      rewrite Hval2.
      destruct (bool_decide (s ∈ p :: ps) && accepted translated s); [eauto|exact Hs].
    + intros s Hin. rewrite Hval'.
      destruct (bool_decide (s ∈ next_pending)) eqn:Hnp; [eauto|].
      rewrite Hval2, bool_decide_eq_true_2 by exact Hin. cbn [andb].
      destruct (accepted translated s) eqn:Hacc; [eauto|].
      apply bool_decide_eq_false_1 in Hnp. exfalso. apply Hnp.
      apply list_elem_of_In, List.filter_In. split.
      * apply list_elem_of_In. exact Hin.
      * rewrite Hacc. reflexivity.
  - assert (Hkeep : forall s, is_Some (validations st !! s) ->
                              is_Some (validations st2 !! s)).
    { intros s Hs. rewrite Hval2.
      destruct (bool_decide (s ∈ p :: ps) && accepted translated s); [eauto|exact Hs]. }
    assert (Hdone : forall s, s ∈ p :: ps -> s ∉ next_pending ->
                              is_Some (validations st2 !! s)).
    { intros s Hin Hnp. rewrite Hval2, bool_decide_eq_true_2 by exact Hin. cbn [andb].
      destruct (accepted translated s) eqn:Hacc; [eauto|].
      exfalso. apply Hnp. apply list_elem_of_In, List.filter_In. split.
      - apply list_elem_of_In. exact Hin.
      - rewrite Hacc. reflexivity. }
    destruct (negb (bool_decide (next_pending = [])) && (a <? MAX_RETRIES)%nat) eqn:Hgo.
    + apply IH in Hrun; [|lia|exact Hsound2].
      destruct Hrun as (Hs' & Hkeep' & Hcov').
      split; [exact Hs'|]. split; [auto|].
      intros s Hin. destruct (decide (s ∈ next_pending)) as [Hnp|Hnp]; auto.
    + injection Hrun as <-.
      destruct (fall_back_spec next_pending st2) as (_ & _ & Hval').
      split; [apply sound_fall_back; exact Hsound2|]. split.
      * intros s Hs. rewrite Hval'.
        destruct (bool_decide (s ∈ next_pending)); [eauto | apply Hkeep; exact Hs].
      * intros s Hin. rewrite Hval'.
        destruct (bool_decide (s ∈ next_pending)) eqn:Hnp; [eauto|].
        apply bool_decide_eq_false_1 in Hnp. auto.
Qed.

Lemma translate_batches_records (batches : list (list str)) :
  forall st st',
    translate_batches MAX_RETRIES service batches st = Ok st' ->
    (forall s, sound_entry st s) ->
    (forall s, sound_entry st' s)
    /\ (forall s, is_Some (validations st !! s) -> is_Some (validations st' !! s))
    /\ (forall s, s ∈ concat batches -> is_Some (validations st' !! s)).
Proof.
  induction batches as [|batch rest IH]; intros st st' Hrun Hsound;
    cbn [translate_batches] in Hrun.
  - injection Hrun as <-. split; [exact Hsound|]. split; [auto|].
    intros s Hin. apply elem_of_nil in Hin. contradiction.
  - destruct (translate_batch MAX_RETRIES service batch st) as [st1|] eqn:Hbatch;
      [|discriminate].
    unfold translate_batch in Hbatch. rewrite Nat.add_1_r in Hbatch.
    apply (attempt_loop_records MAX_RETRIES 0) in Hbatch; [|lia|exact Hsound].
    destruct Hbatch as (Hs1 & Hkeep1 & Hcov1).
    destruct (IH _ _ Hrun Hs1) as (Hs' & Hkeep' & Hcov').
    split; [exact Hs'|]. split; [auto|].
    intros s Hin. cbn [concat] in Hin. apply elem_of_app in Hin.
    destruct Hin as [Hin|Hin]; auto.
Qed.

Lemma request_of_weaken (pending batch : list str) (request : Request) :
  (forall s, s ∈ pending -> s ∈ batch) ->
  (length pending <= length batch)%nat ->
  request_of pending request -> request_of batch request.
Proof.
  intros Hsub Hlen (Hne & Hin & Hl & Hfb).
  split; [exact Hne|]. split; [auto|]. split; [lia|exact Hfb].
Qed.

Lemma rejected_sub (translated : gmap str str) (pending : list str) :
  (forall s, s ∈ List.filter (fun s => negb (accepted translated s)) pending -> s ∈ pending)
  /\ (length (List.filter (fun s => negb (accepted translated s)) pending)
      <= length pending)%nat.
Proof.
  split.
  - intros s Hs. apply list_elem_of_In, List.filter_In in Hs.
    apply list_elem_of_In. tauto.
  - apply List.filter_length_le.
Qed.

Lemma issues_sources (translated : gmap str str) (l : list str) :
  List.map fst (List.map (issue_for translated) l) = l.
Proof.
  rewrite List.map_map. unfold issue_for. cbn [fst]. apply List.map_id.
Qed.

(** The requests of one batch: at least one and at most the attempts left,
    each for a non-empty part of the batch, each retry listing its sources
    in the feedback. *)
Lemma attempt_loop_issued (k : nat) :
  forall a pending feedback st,
    (a + k = MAX_RETRIES)%nat -> pending ≠ [] ->
    feedback_matches {| sources := pending; validation_feedback := feedback |} ->
    exists new,
      issued_of calls
        (attempt_loop MAX_RETRIES service (seq a (S k)) pending feedback st)
      = calls st ++ new
      /\ (1 <= length new <= S k)%nat
      /\ Forall (request_of pending) new.
Proof.
  induction k as [|k IH]; intros a pending feedback st Hak Hne Hfb;
    (destruct pending as [|p ps]; [contradiction|]);
    cbn [seq]; rewrite attempt_loop_step;
    (assert (Hfirst : request_of (p :: ps)
                        {| sources := p :: ps; validation_feedback := feedback |})
       by (split; [discriminate|]; split; [auto|]; split; [cbn; lia|exact Hfb]));
    (destruct (service _ _) as [translated|];
     [| exists [{| sources := p :: ps; validation_feedback := feedback |}];
        cbn [issued_of length]; split; [reflexivity|]; split; [lia|];
        constructor; [exact Hfirst|constructor] ]);
    cbv zeta;
    match goal with
    | |- context [check_pending translated (p :: ps) ?st1] =>
        destruct (check_pending_state translated (p :: ps) st1) as (_ & Hc2 & _);
        set (st2 := (check_pending translated (p :: ps) st1).1.1) in *
    end;
    cbn [calls] in Hc2;
    destruct (rejected_sub translated (p :: ps)) as [Hsub Hlen];
    set (next_pending := List.filter (fun s => negb (accepted translated s)) (p :: ps)) in *.
  - replace (a <? MAX_RETRIES)%nat with false by (symmetry; apply Nat.ltb_ge; lia).
    rewrite andb_false_r. cbn [issued_of].
    destruct (fall_back_spec next_pending st2) as (-> & _).
    exists [{| sources := p :: ps; validation_feedback := feedback |}].
    split; [exact Hc2|]. split; [cbn; lia|]. constructor; [exact Hfirst|constructor].
  - destruct (negb (bool_decide (next_pending = [])) && (a <? MAX_RETRIES)%nat) eqn:Hgo.
    + apply andb_true_iff in Hgo. destruct Hgo as [Hgo _].
      apply negb_true_iff, bool_decide_eq_false_1 in Hgo.
      destruct (IH (S a) next_pending
                  (Some (List.map (issue_for translated) next_pending)) st2)
        as (new & Hnew & Hlen' & Hall); [lia|exact Hgo| |].
      { unfold feedback_matches. cbn. apply issues_sources. }
      exists ({| sources := p :: ps; validation_feedback := feedback |} :: new).
      cbn [seq] in Hnew. rewrite Hnew, Hc2, <- app_assoc. split; [reflexivity|].
      split; [cbn; lia|]. constructor; [exact Hfirst|].
      eapply List.Forall_impl; [|exact Hall].
      intros request. apply request_of_weaken; assumption.
    + cbn [issued_of]. destruct (fall_back_spec next_pending st2) as (-> & _).
      exists [{| sources := p :: ps; validation_feedback := feedback |}].
      split; [exact Hc2|]. split; [cbn; lia|]. constructor; [exact Hfirst|constructor].
Qed.

(** A batch raises exactly at a request the service fails on, which is the
    last request issued. *)
Lemma attempt_loop_raises (k : nat) :
  forall a pending feedback st issued,
    attempt_loop MAX_RETRIES service (seq a (S k)) pending feedback st
      = RuntimeError issued ->
    exists before request,
      issued = before ++ [request] /\ service (length before) request = None.
Proof.
  induction k as [|k IH]; intros a pending feedback st issued;
    (destruct pending as [|p ps]; [discriminate|]);
    cbn [seq]; rewrite attempt_loop_step;
    (destruct (service _ _) as [translated|] eqn:Hcall;
     [| intros [= <-]; eexists _, _; split; [reflexivity|exact Hcall] ]);
    cbv zeta.
  - cbn [attempt_loop]. destruct (_ && _); discriminate.
  - destruct (_ && _); [|discriminate]. apply IH.
Qed.

Lemma translate_batches_issued (batches : list (list str)) :
  Forall (fun batch => batch ≠ []) batches ->
  forall st,
  exists new,
    issued_of calls (translate_batches MAX_RETRIES service batches st) = calls st ++ new
    /\ (length new <= (MAX_RETRIES + 1) * length batches)%nat
    /\ Forall (fun request => exists batch, batch ∈ batches /\ request_of batch request) new
    /\ (forall st', translate_batches MAX_RETRIES service batches st = Ok st' ->
                    (length batches <= length new)%nat).
Proof.
  induction 1 as [|batch rest Hne _ IH]; intros st; cbn [translate_batches].
  - exists []. rewrite app_nil_r. cbn. split; [reflexivity|]. split; [lia|].
    split; [constructor|]. intros; lia.
  - destruct (attempt_loop_issued MAX_RETRIES 0 batch None st)
      as (new1 & Hnew1 & Hlen1 & Hall1); [lia|exact Hne|exact I|].
    assert (Hall1' : Forall (fun request =>
                               exists b, b ∈ batch :: rest /\ request_of b request) new1).
    { eapply List.Forall_impl; [|exact Hall1]. intros request Hr.
      exists batch. split; [left|exact Hr]. }
    unfold translate_batch. rewrite Nat.add_1_r in *.
    destruct (attempt_loop MAX_RETRIES service (seq 0 (S MAX_RETRIES)) batch None st)
      as [st1|issued]; cbn [issued_of] in Hnew1.
    + destruct (IH st1) as (new2 & Hnew2 & Hlen2 & Hall2 & Hlow2).
      exists (new1 ++ new2). rewrite Hnew2, Hnew1, <- app_assoc.
      split; [reflexivity|]. rewrite length_app. cbn [length].
      split; [lia|]. split.
      * apply Forall_app. split; [exact Hall1'|].
        eapply List.Forall_impl; [|exact Hall2]. intros request (b & Hb & Hr).
        exists b. split; [right; exact Hb|exact Hr].
      * intros st' Hrun. specialize (Hlow2 st' Hrun). lia.
    + exists new1. cbn [issued_of]. split; [exact Hnew1|].
      cbn [length]. split; [lia|]. split; [exact Hall1'|]. discriminate.
Qed.

Lemma translate_batches_raises (batches : list (list str)) :
  forall st issued,
    translate_batches MAX_RETRIES service batches st = RuntimeError issued ->
    exists before request,
      issued = before ++ [request] /\ service (length before) request = None.
Proof.
  induction batches as [|batch rest IH]; intros st issued; cbn [translate_batches];
    [discriminate|].
  destruct (translate_batch MAX_RETRIES service batch st) as [st1|issued1] eqn:Hbatch.
  - apply IH.
  - intros [= <-]. unfold translate_batch in Hbatch. rewrite Nat.add_1_r in Hbatch.
    exact (attempt_loop_raises _ _ _ _ _ _ Hbatch).
Qed.

End RetryLoop.

(** ** Slices *)

Lemma slices_step (m size : nat) :
  (0 < size)%nat -> (1 <= m)%nat ->
  S (((m - size) + size - 1) / size) = ((m + size - 1) / size)%nat.
Proof.
  intros Hsize Hm. destruct (Nat.le_gt_cases m size) as [Hle|Hgt].
  - replace (m - size)%nat with 0%nat by lia.
    rewrite (Nat.div_small (0 + size - 1) size) by lia.
    apply (Nat.div_unique _ _ 1 (m - 1)); lia.
  - replace (m + size - 1)%nat with ((m - size + size - 1) + 1 * size)%nat by lia.
    rewrite Nat.div_add by lia. lia.
Qed.

Lemma chunked_from_parts {A : Type} (size : nat) :
  (0 < size)%nat ->
  forall (n : nat) (values : list A),
    (length values <= n)%nat ->
    Forall (fun part => (1 <= length part <= size)%nat
                        /\ forall x, x ∈ part -> x ∈ values)
      (chunked_from n values size)
    /\ length (chunked_from n values size) = slices (length values) size.
Proof.
  intros Hsize. unfold slices.
  induction n as [|n IH]; intros values Hlen.
  - destruct values; [|simpl in Hlen; lia]. cbn [chunked_from length].
    split; [constructor|]. symmetry. apply Nat.div_small. lia.
  - destruct values as [|x values].
    + cbn [chunked_from length]. split; [constructor|].
      symmetry. apply Nat.div_small. lia.
    + cbn [chunked_from].
      destruct (IH (drop size (x :: values))) as [Hparts Hcount].
      { rewrite length_drop. simpl in *. lia. }
      split.
      * constructor.
        -- split.
           ++ rewrite length_take. simpl. lia.
           ++ intros y Hy. apply elem_of_take in Hy. destruct Hy as (i & Hy & _).
              apply list_elem_of_lookup. eauto.
        -- eapply List.Forall_impl; [|exact Hparts]. intros part [Hl Hin].
           split; [exact Hl|]. intros y Hy. specialize (Hin y Hy).
           exact (subseteq_drop size (x :: values) y Hin).
      * change (length (take size (x :: values)
                        :: chunked_from n (drop size (x :: values)) size))
          with (S (length (chunked_from n (drop size (x :: values)) size))).
        rewrite Hcount, length_drop. apply slices_step; [exact Hsize|simpl; lia].
Qed.

(** [chunked] cuts a list into consecutive slices: put together they give
    the list back, each holds between one and [size] values, and there are
    [ceil(len / size)] of them. *)
Theorem chunked_partition {A : Type} (values : list A) (size : nat) :
  (0 < size)%nat ->
  concat (chunked values size) = values
  /\ Forall (fun part => (1 <= length part <= size)%nat) (chunked values size)
  /\ length (chunked values size) = slices (length values) size.
Proof.
  intros Hsize. split; [apply concat_chunked; exact Hsize|].
  destruct (chunked_from_parts (A := A) size Hsize (length values) values) as [Hparts Hcount];
    [lia|].
  split; [|exact Hcount].
  eapply List.Forall_impl; [|exact Hparts]. intros part [Hl _]. exact Hl.
Qed.

(** ** The rows and the requests of a run, for any service *)

Section Runs.
Context `{PyUnicode}.
Variables batch_size max_retries : nat.
Variable service : Service.
Hypothesis batch_size_positive : (0 < batch_size)%nat.

Lemma initial_state_sound (s : str) : sound_entry initial_state s.
Proof. unfold sound_entry. cbn. rewrite lookup_empty. exact I. Qed.

Lemma batches_nonempty (values : list str) :
  Forall (fun batch => batch ≠ []) (chunked values batch_size).
Proof.
  destruct (chunked_from_parts (A := str) batch_size batch_size_positive
              (length values) values) as [Hparts _]; [lia|].
  eapply List.Forall_impl; [|exact Hparts].
  intros part [Hl _] ->. simpl in Hl. lia.
Qed.

(** The state a run that returns ends in. *)
Lemma run_state (candidates : list Candidate) (rows : list TranslationRow)
    (issued : list Request) :
  translate_candidates_with batch_size max_retries service candidates = Ok (rows, issued) ->
  exists st,
    rows = List.map (make_row st) candidates
    /\ issued = calls st
    /\ (forall s, sound_entry st s)
    /\ (forall s, s ∈ List.map source candidates -> exists v, validations st !! s = Some v).
Proof.
  unfold translate_candidates_with.
  destruct (translate_batches max_retries service
              (chunked (List.map source candidates) batch_size) initial_state)
    as [st|] eqn:Hrun; [|discriminate].
  intros [= <- <-]. exists st. split; [reflexivity|]. split; [reflexivity|].
  destruct (translate_batches_records max_retries service _ _ _ Hrun initial_state_sound)
    as (Hsound & _ & Hcov).
  rewrite concat_chunked in Hcov by exact batch_size_positive.
  split; [exact Hsound|exact Hcov].
Qed.

(** The row made from a sound state that has settled the candidate. *)
Lemma made_row_sound (st : OrchState) (candidate : Candidate) :
  sound_entry st (source candidate) ->
  (exists v, validations st !! source candidate = Some v) ->
  sound_row (make_row st candidate)
  /\ (row_status (make_row st candidate) = status_fallback
      <-> row_target (make_row st candidate) = row_source (make_row st candidate)).
Proof using Type.
  clear batch_size_positive.
  intros Hsound [v Hv]. unfold sound_entry in Hsound.
  unfold make_row, sound_row. cbn. rewrite Hv in *. cbn.
  destruct v.
  - destruct Hsound as (t & Ht & Hvalid). rewrite Ht. cbn. split; [left; auto|].
    destruct (decide (t ≠ source candidate)) as [Hne|Heq]; split; try congruence.
    intros _. apply dec_stable in Heq. exact Heq.
  - rewrite Hsound. cbn. split; [right; auto|].
    destruct (decide (source candidate ≠ source candidate)); [contradiction|].
    split; reflexivity.
  - contradiction.
Qed.

(** Every row a run returns belongs to the candidate at its place, and is
    either validated ([ok], with a target that passes
    [validate_translation]) or a fallback to the source text; the status is
    [fallback] exactly when the target is the source.  No row is left with
    [fallback_missing_translation]. *)
Theorem rows_validated_or_source (candidates : list Candidate)
    (rows : list TranslationRow) (issued : list Request) :
  translate_candidates_with batch_size max_retries service candidates = Ok (rows, issued) ->
  Forall2
    (fun candidate row =>
       row_source row = source candidate
       /\ row_contexts row = contexts candidate
       /\ sound_row row
       /\ (row_status row = status_fallback <-> row_target row = row_source row))
    candidates rows.
Proof.
  intros Hrun. destruct (run_state _ _ _ Hrun) as (st & -> & _ & Hsound & Hcov).
  apply Forall2_fmap_r, Forall2_same_length_lookup. split; [reflexivity|].
  intros i c c' Hc Hc'. rewrite Hc in Hc'. injection Hc' as <-.
  assert (Hin : source c ∈ List.map source candidates).
  { apply list_elem_of_In, List.in_map, list_elem_of_In.
    apply list_elem_of_lookup. eauto. }
  split; [reflexivity|]. split; [reflexivity|].
  apply made_row_sound; [apply Hsound|apply Hcov, Hin].
Qed.

(** A run that returns has issued at least one request per slice of
    candidates and at most [max_retries + 1]. *)
Theorem requests_per_batch (candidates : list Candidate)
    (rows : list TranslationRow) (issued : list Request) :
  translate_candidates_with batch_size max_retries service candidates = Ok (rows, issued) ->
  (slices (length candidates) batch_size <= length issued
   <= (max_retries + 1) * slices (length candidates) batch_size)%nat.
Proof.
  unfold translate_candidates_with.
  destruct (translate_batches_issued max_retries service
              (chunked (List.map source candidates) batch_size)
              (batches_nonempty _) initial_state)
    as (new & Hnew & Hup & _ & Hlow).
  destruct (translate_batches max_retries service
              (chunked (List.map source candidates) batch_size) initial_state)
    as [st|] eqn:Hrun; [|discriminate].
  intros [= _ <-]. cbn [issued_of initial_state calls app] in Hnew.
  specialize (Hlow st eq_refl). rewrite Hnew.
  destruct (chunked_from_parts (A := str) batch_size batch_size_positive
              (length (List.map source candidates)) (List.map source candidates))
    as [_ Hcount]; [lia|].
  fold (chunked (List.map source candidates) batch_size) in Hcount.
  rewrite Hcount, List.length_map in *. lia.
Qed.

(** Every request of a run, returned or raised, asks for between one and
    [batch_size] sources of the candidates, and a request that carries
    feedback carries one issue per source it asks for, in the same order. *)
Theorem requests_well_formed (candidates : list Candidate) :
  Forall
    (fun request =>
       (1 <= length (sources request) <= batch_size)%nat
       /\ (forall s, s ∈ sources request -> s ∈ List.map source candidates)
       /\ feedback_matches request)
    (issued_of snd (translate_candidates_with batch_size max_retries service candidates)).
Proof.
  unfold translate_candidates_with.
  destruct (translate_batches_issued max_retries service
              (chunked (List.map source candidates) batch_size)
              (batches_nonempty _) initial_state)
    as (new & Hnew & _ & Hall & _).
  cbn [initial_state calls app] in Hnew.
  assert (Hissued : issued_of snd
            match translate_batches max_retries service
                    (chunked (List.map source candidates) batch_size) initial_state with
            | Ok st => Ok (List.map (make_row st) candidates, calls st)
            | RuntimeError issued => RuntimeError issued
            end = new).
  { rewrite <- Hnew. destruct (translate_batches _ _ _ _); reflexivity. }
  rewrite Hissued.
  destruct (chunked_from_parts (A := str) batch_size batch_size_positive
              (length (List.map source candidates)) (List.map source candidates))
    as [Hparts _]; [lia|].
  fold (chunked (List.map source candidates) batch_size) in Hparts.
  rewrite List.Forall_forall in Hparts.
  eapply List.Forall_impl; [|exact Hall].
  intros request (batch & Hbatch & Hne & Hsub & Hlen & Hfb).
  destruct (Hparts batch) as [Hl Hin]; [apply list_elem_of_In; exact Hbatch|].
  split; [|split; [auto|exact Hfb]].
  destruct (sources request); [contradiction|]. simpl in *. lia.
Qed.

(** A run raises only at a request the service fails on, and that request
    is the last one issued; a service that answers every request makes the
    run return. *)
Theorem run_raises_at_failed_request (candidates : list Candidate) :
  (forall issued,
     translate_candidates_with batch_size max_retries service candidates
       = RuntimeError issued ->
     exists before request,
       issued = before ++ [request] /\ service (length before) request = None)
  /\ ((forall n request, is_Some (service n request)) ->
      exists rows issued,
        translate_candidates_with batch_size max_retries service candidates
          = Ok (rows, issued)).
Proof using Type.
  assert (Hraise : forall issued,
            translate_candidates_with batch_size max_retries service candidates
              = RuntimeError issued ->
            exists before request,
              issued = before ++ [request] /\ service (length before) request = None).
  { intros issued. unfold translate_candidates_with.
    destruct (translate_batches _ _ _ _) as [st|issued'] eqn:Hrun; [discriminate|].
    intros [= <-]. exact (translate_batches_raises _ _ _ _ _ Hrun). }
  split; [exact Hraise|].
  intros Htotal.
  destruct (translate_candidates_with batch_size max_retries service candidates)
    as [[rows issued]|issued] eqn:Hrun; [eauto|].
  destruct (Hraise issued eq_refl) as (before & request & _ & Hfail).
  destruct (Htotal (length before) request) as [x Hx]. congruence.
Qed.

Lemma translate_batch_valid (texts batch : list str) (st : OrchState) :
  valid_service texts service -> batch ≠ [] ->
  (forall s, s ∈ batch -> s ∈ texts) ->
  exists st',
    translate_batch max_retries service batch st = Ok st'
    /\ length (calls st') = S (length (calls st))
    /\ (forall s, validations st' !! s =
                  if bool_decide (s ∈ batch) then Some validation_ok
                  else validations st !! s).
Proof using Type.
  clear batch_size_positive.
  intros Hvalid Hne Hsub. destruct batch as [|p ps]; [contradiction|].
  unfold translate_batch. rewrite Nat.add_1_r. cbn [seq]. rewrite attempt_loop_step.
  destruct (Hvalid (length (calls st))
              {| sources := p :: ps; validation_feedback := None |} Hsub)
    as (translated & -> & Hacc).
  cbn [sources] in Hacc. cbv zeta.
  match goal with
  | |- context [check_pending translated (p :: ps) ?st1] =>
      destruct (check_pending_state translated (p :: ps) st1) as (_ & Hc2 & _ & Hval2);
      set (st2 := (check_pending translated (p :: ps) st1).1.1) in *
  end.
  cbn [calls validations] in Hc2, Hval2.
  assert (Hnone : List.filter (fun s => negb (accepted translated s)) (p :: ps) = []).
  { destruct (List.filter _ (p :: ps)) as [|x l] eqn:E; [reflexivity|]. exfalso.
    assert (Hx : In x (List.filter (fun s => negb (accepted translated s)) (p :: ps)))
      by (rewrite E; left; reflexivity).
    apply List.filter_In in Hx. destruct Hx as [Hx Hrej].
    rewrite (Hacc x) in Hrej by (apply list_elem_of_In; exact Hx). discriminate. }
  rewrite Hnone. cbn.
  exists st2. split; [reflexivity|]. split; [rewrite Hc2, length_app; simpl; lia|].
  intros s. rewrite Hval2.
  destruct (bool_decide (s ∈ p :: ps)) eqn:Hin; [|reflexivity].
  apply bool_decide_eq_true_1 in Hin. rewrite (Hacc s Hin). reflexivity.
Qed.

Lemma translate_batches_valid (texts : list str) (batches : list (list str)) :
  valid_service texts service ->
  Forall (fun batch => batch ≠ [] /\ forall s, s ∈ batch -> s ∈ texts) batches ->
  forall st,
    (forall s v, validations st !! s = Some v -> v = validation_ok) ->
    exists st',
      translate_batches max_retries service batches st = Ok st'
      /\ length (calls st') = (length (calls st) + length batches)%nat
      /\ (forall s v, validations st' !! s = Some v -> v = validation_ok).
Proof using Type.
  clear batch_size_positive.
  intros Hvalid. induction 1 as [|batch rest [Hne Hsub] _ IH]; intros st Hok;
    cbn [translate_batches].
  - exists st. split; [reflexivity|]. split; [cbn; lia|exact Hok].
  - destruct (translate_batch_valid texts batch st Hvalid Hne Hsub)
      as (st1 & -> & Hc1 & Hval1).
    destruct (IH st1) as (st' & Hrun & Hc' & Hok').
    { intros s v. rewrite Hval1. destruct (bool_decide (s ∈ batch)); [congruence|].
      apply Hok. }
    exists st'. split; [exact Hrun|]. split; [cbn [length]; lia|exact Hok'].
Qed.

(** When the service answers the requests for the sources of the
    candidates, with answers that pass validation, the run returns after
    exactly one request per slice of candidates, and every row is validated
    [ok] with a target that passes [validate_translation]. *)
Theorem valid_service_one_request (candidates : list Candidate) :
  valid_service (List.map source candidates) service ->
  exists rows issued,
    translate_candidates_with batch_size max_retries service candidates = Ok (rows, issued)
    /\ length issued = slices (length candidates) batch_size
    /\ Forall
         (fun row =>
            row_validation row = validation_ok
            /\ validate_translation (row_source row) (row_target row) = (true, reason_ok))
         rows.
Proof.
  intros Hvalid.
  destruct (chunked_from_parts (A := str) batch_size batch_size_positive
              (length (List.map source candidates)) (List.map source candidates))
    as [Hparts Hcount]; [lia|].
  fold (chunked (List.map source candidates) batch_size) in Hparts, Hcount.
  destruct (translate_batches_valid (List.map source candidates)
              (chunked (List.map source candidates) batch_size) Hvalid)
    with (st := initial_state) as (st & Hrun & Hc & Hok).
  { eapply List.Forall_impl; [|exact Hparts]. intros part [Hlen Hsub].
    split; [|exact Hsub]. intros ->. simpl in Hlen. lia. }
  { intros s v. cbn. rewrite lookup_empty. discriminate. }
  exists (List.map (make_row st) candidates), (calls st).
  split; [unfold translate_candidates_with; rewrite Hrun; reflexivity|]. split.
  - rewrite Hc. cbn [initial_state calls length Nat.add].
    rewrite Hcount, List.length_map. reflexivity.
  - destruct (translate_batches_records max_retries service _ _ _ Hrun
                initial_state_sound) as (Hsound & _ & Hcov).
    rewrite concat_chunked in Hcov by exact batch_size_positive.
    apply List.Forall_forall. intros row Hrow.
    apply List.in_map_iff in Hrow. destruct Hrow as (c & <- & Hcin).
    assert (Hin : source c ∈ List.map source candidates)
      by (apply list_elem_of_In, List.in_map, Hcin).
    destruct (made_row_sound st c (Hsound _) (Hcov _ Hin)) as [Hrow _].
    assert (Hvalidation : row_validation (make_row st c) = validation_ok).
    { unfold make_row. cbn. destruct (Hcov _ Hin) as [v Hv]. rewrite Hv. cbn.
      exact (Hok _ _ Hv). }
    split; [exact Hvalidation|].
    destruct Hrow as [[_ Hvalidated]|[Hx _]]; [exact Hvalidated|congruence].
Qed.

End Runs.

(** ** Grouping *)

Section Grouping.
Context {V : Type} `{EqDecision V}.
Implicit Types (d : list (str * list V)) (pairs : list (str * V)).

Lemma dict_get_append (k k' : str) (v : V) d :
  dict_get k (dict_append k' v d) =
  if decide (k' = k) then Some (default [] (dict_get k d) ++ [v]) else dict_get k d.
Proof.
  unfold dict_append. destruct (decide (k' = k)) as [->|Hne].
  - apply dict_get_set_eq.
  - apply dict_get_set_ne. exact Hne.
Qed.

Lemma dict_get_append_pairs (k : str) pairs :
  forall d,
    dict_get k (append_pairs pairs d) =
    if bool_decide (is_Some (dict_get k d) \/ k ∈ List.map fst pairs)
    then Some (default [] (dict_get k d) ++ values_of k pairs)
    else None.
Proof.
  unfold append_pairs, values_of.
  induction pairs as [|[k' v] pairs IH]; intros d;
    cbn [fold_left List.map List.filter fst snd].
  - rewrite app_nil_r. destruct (dict_get k d) as [vs|] eqn:E.
    + rewrite bool_decide_eq_true_2; [reflexivity|]. left. eauto.
    + rewrite bool_decide_eq_false_2; [reflexivity|].
      intros [[x Hx]|Hin]; [discriminate|]. apply elem_of_nil in Hin. exact Hin.
  - rewrite IH, dict_get_append. destruct (decide (k' = k)) as [->|Hne].
    + rewrite (bool_decide_eq_true_2 (k = k)) by reflexivity.
      rewrite !bool_decide_eq_true_2; [|right; left|left; eauto].
      cbn [default from_option id List.map snd]. rewrite <- app_assoc. reflexivity.
    + rewrite (bool_decide_eq_false_2 (k' = k)) by exact Hne.
      destruct (decide (is_Some (dict_get k d) \/ k ∈ List.map fst pairs)) as [Hyes|Hno].
      * rewrite !bool_decide_eq_true_2; [reflexivity| |exact Hyes].
        destruct Hyes as [Hd|Hin]; [left; exact Hd|right; right; exact Hin].
      * rewrite !bool_decide_eq_false_2; [reflexivity| |exact Hno].
        intros [Hd|Hin]; [apply Hno; left; exact Hd|].
        apply elem_of_cons in Hin. destruct Hin as [->|Hin]; [contradiction|].
        apply Hno. right. exact Hin.
Qed.

Lemma elem_of_values_of (k : str) (v : V) pairs :
  v ∈ values_of k pairs <-> (k, v) ∈ pairs.
Proof.
  unfold values_of. rewrite !list_elem_of_In, List.in_map_iff. split.
  - intros ([k' v'] & <- & Hin). apply List.filter_In in Hin.
    destruct Hin as [Hin Hk]. apply bool_decide_eq_true_1 in Hk. cbn in Hk. subst k'.
    exact Hin.
  - intros Hin. exists (k, v). split; [reflexivity|].
    apply List.filter_In. split; [exact Hin|]. apply bool_decide_eq_true_2. reflexivity.
Qed.

Lemma append_pairs_app pairs1 pairs2 d :
  append_pairs (pairs1 ++ pairs2) d = append_pairs pairs2 (append_pairs pairs1 d).
Proof. unfold append_pairs. apply fold_left_app. Qed.

Lemma append_pairs_NoDup pairs :
  forall d, NoDup (List.map fst d) -> NoDup (List.map fst (append_pairs pairs d)).
Proof.
  unfold append_pairs.
  induction pairs as [|[k v] pairs IH]; intros d Hd; cbn [fold_left]; [exact Hd|].
  apply IH, dict_append_NoDup, Hd.
Qed.

End Grouping.

(** In a dictionary a key is bound to the value listed with it. *)
Lemma dict_get_elem_of {V : Type} (d : list (str * V)) (k : str) (v : V) :
  NoDup (List.map fst d) -> ((k, v) ∈ d <-> dict_get k d = Some v).
Proof.
  induction d as [|[k' w] d IH]; cbn [List.map fst dict_get]; intros Hd.
  - split; [intros Hin; apply elem_of_nil in Hin; contradiction|discriminate].
  - apply NoDup_cons in Hd. destruct Hd as [Hfresh Hd].
    rewrite elem_of_cons. destruct (decide (k' = k)) as [->|Hne].
    + split.
      * intros [[= ->]|Hin]; [reflexivity|].
        exfalso. apply Hfresh. apply list_elem_of_In, List.in_map_iff.
        exists (k, v). split; [reflexivity|apply list_elem_of_In; exact Hin].
      * intros [= ->]. left. reflexivity.
    + rewrite (IH Hd). split; [|auto]. intros [[= -> ->]|Hget]; [contradiction|exact Hget].
Qed.

(** ** What [build_candidates] returns *)

Section BuiltCandidates.
Import I18nWorkflow.
Context `{PyUnicode}.

Lemma group_targets (project : Project) (include_targets : list str) :
  forall grouped,
    fold_left
      (fun grouped target =>
         group_pairs (collect_code_keys project target)
           (group_pairs (collect_catalog_keys project target) grouped))
      include_targets grouped
    = append_pairs
        (flat_map (fun target => collect_catalog_keys project target
                                 ++ collect_code_keys project target) include_targets)
        grouped.
Proof.
  induction include_targets as [|t ts IH]; intros grouped; cbn [fold_left flat_map];
    [reflexivity|].
  rewrite IH, !append_pairs_app. reflexivity.
Qed.

(** The result of [build_candidates], from the pairs it groups. *)
Lemma build_candidates_grouped (project : Project) (include_targets : list str)
    (candidates : list Candidate) (plist_by_key : gmap str str) :
  build_candidates project include_targets = inl (candidates, plist_by_key) ->
  candidates =
    List.map
      (fun '(source, contexts) =>
         {| source := source; contexts := sorted context_leb (remove_dups contexts) |})
      (sorted lower_leb (append_pairs (scanned_pairs project include_targets) []))
  /\ dom plist_by_key = required.
Proof.
  unfold build_candidates, collect_plist_keys, scanned_pairs.
  destruct (fold_left plist_line (enumerate (pbxproj_lines project)) ([], ∅))
    as [out by_key].
  destruct (decide (dom by_key ≠ required)) as [|Hdom]; [discriminate|].
  intros [= <- <-]. split; [|apply dec_stable; exact Hdom].
  rewrite group_targets, append_pairs_app. reflexivity.
Qed.

Lemma plist_pairs_translatable (numbered : list (Z * str)) :
  forall acc,
    Forall (fun pair => looks_translatable pair.1 = true) acc.1 ->
    Forall (fun pair => looks_translatable pair.1 = true)
      (fold_left plist_line numbered acc).1.
Proof.
  induction numbered as [|[n text] numbered IH]; intros [out by_key] Hout;
    cbn [fold_left]; [exact Hout|].
  apply IH. unfold plist_line. destruct (search PLIST_KEY_PATTERN text) as [g|];
    [|exact Hout].
  destruct (looks_translatable (group g 2)) eqn:Hvalue; cbn [fst] in *; [|exact Hout].
  apply Forall_app. split; [exact Hout|]. constructor; [exact Hvalue|constructor].
Qed.

Lemma scanned_pairs_translatable (project : Project) (include_targets : list str) :
  Forall (fun pair => looks_translatable pair.1 = true)
    (scanned_pairs project include_targets).
Proof.
  unfold scanned_pairs. apply Forall_app. split.
  - apply List.Forall_forall. intros [s ctx] Hin. apply List.in_flat_map in Hin.
    destruct Hin as (t & _ & Hin). apply List.in_app_or in Hin. cbn [fst].
    destruct Hin as [Hin|Hin].
    + unfold collect_catalog_keys in Hin.
      destruct (decide (t = APP)); apply List.in_map_iff in Hin;
        destruct Hin as (key & [= <- _] & Hkey); apply List.filter_In in Hkey; tauto.
    + unfold collect_code_keys in Hin. apply List.in_map_iff in Hin.
      destruct Hin as (hit & [= <- _] & Hhit). apply List.filter_In in Hhit. tauto.
  - apply plist_pairs_translatable. constructor.
Qed.

(** C3's companion: the candidates are the scanned texts, grouped.  A
    (text, context) pair was scanned exactly when some candidate has that
    text as source and that context among its contexts. *)
Theorem candidates_group_scanned_pairs (project : Project) (include_targets : list str)
    (candidates : list Candidate) (plist_by_key : gmap str str) :
  build_candidates project include_targets = inl (candidates, plist_by_key) ->
  forall s ctx,
    (s, ctx) ∈ scanned_pairs project include_targets
    <-> exists candidate,
          candidate ∈ candidates /\ source candidate = s /\ ctx ∈ contexts candidate.
Proof.
  intros Hbuild s ctx.
  destruct (build_candidates_grouped _ _ _ _ Hbuild) as [-> _].
  set (pairs := scanned_pairs project include_targets).
  assert (Hnodup : NoDup (List.map fst (append_pairs pairs [])))
    by (apply append_pairs_NoDup; constructor).
  assert (Hget : forall k ctxs,
            (k, ctxs) ∈ sorted lower_leb (append_pairs pairs [])
            <-> (k ∈ List.map fst pairs /\ ctxs = values_of k pairs)).
  { intros k ctxs. rewrite (sorted_Permutation lower_leb).
    rewrite (dict_get_elem_of _ _ _ Hnodup), dict_get_append_pairs. cbn [dict_get].
    destruct (decide (k ∈ List.map fst pairs)) as [Hin|Hnin].
    - rewrite bool_decide_eq_true_2 by (right; exact Hin). cbn. split.
      + intros [= <-]. auto.
      + intros [_ ->]. reflexivity.
    - rewrite bool_decide_eq_false_2.
      + split; [discriminate|tauto].
      + intros [[x Hx]|Hin]; [discriminate|contradiction]. }
  split.
  - intros Hin.
    exists {| source := s;
              contexts := sorted context_leb (remove_dups (values_of s pairs)) |}.
    split; [|split; [reflexivity|]].
    + apply list_elem_of_In, List.in_map_iff. exists (s, values_of s pairs).
      split; [reflexivity|]. apply list_elem_of_In, Hget. split; [|reflexivity].
      apply list_elem_of_In, List.in_map_iff. exists (s, ctx).
      split; [reflexivity|apply list_elem_of_In; exact Hin].
    + cbn [contexts]. rewrite (sorted_Permutation context_leb), elem_of_remove_dups.
      apply elem_of_values_of. exact Hin.
  - intros (c & Hc & <- & Hctx).
    apply list_elem_of_In, List.in_map_iff in Hc. destruct Hc as ([k ctxs] & <- & Hk).
    apply list_elem_of_In, Hget in Hk. destruct Hk as [_ ->].
    cbn [source contexts] in *.
    rewrite (sorted_Permutation context_leb), elem_of_remove_dups in Hctx.
    apply elem_of_values_of. exact Hctx.
Qed.

(** The contexts of every candidate: at least one, no context twice, in the
    order of the key [(file, line, kind, target)]. *)
Theorem candidate_contexts_sorted (project : Project) (include_targets : list str)
    (candidates : list Candidate) (plist_by_key : gmap str str) :
  build_candidates project include_targets = inl (candidates, plist_by_key) ->
  Forall
    (fun candidate =>
       contexts candidate ≠ []
       /\ NoDup (contexts candidate)
       /\ StronglySorted (fun a b => context_leb a b = true) (contexts candidate))
    candidates.
Proof.
  intros Hbuild.
  destruct (build_candidates_grouped _ _ _ _ Hbuild) as [-> _].
  set (pairs := scanned_pairs project include_targets).
  assert (Hnodup : NoDup (List.map fst (append_pairs pairs [])))
    by (apply append_pairs_NoDup; constructor).
  apply List.Forall_forall. intros c Hc.
  apply List.in_map_iff in Hc. destruct Hc as ([k ctxs] & <- & Hk).
  apply list_elem_of_In in Hk. rewrite (sorted_Permutation lower_leb) in Hk.
  apply (dict_get_elem_of _ _ _ Hnodup) in Hk. rewrite dict_get_append_pairs in Hk.
  cbn [dict_get] in Hk. cbn [contexts].
  destruct (bool_decide _) eqn:Hin; [|discriminate]. injection Hk as <-.
  apply bool_decide_eq_true_1 in Hin. destruct Hin as [[x Hx]|Hin]; [discriminate|].
  split; [|split].
  - apply list_elem_of_In, List.in_map_iff in Hin. destruct Hin as ([k' ctx] & <- & Hin).
    assert (Hctx : ctx ∈ sorted context_leb (remove_dups (values_of k' pairs))).
    { rewrite (sorted_Permutation context_leb), elem_of_remove_dups.
      apply elem_of_values_of, list_elem_of_In. exact Hin. }
    cbn [default from_option id app fst] in *.
    intros Hnil. rewrite Hnil in Hctx. apply elem_of_nil in Hctx. exact Hctx.
  - rewrite (sorted_Permutation context_leb). apply NoDup_remove_dups.
  - apply sorted_StronglySorted; [exact context_leb_total | exact context_leb_trans].
Qed.

(** Every candidate was scanned, and what was scanned looks translatable. *)
Lemma built_translatable (project : Project) (include_targets : list str)
    (candidates : list Candidate) (plist_by_key : gmap str str) :
  build_candidates project include_targets = inl (candidates, plist_by_key) ->
  forall candidate, candidate ∈ candidates ->
    looks_translatable (source candidate) = true.
Proof.
  intros Hbuild c Hc.
  destruct (build_candidates_grouped _ _ _ _ Hbuild) as [-> _].
  set (pairs := scanned_pairs project include_targets) in *.
  assert (Hnodup : NoDup (List.map fst (append_pairs pairs [])))
    by (apply append_pairs_NoDup; constructor).
  apply list_elem_of_In, List.in_map_iff in Hc. destruct Hc as ([k ctxs] & <- & Hk).
  apply list_elem_of_In in Hk. rewrite (sorted_Permutation lower_leb) in Hk.
  apply (dict_get_elem_of _ _ _ Hnodup) in Hk. rewrite dict_get_append_pairs in Hk.
  cbn [dict_get] in Hk. cbn [source].
  destruct (bool_decide _) eqn:Hin; [|discriminate].
  apply bool_decide_eq_true_1 in Hin. destruct Hin as [[x Hx]|Hin]; [discriminate|].
  apply list_elem_of_In, List.in_map_iff in Hin. destruct Hin as ([k' ctx] & <- & Hin).
  exact (proj1 (List.Forall_forall _ _)
           (scanned_pairs_translatable project include_targets) _ Hin).
Qed.

Lemma looks_translatable_not_blank (text : str) :
  looks_translatable text = true -> is_blank text = false.
Proof.
  unfold looks_translatable, is_blank.
  destruct (bool_decide (strip text = [])); [discriminate|reflexivity].
Qed.

Lemma lstrip_snoc (c : N) (l : str) :
  isspace c = false -> exists l', lstrip (l ++ [c]) = l' ++ [c].
Proof.
  intros Hc. induction l as [|x l IH]; cbn [app lstrip].
  - rewrite Hc. exists []. reflexivity.
  - destruct (isspace x); [exact IH|]. exists (x :: l). reflexivity.
Qed.

Lemma strip_head (c : N) (text : str) :
  isspace c = false -> exists rest, strip (c :: text) = c :: rest.
Proof.
  intros Hc. unfold strip, rstrip. cbn [lstrip]. rewrite Hc. cbn [rev].
  destruct (lstrip_snoc c (rev text) Hc) as [l' ->].
  exists (rev l'). rewrite rev_app_distr. reflexivity.
Qed.

(** A text that looks translatable does not start with a percent sign. *)
Lemma looks_translatable_no_percent (text : str) :
  looks_translatable text = true -> startswith (u "%") text = false.
Proof.
  intros Hlooks. destruct (startswith (u "%") text) eqn:Hstart; [|reflexivity].
  destruct text as [|c text]; [discriminate|].
  cbn in Hstart. rewrite andb_true_r in Hstart. apply N.eqb_eq in Hstart.
  change (37 = c) in Hstart. subst c.
  destruct (strip_head 37 text eq_refl) as [rest Hstrip].
  unfold looks_translatable in Hlooks. rewrite Hstrip in Hlooks.
  rewrite bool_decide_eq_false_2 in Hlooks by discriminate.
  destruct (bool_decide (37 :: text ∈ SKIP_LITERALS)); [discriminate|].
  cbn in Hlooks. discriminate.
Qed.

(** Every candidate passed [looks_translatable]: its source is not blank,
    is not a skipped symbol name, does not start with a percent sign after
    trimming nor with an interpolation, and holds an ASCII letter. *)
Theorem candidates_look_translatable (project : Project) (include_targets : list str)
    (candidates : list Candidate) (plist_by_key : gmap str str) :
  build_candidates project include_targets = inl (candidates, plist_by_key) ->
  Forall
    (fun candidate =>
       looks_translatable (source candidate) = true
       /\ is_blank (source candidate) = false
       /\ (source candidate ∉ SKIP_LITERALS)
       /\ startswith (u "%") (strip (source candidate)) = false
       /\ startswith (u "\(") (source candidate) = false
       /\ existsb ascii_letter (source candidate) = true)
    candidates.
Proof.
  intros Hbuild. apply List.Forall_forall. intros c Hc.
  pose proof (built_translatable _ _ _ _ Hbuild c (proj2 (list_elem_of_In _ _) Hc))
    as Hlooks.
  split; [exact Hlooks|].
  unfold looks_translatable, is_blank in *.
  destruct (bool_decide (strip (source c) = [])); [discriminate|].
  destruct (bool_decide (source c ∈ SKIP_LITERALS)) eqn:Hskip; [discriminate|].
  destruct (startswith (u "%") (strip (source c))); [discriminate|].
  destruct (startswith (u "\(") (source c)); [discriminate|].
  destruct (existsb ascii_letter (source c)); [|discriminate].
  apply bool_decide_eq_false_1 in Hskip. auto.
Qed.

End BuiltCandidates.

(** ** What the merge writes *)

Section MergedCatalog.
Import I18nWorkflow.
Context `{PyUnicode}.

(** The entry [update_entry] returns, member by member. *)
Lemma update_entry_result (language v : str) (entry entry' : json) (is_changed : bool) :
  update_entry language v entry = Some (entry', is_changed) ->
  exists e e' localizations,
    entry = JDict e /\ entry' = JDict e'
    /\ default (JDict []) (dict_get (u "localizations") e) = JDict localizations
    /\ dict_get (u "localizations") e'
       = Some (JDict (dict_set language (string_unit v) localizations))
    /\ dict_get (u "extractionState") e'
       = Some (default (JStr (u "manual")) (dict_get (u "extractionState") e))
    /\ (forall f, f ≠ u "localizations" -> f ≠ u "extractionState" ->
                  dict_get f e' = dict_get f e)
    /\ exists previous,
         previous_value language localizations = Some previous
         /\ is_changed = differs previous v.
Proof.
  unfold update_entry. destruct entry as [| | | | | |e]; try discriminate.
  set (e1 := match dict_get (u "extractionState") e with
             | None => dict_set (u "extractionState") (JStr (u "manual")) e
             | Some _ => e
             end).
  assert (Hstate : dict_get (u "extractionState") e1
                   = Some (default (JStr (u "manual")) (dict_get (u "extractionState") e))).
  { subst e1. destruct (dict_get (u "extractionState") e) eqn:E; [exact E|].
    apply dict_get_set_eq. }
  assert (Hrest : forall f, f ≠ u "extractionState" -> dict_get f e1 = dict_get f e).
  { intros f Hf. subst e1. destruct (dict_get (u "extractionState") e); [reflexivity|].
    apply dict_get_set_ne. congruence. }
  rewrite (Hrest (u "localizations")) by discriminate.
  destruct (default (JDict []) (dict_get (u "localizations") e))
    as [| | | | | |localizations] eqn:Hloc; try discriminate.
  destruct (previous_value language localizations) as [previous|] eqn:Hprev;
    [|discriminate].
  intros [= <- <-]. eexists e, _, localizations.
  split; [reflexivity|]. split; [reflexivity|]. split; [exact Hloc|].
  split; [apply dict_get_set_eq|]. split; [|split].
  - rewrite dict_get_set_ne by discriminate. exact Hstate.
  - intros f Hf1 Hf2. rewrite dict_get_set_ne by congruence. apply Hrest, Hf2.
  - exists previous. split; [exact Hprev|reflexivity].
Qed.

(** The entry of a translated key after the loop is the updated stored
    entry, and the count grows by the number of translations that differ. *)
Lemma update_entries_result (language : str) (translations : list (str * str)) :
  NoDup (List.map fst translations) ->
  forall strings changed strings' changed',
    update_entries language translations strings changed = Some (strings', changed') ->
    (forall k v, (k, v) ∈ translations ->
       exists entry' is_changed,
         update_entry language v (default (JDict []) (dict_get k strings))
         = Some (entry', is_changed)
         /\ dict_get k strings' = Some entry')
    /\ changed' =
       (changed +
        length (List.filter
                  (fun item => differs (stored_value language item.1 strings) item.2)
                  translations))%nat
    /\ (forall k, k ∈ List.map fst strings' <->
                  k ∈ List.map fst strings \/ k ∈ List.map fst translations)
    /\ (NoDup (List.map fst strings) -> NoDup (List.map fst strings')).
Proof.
  induction translations as [|[source_key value] rest IH];
    intros Hnodup strings changed strings' changed' Hrun.
  - cbn [update_entries] in Hrun. injection Hrun as <- <-.
    split; [|split; [|split]].
    + intros k v Hin. apply elem_of_nil in Hin. contradiction.
    + cbn. lia.
    + intros k. cbn [List.map]. rewrite elem_of_nil. tauto.
    + auto.
  - cbn [List.map fst] in Hnodup. apply NoDup_cons in Hnodup.
    destruct Hnodup as [Hfresh Hnodup]. cbn [update_entries] in Hrun.
    destruct (update_entry language value _) as [[entry' c]|] eqn:Hentry; [|discriminate].
    destruct (IH Hnodup _ _ _ _ Hrun) as (Hat & Hcount & Hkeys & Hdup).
    assert (Hother : forall k, k ≠ source_key ->
              dict_get k (dict_set source_key entry' strings) = dict_get k strings).
    { intros k Hk. apply dict_get_set_ne. congruence. }
    split; [|split; [|split]].
    + intros k v Hin. apply elem_of_cons in Hin. destruct Hin as [[= -> ->]|Hin].
      * exists entry', c. split; [exact Hentry|].
        rewrite (update_entries_frame _ _ _ _ _ _ source_key Hrun Hfresh).
        apply dict_get_set_eq.
      * assert (Hk : k ≠ source_key).
        { intros ->. apply Hfresh, list_elem_of_In, List.in_map_iff.
          exists (source_key, v). split; [reflexivity|apply list_elem_of_In; exact Hin]. }
        destruct (Hat k v Hin) as (entry'' & c' & Hup & Hget).
        rewrite Hother in Hup by exact Hk. eauto.
    + rewrite Hcount. cbn [List.filter fst snd].
      assert (Hc : c = differs (stored_value language source_key strings) value).
      { destruct (update_entry_result _ _ _ _ _ Hentry)
          as (e & e' & locs & He & _ & Hloc & _ & _ & _ & previous & Hprev & ->).
        unfold stored_value. rewrite He, Hloc, Hprev. reflexivity. }
      assert (Hsame :
                List.filter
                  (fun item =>
                     differs (stored_value language item.1
                                (dict_set source_key entry' strings)) item.2) rest
                = List.filter
                    (fun item => differs (stored_value language item.1 strings) item.2)
                    rest).
      { apply List.filter_ext_in. intros [k v] Hin. cbn [fst snd].
        unfold stored_value. rewrite Hother; [reflexivity|].
        intros ->. apply Hfresh, list_elem_of_In, List.in_map_iff.
        exists (source_key, v). split; [reflexivity|exact Hin]. }
      rewrite Hsame, <- Hc. destruct c; cbn [length]; lia.
    + intros k. rewrite Hkeys, dict_set_keys. cbn [List.map fst].
      rewrite elem_of_cons.
      destruct (decide (source_key ∈ List.map fst strings)) as [Hin|Hnin].
      * rewrite bool_decide_eq_true_2 by exact Hin.
        split; [tauto|]. intros [?|[->|?]]; tauto.
      * rewrite bool_decide_eq_false_2 by exact Hnin.
        rewrite elem_of_app, list_elem_of_singleton. tauto.
    + intros Hs. apply Hdup, dict_set_NoDup, Hs.
Qed.

(** The entry of a translated key in the file a merge writes, from the
    stored one. *)
Lemma merged_entry (stored : option json) (language : str)
    (translations : list (str * str)) (content : json) (changed : nat) :
  NoDup (List.map fst translations) ->
  update_catalog stored language translations = Some (content, changed) ->
  forall k v, (k, v) ∈ translations ->
    exists e e' localizations,
      default (JDict []) (dict_get k (stored_strings stored)) = JDict e
      /\ dict_get k (stored_strings (Some content)) = Some (JDict e')
      /\ default (JDict []) (dict_get (u "localizations") e) = JDict localizations
      /\ dict_get (u "localizations") e'
         = Some (JDict (dict_set language (string_unit v) localizations))
      /\ dict_get (u "extractionState") e'
         = Some (default (JStr (u "manual")) (dict_get (u "extractionState") e))
      /\ (forall f, f ≠ u "localizations" -> f ≠ u "extractionState" ->
                    dict_get f e' = dict_get f e).
Proof.
  intros Hnodup Hrun k v Hin.
  destruct (update_catalog_result _ _ _ _ _ Hrun) as (strings' & Hloop & ->).
  destruct (update_entries_result _ _ Hnodup _ _ _ _ Hloop) as (Hat & _).
  destruct (Hat k v Hin) as (entry' & c & Hup & Hget).
  destruct (update_entry_result _ _ _ _ _ Hup)
    as (e & e' & locs & He & -> & Hlocs & Hloc & Hstate & Hrest & _).
  exists e, e', locs. split; [exact He|]. split.
  { change (stored_strings (Some (written strings'))) with (sorted lower_leb strings').
    rewrite dict_get_sorted by (intros a b; apply lower_leb_same_key). exact Hget. }
  auto.
Qed.

(** The value read back for a translated key is the translation. *)
Lemma merged_value (stored : option json) (language : str)
    (translations : list (str * str)) (content : json) (changed : nat) :
  NoDup (List.map fst translations) ->
  update_catalog stored language translations = Some (content, changed) ->
  forall k v, (k, v) ∈ translations ->
    stored_value language k (stored_strings (Some content)) = Some (JStr v).
Proof.
  intros Hnodup Hrun k v Hin.
  destruct (merged_entry _ _ _ _ _ Hnodup Hrun k v Hin)
    as (e & e' & locs & _ & Hread & _ & Hloc & _).
  unfold stored_value. rewrite Hread. cbn [default from_option id].
  rewrite Hloc. cbn [default from_option id]. unfold previous_value.
  rewrite dict_get_set_eq. reflexivity.
Qed.

(** Every translation is stored.  After a merge the entry of each
    translated key is an object whose ["localizations"] member binds the
    language to the string unit of the translation, in state [translated],
    and that has an ["extractionState"]; the value the next merge compares
    with is the translation. *)
Theorem merge_stores_translations (stored : option json) (language : str)
    (translations : list (str * str)) (content : json) (changed : nat) :
  NoDup (List.map fst translations) ->
  update_catalog stored language translations = Some (content, changed) ->
  forall k v, (k, v) ∈ translations ->
    exists e localizations,
      dict_get k (stored_strings (Some content)) = Some (JDict e)
      /\ dict_get (u "localizations") e = Some (JDict localizations)
      /\ dict_get language localizations = Some (string_unit v)
      /\ is_Some (dict_get (u "extractionState") e)
      /\ stored_value language k (stored_strings (Some content)) = Some (JStr v).
Proof.
  intros Hnodup Hrun k v Hin.
  destruct (merged_entry _ _ _ _ _ Hnodup Hrun k v Hin)
    as (e & e' & locs & _ & Hread & _ & Hloc & Hstate & _).
  exists e', (dict_set language (string_unit v) locs).
  split; [exact Hread|]. split; [exact Hloc|]. split; [apply dict_get_set_eq|].
  split; [rewrite Hstate; eauto|].
  exact (merged_value _ _ _ _ _ Hnodup Hrun k v Hin).
Qed.

(** A merge keeps the rest of a translated entry: every member other than
    ["localizations"] and ["extractionState"], an ["extractionState"] that
    was there ([manual] is set when there was none), and the localization
    of every other language. *)
Theorem merge_keeps_rest_of_entry (stored : option json) (language : str)
    (translations : list (str * str)) (content : json) (changed : nat) :
  NoDup (List.map fst translations) ->
  update_catalog stored language translations = Some (content, changed) ->
  forall k, k ∈ List.map fst translations ->
    exists e e' localizations localizations',
      default (JDict []) (dict_get k (stored_strings stored)) = JDict e
      /\ dict_get k (stored_strings (Some content)) = Some (JDict e')
      /\ (forall f, f ≠ u "localizations" -> f ≠ u "extractionState" ->
                    dict_get f e' = dict_get f e)
      /\ dict_get (u "extractionState") e'
         = Some (default (JStr (u "manual")) (dict_get (u "extractionState") e))
      /\ default (JDict []) (dict_get (u "localizations") e) = JDict localizations
      /\ dict_get (u "localizations") e' = Some (JDict localizations')
      /\ forall other, other ≠ language ->
           dict_get other localizations' = dict_get other localizations.
Proof.
  intros Hnodup Hrun k Hk.
  apply list_elem_of_In, List.in_map_iff in Hk. destruct Hk as ([k' v] & <- & Hin).
  apply list_elem_of_In in Hin. cbn [fst].
  destruct (merged_entry _ _ _ _ _ Hnodup Hrun k' v Hin)
    as (e & e' & locs & He & Hread & Hlocs & Hloc & Hstate & Hrest).
  exists e, e', locs, (dict_set language (string_unit v) locs).
  split; [exact He|]. split; [exact Hread|].
  split; [exact Hrest|]. split; [exact Hstate|]. split; [exact Hlocs|].
  split; [exact Hloc|].
  intros other Hother. apply dict_get_set_ne. congruence.
Qed.

(** The count a merge returns is the number of translations that differ
    from the value stored for the language; it is at most the number of
    translations. *)
Theorem merge_counts_differing_values (stored : option json) (language : str)
    (translations : list (str * str)) (content : json) (changed : nat) :
  NoDup (List.map fst translations) ->
  update_catalog stored language translations = Some (content, changed) ->
  changed =
    length (List.filter
              (fun item =>
                 differs (stored_value language item.1 (stored_strings stored)) item.2)
              translations)
  /\ (changed <= length translations)%nat.
Proof.
  intros Hnodup Hrun.
  destruct (update_catalog_result _ _ _ _ _ Hrun) as (strings' & Hloop & _).
  destruct (update_entries_result _ _ Hnodup _ _ _ _ Hloop) as (_ & Hcount & _).
  cbn [Nat.add] in Hcount. split; [exact Hcount|].
  rewrite Hcount. apply List.filter_length_le.
Qed.

(** The entries a merge writes are those stored and those translated, each
    key once when the stored keys differ, in the order of their lowered
    keys. *)
Theorem merge_writes_sorted_keys (stored : option json) (language : str)
    (translations : list (str * str)) (content : json) (changed : nat) :
  NoDup (List.map fst translations) ->
  update_catalog stored language translations = Some (content, changed) ->
  let keys := List.map fst (stored_strings (Some content)) in
  (forall k, k ∈ keys <->
             k ∈ List.map fst (stored_strings stored) \/ k ∈ List.map fst translations)
  /\ StronglySorted (fun a b => str_leb (lower a) (lower b) = true) keys
  /\ (NoDup (List.map fst (stored_strings stored)) -> NoDup keys).
Proof.
  intros Hnodup Hrun keys. subst keys.
  destruct (update_catalog_result _ _ _ _ _ Hrun) as (strings' & Hloop & ->).
  destruct (update_entries_result _ _ Hnodup _ _ _ _ Hloop) as (_ & _ & Hkeys & Hdup).
  change (stored_strings (Some (written strings'))) with (sorted lower_leb strings').
  assert (Hperm : Permutation (List.map fst (sorted lower_leb strings'))
                    (List.map fst strings'))
    by (apply Permutation_map, sorted_Permutation).
  split; [|split].
  - intros k. rewrite Hperm. apply Hkeys.
  - apply StronglySorted_map_key.
    apply (sorted_StronglySorted (lower_leb (V := json))).
    + intros a b. apply str_leb_total.
    + intros a b c. apply str_leb_trans.
  - intros Hs. rewrite Hperm. apply Hdup, Hs.
Qed.

End MergedCatalog.

(** ** What sanitising leaves *)

Section Sanitised.
Import I18nWorkflow.
Context `{PyUnicode}.

Lemma dict_get_pop_eq {V : Type} (k : str) (d : list (str * V)) :
  dict_get k (dict_pop k d) = None.
Proof.
  induction d as [|[k' v] d IH]; cbn [dict_pop List.filter fst]; [reflexivity|].
  destruct (decide (k' = k)) as [->|Hne].
  - rewrite bool_decide_eq_true_2 by reflexivity. exact IH.
  - rewrite bool_decide_eq_false_2 by exact Hne. cbn [negb dict_get].
    destruct (decide (k' = k)); [contradiction|exact IH].
Qed.

Lemma dict_get_pop_ne {V : Type} (k k' : str) (d : list (str * V)) :
  k ≠ k' -> dict_get k' (dict_pop k d) = dict_get k' d.
Proof.
  intros Hne. induction d as [|[k0 v] d IH]; cbn [dict_pop List.filter fst];
    [reflexivity|].
  destruct (decide (k0 = k)) as [->|Hne0].
  - rewrite bool_decide_eq_true_2 by reflexivity. cbn [negb dict_get].
    destruct (decide (k = k')); [contradiction|exact IH].
  - rewrite bool_decide_eq_false_2 by exact Hne0. cbn [negb dict_get].
    destruct (decide (k0 = k')); [reflexivity|exact IH].
Qed.

Lemma dict_pop_keys {V : Type} (k : str) (d : list (str * V)) :
  k ∉ List.map fst (dict_pop k d).
Proof.
  intros Hin. apply list_elem_of_In, List.in_map_iff in Hin.
  destruct Hin as ([k' v] & <- & Hin). apply List.filter_In in Hin.
  destruct Hin as [_ Hk]. cbn [fst] in Hk.
  rewrite bool_decide_eq_true_2 in Hk by reflexivity. discriminate.
Qed.

Lemma dict_get_None {V : Type} (k : str) (d : list (str * V)) :
  dict_get k d = None <-> k ∉ List.map fst d.
Proof.
  induction d as [|[k' v] d IH]; cbn [dict_get List.map fst].
  - split; [intros _; apply not_elem_of_nil|reflexivity].
  - rewrite not_elem_of_cons. destruct (decide (k' = k)) as [->|Hne].
    + split; [discriminate|]. intros [Hk _]. contradiction.
    + rewrite IH. split; [intros Hk; split; [congruence|exact Hk]|tauto].
Qed.

(** One entry, before and after. *)
Lemma sanitize_entry_result (language key : str) (entry entry' : json) (c : nat) :
  sanitize_entry language key entry = Some (entry', c) ->
  (entry' = entry /\ c = 0%nat
   /\ (startswith (u "%") key = false
       \/ exists e, entry = JDict e /\ auto_generated e = false))
  \/ (startswith (u "%") key = true
      /\ exists e e',
           entry = JDict e /\ entry' = JDict e'
           /\ auto_generated e = true /\ auto_generated e' = true
           /\ is_manual e' = false
           /\ (forall localizations,
                 dict_get (u "localizations") e' = Some (JDict localizations) ->
                 dict_get language localizations = None)
           /\ (forall f, f ≠ u "extractionState" -> f ≠ u "localizations" ->
                         dict_get f e' = dict_get f e)
           /\ (forall localizations,
                 dict_get (u "localizations") e = Some (JDict localizations) ->
                 exists localizations',
                   dict_get (u "localizations") e' = Some (JDict localizations')
                   /\ forall other, other ≠ language ->
                        dict_get other localizations' = dict_get other localizations)).
Proof.
  unfold sanitize_entry.
  destruct (startswith (u "%") key) eqn:Hkey; cbn [negb];
    [|intros [= <- <-]; left; auto].
  destruct entry as [| | | | | |e]; try discriminate.
  fold (auto_generated e). destruct (auto_generated e) eqn:Hauto; cbn [negb];
    [|intros [= <- <-]; left; split; [reflexivity|]; split; [reflexivity|]; right; eauto].
  set (step := if is_manual e then (dict_pop (u "extractionState") e, 1%nat)
               else (e, 0%nat)).
  assert (Hstep : is_manual step.1 = false
                  /\ (forall f, f ≠ u "extractionState" -> dict_get f step.1 = dict_get f e)).
  { subst step. destruct (is_manual e) eqn:Hm; cbn [fst].
    - split.
      + unfold is_manual. rewrite dict_get_pop_eq. reflexivity.
      + intros f Hf. apply dict_get_pop_ne. congruence.
    - split; [exact Hm|reflexivity]. }
  destruct step as [e1 c1]. cbn [fst] in Hstep. destruct Hstep as [Hm Hrest].
  assert (Hauto1 : auto_generated e1 = true).
  { unfold auto_generated. rewrite Hrest by discriminate. exact Hauto. }
  intros Hrun. right. split; [reflexivity|].
  destruct (dict_get (u "localizations") e1) as [x|] eqn:Hloc.
  - assert (Hsame : (exists locs, x = JDict locs /\ language ∈ List.map fst locs)
                    \/ (entry' = JDict e1
                        /\ forall locs, x = JDict locs -> language ∉ List.map fst locs)).
    { destruct x as [| | | | | |locs];
        try (right; injection Hrun as <- _; split; [reflexivity|discriminate]).
      destruct (decide (language ∈ List.map fst locs)) as [Hin|Hnin].
      - left. eauto.
      - right. rewrite bool_decide_eq_false_2 in Hrun by exact Hnin.
        injection Hrun as <- _. split; [reflexivity|]. intros ? [= <-]. exact Hnin. }
    destruct Hsame as [(locs & -> & Hin)|[-> Hnin]].
    + rewrite bool_decide_eq_true_2 in Hrun by exact Hin. injection Hrun as <- _.
      eexists e, _. split; [reflexivity|]. split; [reflexivity|].
      split; [exact Hauto|]. split.
      { unfold auto_generated. rewrite dict_get_set_ne by discriminate. exact Hauto1. }
      split.
      { unfold is_manual. rewrite dict_get_set_ne by discriminate. exact Hm. }
      split.
      { intros locs'. rewrite dict_get_set_eq. intros [= <-]. apply dict_get_pop_eq. }
      split.
      { intros f Hf1 Hf2. rewrite dict_get_set_ne by congruence. apply Hrest, Hf1. }
      intros locs0. rewrite <- (Hrest (u "localizations")) by discriminate.
      rewrite Hloc. intros [= <-]. eexists. split; [apply dict_get_set_eq|].
      intros other Hother. apply dict_get_pop_ne. congruence.
    + exists e, e1. split; [reflexivity|]. split; [reflexivity|].
      split; [exact Hauto|]. split; [exact Hauto1|]. split; [exact Hm|]. split.
      { intros locs. rewrite Hloc. intros [= ->]. apply dict_get_None. eauto. }
      split.
      { intros f Hf1 Hf2. apply Hrest, Hf1. }
      intros locs0. rewrite <- (Hrest (u "localizations")) by discriminate.
      intros Hl. exists locs0. rewrite (Hrest (u "localizations")) in Hl by discriminate.
      rewrite (Hrest (u "localizations")) by discriminate. split; [exact Hl|reflexivity].
  - injection Hrun as <- _. exists e, e1.
    split; [reflexivity|]. split; [reflexivity|].
    split; [exact Hauto|]. split; [exact Hauto1|]. split; [exact Hm|]. split.
    { intros locs. rewrite Hloc. discriminate. }
    split.
    { intros f Hf1 Hf2. apply Hrest, Hf1. }
    intros locs0. rewrite <- (Hrest (u "localizations")) by discriminate.
    rewrite Hloc. discriminate.
Qed.

(** A sanitised entry is left as it is by a second pass. *)
Lemma sanitize_entry_again (language key : str) (entry entry' : json) (c : nat) :
  sanitize_entry language key entry = Some (entry', c) ->
  sanitize_entry language key entry' = Some (entry', 0%nat).
Proof.
  intros Hrun.
  destruct (sanitize_entry_result _ _ _ _ _ Hrun)
    as [(-> & -> & _)|(Hkey & e & e' & _ & -> & _ & Hauto & Hm & Hloc & _)];
    [exact Hrun|].
  unfold sanitize_entry. rewrite Hkey. cbn [negb]. fold (auto_generated e').
  rewrite Hauto, Hm. cbn [negb].
  destruct (dict_get (u "localizations") e') as [[| | | | | |locs]|] eqn:Hl;
    try reflexivity.
  rewrite bool_decide_eq_false_2; [reflexivity|].
  apply dict_get_None, Hloc. reflexivity.
Qed.

Lemma sanitize_entries_items (language : str) (strings : list (str * json)) :
  forall strings' changed,
    sanitize_entries language strings = Some (strings', changed) ->
    Forall2
      (fun item item' =>
         item'.1 = item.1
         /\ exists c, sanitize_entry language item.1 item.2 = Some (item'.2, c))
      strings strings'.
Proof.
  induction strings as [|[key entry] rest IH]; intros strings' changed;
    cbn [sanitize_entries].
  - intros [= <- _]. constructor.
  - destruct (sanitize_entry language key entry) as [[entry' c]|] eqn:Hentry;
      [|discriminate].
    destruct (sanitize_entries language rest) as [[rest' c']|]; [|discriminate].
    intros [= <- _]. constructor; [|eapply IH; reflexivity].
    cbn [fst snd]. split; [reflexivity|]. eauto.
Qed.

Lemma sanitize_entries_get (language : str) (strings : list (str * json)) :
  forall strings' changed key,
    sanitize_entries language strings = Some (strings', changed) ->
    dict_get key strings' =
    match dict_get key strings with
    | None => None
    | Some entry => option_map fst (sanitize_entry language key entry)
    end.
Proof.
  intros strings' changed key Hrun.
  pose proof (sanitize_entries_items _ _ _ _ Hrun) as Hitems. clear Hrun.
  induction Hitems as [|[k entry] [k' entry'] rest rest' [Hk [c Hc]] _ IH];
    [reflexivity|].
  cbn [fst snd] in Hk, Hc. subst k'. cbn [dict_get].
  destruct (decide (k = key)) as [->|Hne]; [|exact IH].
  rewrite Hc. reflexivity.
Qed.

(** A list of entries that a pass leaves as they are. *)
Lemma sanitize_entries_fixed (language : str) (strings : list (str * json)) :
  Forall (fun item => sanitize_entry language item.1 item.2 = Some (item.2, 0%nat))
    strings ->
  sanitize_entries language strings = Some (strings, 0%nat).
Proof.
  induction 1 as [|[key entry] rest Hitem _ IH]; [reflexivity|].
  cbn [sanitize_entries]. cbn [fst snd] in Hitem. rewrite Hitem, IH. reflexivity.
Qed.

Lemma sanitize_entries_again (language : str) (strings strings' : list (str * json))
    (changed : nat) :
  sanitize_entries language strings = Some (strings', changed) ->
  Forall (fun item => sanitize_entry language item.1 item.2 = Some (item.2, 0%nat))
    strings'.
Proof.
  intros Hrun. pose proof (sanitize_entries_items _ _ _ _ Hrun) as Hitems.
  clear Hrun. induction Hitems as [|item item' rest rest' [Hk [c Hc]] _ IH];
    constructor; [|exact IH].
  rewrite Hk. exact (sanitize_entry_again _ _ _ _ _ Hc).
Qed.

(** The result of [sanitize_catalog_for_symbols], from the entries. *)
Lemma sanitize_catalog_result (stored after : option json) (language : str)
    (changed : nat) :
  sanitize_catalog_for_symbols stored language = Some (after, changed) ->
  exists strings',
    sanitize_entries language (stored_strings stored) = Some (strings', changed)
    /\ ((changed = 0%nat /\ after = stored)
        \/ exists source_language version,
             after = Some (JDict [ (u "sourceLanguage", source_language);
                                   (u "strings", JDict (sorted lower_leb strings'));
                                   (u "version", version) ])).
Proof.
  unfold sanitize_catalog_for_symbols, stored_strings.
  destruct stored as [[| | | | | |top]|]; try discriminate.
  - destruct (dict_get (u "strings") top) as [[| | | | | |strings]|];
      cbn [default from_option id]; try discriminate.
    + destruct (sanitize_entries language strings) as [[strings' n]|]; [|discriminate].
      destruct n as [|n]; intros [= <- <-]; exists strings'; split; try reflexivity;
        [left; auto|right; eauto].
    + cbn [sanitize_entries]. intros [= <- <-]. exists []. split; [reflexivity|].
      left. auto.
  - intros [= <- <-]. exists []. split; [reflexivity|]. left. auto.
Qed.

(** A pass that counts nothing changes nothing. *)
Lemma sanitize_entries_zero (language : str) (strings : list (str * json)) :
  forall strings',
    sanitize_entries language strings = Some (strings', 0%nat) -> strings' = strings.
Proof.
  induction strings as [|[k entry] rest IH]; intros strings';
    cbn [sanitize_entries]; [intros [= <-]; reflexivity|].
  destruct (sanitize_entry language k entry) as [[entry' c]|] eqn:Hentry;
    [|discriminate].
  destruct (sanitize_entries language rest) as [[rest' c']|] eqn:Hrest;
    [|discriminate].
  intros [= <- Hn]. assert (c = 0%nat /\ c' = 0%nat) as [-> ->] by lia.
  rewrite (IH _ eq_refl). f_equal. f_equal.
  destruct (sanitize_entry_result _ _ _ _ _ Hentry)
    as [(-> & _)|(Hk & e0 & e' & -> & -> & _)]; [reflexivity|].
  revert Hentry. unfold sanitize_entry. rewrite Hk. cbn [negb].
  destruct (negb _); [intros [= <-]; reflexivity|].
  destruct (is_manual e0).
  - destruct (dict_get (u "localizations") _) as [[| | | | | |locs]|];
      try discriminate.
    destruct (bool_decide _); discriminate.
  - destruct (dict_get (u "localizations") e0) as [[| | | | | |locs]|];
      try (intros [= <-]; reflexivity).
    destruct (bool_decide _); [discriminate|intros [= <-]; reflexivity].
Qed.

(** The entries of the file afterwards are the sanitised stored entries, up
    to their order. *)
Lemma sanitize_catalog_entries (stored after : option json) (language : str)
    (changed : nat) :
  sanitize_catalog_for_symbols stored language = Some (after, changed) ->
  exists strings',
    sanitize_entries language (stored_strings stored) = Some (strings', changed)
    /\ Permutation (stored_strings after) strings'
    /\ forall key, dict_get key (stored_strings after) = dict_get key strings'.
Proof.
  intros Hrun.
  destruct (sanitize_catalog_result _ _ _ _ Hrun)
    as (strings' & Hloop & [[-> ->]|(sl & version & ->)]); exists strings'.
  - pose proof (sanitize_entries_zero _ _ _ Hloop) as Hsame. subst strings'.
    split; [exact Hloop|]. split; reflexivity.
  - split; [exact Hloop|].
    change (stored_strings _) with (sorted lower_leb strings'). split.
    + apply sorted_Permutation.
    + intros key. apply dict_get_sorted. intros a b. apply lower_leb_same_key.
Qed.

(** The entry of a key afterwards is its sanitised stored entry. *)
Lemma sanitize_catalog_get (stored after : option json) (language : str)
    (changed : nat) (key : str) :
  sanitize_catalog_for_symbols stored language = Some (after, changed) ->
  dict_get key (stored_strings after) =
  match dict_get key (stored_strings stored) with
  | None => None
  | Some entry => option_map fst (sanitize_entry language key entry)
  end.
Proof.
  intros Hrun.
  destruct (sanitize_catalog_entries _ _ _ _ Hrun) as (strings' & Hloop & _ & Hget).
  rewrite Hget. exact (sanitize_entries_get _ _ _ _ key Hloop).
Qed.

(** Sanitising does what it is for: afterwards no entry of a key that starts
    with a percent sign and is marked as generated has the extraction state
    [manual] or a localization for the language. *)
Theorem sanitized_catalog_is_clean (stored after : option json) (language : str)
    (changed : nat) :
  sanitize_catalog_for_symbols stored language = Some (after, changed) ->
  forall key e,
    dict_get key (stored_strings after) = Some (JDict e) ->
    startswith (u "%") key = true ->
    truthy (default JNull (dict_get (u "isCommentAutoGenerated") e)) = true ->
    dict_get (u "extractionState") e ≠ Some (JStr (u "manual"))
    /\ forall localizations,
         dict_get (u "localizations") e = Some (JDict localizations) ->
         dict_get language localizations = None.
Proof.
  intros Hrun key e Hget Hkey Hauto.
  destruct (sanitize_catalog_entries _ _ _ _ Hrun) as (strings' & Hloop & _ & Hsame).
  rewrite Hsame in Hget.
  assert (Hfixed : sanitize_entry language key (JDict e) = Some (JDict e, 0%nat)).
  { pose proof (sanitize_entries_again _ _ _ _ Hloop) as Hall.
    clear - Hget Hall. induction Hall as [|[k entry] rest Hitem _ IH];
      [discriminate|].
    cbn [dict_get] in Hget. destruct (decide (k = key)) as [->|Hne].
    - injection Hget as ->. exact Hitem.
    - exact (IH Hget). }
  destruct (sanitize_entry_result _ _ _ _ _ Hfixed)
    as [(_ & _ & [Hk|(e0 & [= <-] & Ha)])
       |(_ & e0 & e' & [= <-] & [= <-] & _ & _ & Hm & Hloc & _)].
  - rewrite Hk in Hkey. discriminate.
  - unfold auto_generated in Ha. rewrite Ha in Hauto. discriminate.
  - split; [|exact Hloc].
    intros Hstate. unfold is_manual in Hm. rewrite Hstate in Hm.
    rewrite bool_decide_eq_true_2 in Hm by reflexivity. discriminate.
Qed.

(** A second pass finds nothing to do. *)
Lemma sanitize_catalog_again (stored after : option json) (language : str)
    (changed : nat) :
  sanitize_catalog_for_symbols stored language = Some (after, changed) ->
  sanitize_catalog_for_symbols after language = Some (after, 0%nat).
Proof.
  intros Hrun.
  destruct (sanitize_catalog_result _ _ _ _ Hrun)
    as (strings' & Hloop & [[-> ->]|(sl & version & ->)]); [exact Hrun|].
  pose proof (sanitize_entries_again _ _ _ _ Hloop) as Hagain.
  assert (Hsorted : Forall (fun item => sanitize_entry language item.1 item.2
                                        = Some (item.2, 0%nat))
                      (sorted lower_leb strings')).
  { apply List.Forall_forall. intros item Hitem.
    apply (proj1 (List.Forall_forall _ _) Hagain).
    apply list_elem_of_In. rewrite <- (sorted_Permutation lower_leb strings').
    apply list_elem_of_In. exact Hitem. }
  change (sanitize_catalog_for_symbols
            (Some (JDict [ (u "sourceLanguage", sl);
                           (u "strings", JDict (sorted lower_leb strings'));
                           (u "version", version) ])) language)
    with (match sanitize_entries language (sorted lower_leb strings') with
          | None => None
          | Some (strings2, n) =>
              match n with
              | O => Some (Some (JDict [ (u "sourceLanguage", sl);
                                         (u "strings", JDict (sorted lower_leb strings'));
                                         (u "version", version) ]), 0%nat)
              | S _ =>
                  Some (Some (JDict [ (u "sourceLanguage", sl);
                                      (u "strings", JDict (sorted lower_leb strings2));
                                      (u "version", version) ]), n)
              end
          end).
  rewrite (sanitize_entries_fixed _ _ Hsorted). reflexivity.
Qed.

(** Sanitising twice is sanitising once: the second pass returns 0 and
    leaves the file as the first one left it.  And a pass returns 0 exactly
    when it leaves the file as it found it. *)
Theorem sanitize_twice (stored after : option json) (language : str) (changed : nat) :
  sanitize_catalog_for_symbols stored language = Some (after, changed) ->
  sanitize_catalog_for_symbols after language = Some (after, 0%nat)
  /\ (changed = 0%nat <-> after = stored).
Proof.
  intros Hrun. pose proof (sanitize_catalog_again _ _ _ _ Hrun) as Hagain.
  split; [exact Hagain|]. split.
  - intros ->. destruct (sanitize_catalog_result _ _ _ _ Hrun)
      as (strings' & _ & [[_ ->]|(sl & version & ->)]); [reflexivity|].
    revert Hrun. unfold sanitize_catalog_for_symbols.
    destruct stored as [[| | | | | |top]|]; try discriminate.
    destruct (default (JDict []) (dict_get (u "strings") top)); try discriminate.
    destruct (sanitize_entries language d) as [[strings2 [|n]]|]; try discriminate.
    intros [= <-]. reflexivity.
  - intros ->. rewrite Hrun in Hagain. injection Hagain as ->. reflexivity.
Qed.

(** What sanitising does not touch: the entry of every key that does not
    start with a percent sign, every entry that is not marked as generated,
    and in the entries it does change every member other than
    ["extractionState"] and ["localizations"] and the localization of every
    other language. *)
Theorem sanitize_frame (stored after : option json) (language : str) (changed : nat) :
  sanitize_catalog_for_symbols stored language = Some (after, changed) ->
  forall key,
    (startswith (u "%") key = false ->
     dict_get key (stored_strings after) = dict_get key (stored_strings stored))
    /\ forall e,
         dict_get key (stored_strings stored) = Some (JDict e) ->
         exists e',
           dict_get key (stored_strings after) = Some (JDict e')
           /\ (truthy (default JNull (dict_get (u "isCommentAutoGenerated") e)) = false ->
               e' = e)
           /\ (forall f, f ≠ u "extractionState" -> f ≠ u "localizations" ->
                         dict_get f e' = dict_get f e)
           /\ (forall localizations,
                 dict_get (u "localizations") e = Some (JDict localizations) ->
                 exists localizations',
                   dict_get (u "localizations") e' = Some (JDict localizations')
                   /\ forall other, other ≠ language ->
                        dict_get other localizations' = dict_get other localizations).
Proof.
  intros Hrun key.
  pose proof (sanitize_catalog_get _ _ _ _ key Hrun) as Hget.
  split.
  - intros Hkey. rewrite Hget.
    destruct (dict_get key (stored_strings stored)) as [entry|]; [|reflexivity].
    unfold sanitize_entry. rewrite Hkey. reflexivity.
  - intros e He. rewrite Hget, He.
    assert (Hdef : is_Some (sanitize_entry language key (JDict e))).
    { destruct (sanitize_catalog_entries _ _ _ _ Hrun) as (strings' & Hloop & _).
      clear - Hloop He. revert strings' changed Hloop.
      induction (stored_strings stored) as [|[k entry] rest IH];
        intros strings' changed; [discriminate|].
      cbn [sanitize_entries]. cbn [dict_get] in He.
      destruct (sanitize_entry language k entry) as [[entry' c]|] eqn:Hentry;
        [|discriminate].
      destruct (sanitize_entries language rest) as [[rest' c']|] eqn:Hrest;
        [|discriminate].
      intros _. destruct (decide (k = key)) as [->|Hne].
      - injection He as ->. rewrite Hentry. eauto.
      - eapply IH; [exact He|reflexivity]. }
    destruct Hdef as [[entry' c] Hentry]. rewrite Hentry. cbn [option_map fst].
    destruct (sanitize_entry_result _ _ _ _ _ Hentry)
      as [(-> & _ & _)|(_ & e0 & e' & [= <-] & -> & Hauto & _ & _ & _ & Hrest & Hlocs)].
    + exists e. split; [reflexivity|]. split; [reflexivity|]. split; [reflexivity|].
      intros locs Hl. exists locs. split; [exact Hl|reflexivity].
    + exists e'. split; [reflexivity|]. split.
      { intros Hfalse. unfold auto_generated in Hauto. rewrite Hauto in Hfalse.
        discriminate. }
      split; [exact Hrest|exact Hlocs].
Qed.

End Sanitised.

(** ** Escaped literals *)

Lemma replace_backslash_inj (a b : str) :
  I18nWorkflow.replace_char 92 [92; 92] a = I18nWorkflow.replace_char 92 [92; 92] b ->
  a = b.
Proof.
  unfold I18nWorkflow.replace_char. revert b.
  induction a as [|x a IH]; intros [|y b]; cbn [flat_map]; [reflexivity| | |].
  - destruct (y =? 92); discriminate.
  - destruct (x =? 92); discriminate.
  - destruct (x =? 92) eqn:Hx, (y =? 92) eqn:Hy; cbn [app];
      rewrite ?N.eqb_eq, ?N.eqb_neq in *.
    + intros [= Hrest]. subst. f_equal. apply IH, Hrest.
    + intros [= <- _]. contradiction.
    + intros [= -> _]. contradiction.
    + intros [= -> Hrest]. f_equal. apply IH, Hrest.
Qed.

Lemma replace_quote_head (a rest : str) :
  I18nWorkflow.replace_char 34 [92; 34] a ≠ 34 :: rest.
Proof.
  destruct a as [|x a]; cbn; [discriminate|].
  destruct (x =? 34) eqn:Hx; cbn [app]; [discriminate|].
  apply N.eqb_neq in Hx. intros [= -> _]. contradiction.
Qed.

Lemma replace_quote_inj (a b : str) :
  I18nWorkflow.replace_char 34 [92; 34] a = I18nWorkflow.replace_char 34 [92; 34] b ->
  a = b.
Proof.
  revert b.
  induction a as [|x a IH]; intros [|y b]; [reflexivity| | |].
  - cbn. destruct (y =? 34); discriminate.
  - cbn. destruct (x =? 34); discriminate.
  - unfold I18nWorkflow.replace_char. cbn [flat_map].
    fold (I18nWorkflow.replace_char 34 [92; 34] a).
    fold (I18nWorkflow.replace_char 34 [92; 34] b).
    destruct (x =? 34) eqn:Hx, (y =? 34) eqn:Hy; cbn [app];
      rewrite ?N.eqb_eq, ?N.eqb_neq in *.
    + intros [= Hrest]. subst. f_equal. apply IH, Hrest.
    + intros [= <- Hrest]. symmetry in Hrest. apply replace_quote_head in Hrest.
      contradiction.
    + intros [= -> Hrest]. apply replace_quote_head in Hrest. contradiction.
    + intros [= -> Hrest]. f_equal. apply IH, Hrest.
Qed.

Lemma replace_char_length (old x y : N) (text : str) :
  (length text <= length (I18nWorkflow.replace_char old [x; y] text))%nat
  /\ (old ∈ text ->
      (length text < length (I18nWorkflow.replace_char old [x; y] text))%nat).
Proof.
  unfold I18nWorkflow.replace_char.
  induction text as [|c text [IH1 IH2]]; cbn [flat_map].
  - split; [reflexivity|]. intros Hin. apply elem_of_nil in Hin. contradiction.
  - rewrite List.length_app. destruct (c =? old) eqn:Hc; cbn [length].
    + split; [lia|]. intros _. lia.
    + split; [lia|]. intros Hin. apply elem_of_cons in Hin.
      destruct Hin as [->|Hin]; [rewrite N.eqb_refl in Hc; discriminate|].
      specialize (IH2 Hin). lia.
Qed.

Lemma replace_char_absent (old : N) (new text : str) :
  old ∉ text -> I18nWorkflow.replace_char old new text = text.
Proof.
  unfold I18nWorkflow.replace_char.
  induction text as [|c text IH]; cbn [flat_map]; [reflexivity|].
  intros Hnin. apply not_elem_of_cons in Hnin. destruct Hnin as [Hne Hnin].
  rewrite (proj2 (N.eqb_neq c old)) by congruence. cbn [app]. rewrite IH by exact Hnin.
  reflexivity.
Qed.

(** The literal determines the text: two texts with the same escaped
    literal are the same text.  And a text is its own literal exactly when
    it holds no quotation mark and no backslash. *)
Theorem escape_string_literal_injective :
  (forall a b,
     I18nWorkflow.escape_string_literal a = I18nWorkflow.escape_string_literal b ->
     a = b)
  /\ (forall text,
        I18nWorkflow.escape_string_literal text = text
        <-> ((34 ∉ text) /\ (92 ∉ text))).
Proof.
  unfold I18nWorkflow.escape_string_literal. split.
  - intros a b Heq. apply replace_backslash_inj, replace_quote_inj, Heq.
  - intros text. split.
    + intros Heq.
      destruct (replace_char_length 92 92 92 text) as [H1 H1'].
      destruct (replace_char_length 34 92 34 (I18nWorkflow.replace_char 92 [92; 92] text))
        as [H2 H2'].
      rewrite Heq in H2, H2'.
      assert (Hb : 92 ∉ text) by (intros Hin; specialize (H1' Hin); lia).
      split; [|exact Hb].
      intros Hq. rewrite (replace_char_absent 92 _ _ Hb) in H2'.
      specialize (H2' Hq). lia.
    + intros [Hq Hb]. rewrite (replace_char_absent 92 _ _ Hb).
      apply replace_char_absent, Hq.
Qed.

(** ** What [apply_translations] writes *)

Section Applied.
Import I18nWorkflow.
Context `{PyUnicode}.

Lemma catalog_map_frame (group : str) (rows : list TranslationRow) (k : str) :
  k ∉ List.map row_source rows ->
  forall m,
    dict_get k
      (fold_left
         (fun m row =>
            if bool_decide (group ∈ List.map target (row_contexts row))
            then dict_set (row_source row) (row_target row) m else m)
         rows m)
    = dict_get k m.
Proof.
  induction rows as [|row rows IH]; intros Hk m; cbn [fold_left]; [reflexivity|].
  cbn [List.map] in Hk. apply not_elem_of_cons in Hk. destruct Hk as [Hne Hk].
  rewrite IH by exact Hk. destruct (bool_decide _); [|reflexivity].
  apply dict_get_set_ne. congruence.
Qed.

(** The dictionary of a catalog binds the source of each of its rows to the
    target of the row, when no two rows share a source. *)
Lemma catalog_map_get (group : str) (rows : list TranslationRow) (row : TranslationRow) :
  NoDup (List.map row_source rows) ->
  row ∈ rows ->
  group ∈ List.map target (row_contexts row) ->
  (row_source row, row_target row) ∈ catalog_map group rows.
Proof.
  intros Hnodup Hrow Hgroup.
  apply (dict_get_elem_of _ _ _ (catalog_map_NoDup group rows)).
  unfold catalog_map. generalize (@nil (str * str)) as m.
  induction rows as [|r rows IH]; intros m; [apply elem_of_nil in Hrow; contradiction|].
  cbn [List.map] in Hnodup. apply NoDup_cons in Hnodup. destruct Hnodup as [Hfresh Hnodup].
  cbn [fold_left]. apply elem_of_cons in Hrow. destruct Hrow as [<-|Hrow].
  - rewrite catalog_map_frame by exact Hfresh.
    rewrite bool_decide_eq_true_2 by exact Hgroup. apply dict_get_set_eq.
  - apply IH; assumption.
Qed.

Lemma catalog_map_sources (group : str) (rows : list TranslationRow) (k v : str) :
  (k, v) ∈ catalog_map group rows -> k ∈ List.map row_source rows.
Proof.
  intros Hin. destruct (decide (k ∈ List.map row_source rows)) as [|Hnin]; [assumption|].
  apply (dict_get_elem_of _ _ _ (catalog_map_NoDup group rows)) in Hin.
  unfold catalog_map in Hin. rewrite catalog_map_frame in Hin by exact Hnin.
  discriminate.
Qed.

Lemma translated_by_source_frame (rows : list TranslationRow) (k : str) :
  k ∉ List.map row_source rows ->
  forall m,
    dict_get k
      (fold_left (fun m row => dict_set (row_source row) (row_target row) m) rows m)
    = dict_get k m.
Proof.
  induction rows as [|row rows IH]; intros Hk m; cbn [fold_left]; [reflexivity|].
  cbn [List.map] in Hk. apply not_elem_of_cons in Hk. destruct Hk as [Hne Hk].
  rewrite IH by exact Hk. apply dict_get_set_ne. congruence.
Qed.

Lemma translated_by_source_get (rows : list TranslationRow) (row : TranslationRow) :
  NoDup (List.map row_source rows) ->
  row ∈ rows ->
  dict_get (row_source row) (translated_by_source rows) = Some (row_target row).
Proof.
  unfold translated_by_source. generalize (@nil (str * str)) as m.
  induction rows as [|r rows IH]; intros m Hnodup Hrow;
    [apply elem_of_nil in Hrow; contradiction|].
  cbn [List.map] in Hnodup. apply NoDup_cons in Hnodup. destruct Hnodup as [Hfresh Hnodup].
  cbn [fold_left]. apply elem_of_cons in Hrow. destruct Hrow as [<-|Hrow].
  - rewrite translated_by_source_frame by exact Hfresh. apply dict_get_set_eq.
  - apply IH; assumption.
Qed.

(** Every value the manifest assigns to a permission key and that looks
    translatable is among the pairs the scan of the manifest returns. *)
Lemma plist_values_scanned (numbered : list (Z * str)) :
  forall acc,
    (forall key v, acc.2 !! key = Some v -> looks_translatable v = true ->
                   v ∈ List.map fst acc.1) ->
    forall key v,
      (fold_left plist_line numbered acc).2 !! key = Some v ->
      looks_translatable v = true ->
      v ∈ List.map fst (fold_left plist_line numbered acc).1.
Proof.
  induction numbered as [|[n text] numbered IH]; intros [out by_key] Hacc;
    cbn [fold_left]; [exact Hacc|].
  apply IH. unfold plist_line. destruct (search PLIST_KEY_PATTERN text) as [g|];
    [|exact Hacc].
  cbn [fst snd] in Hacc.
  assert (Hkeys : forall key v,
            match by_key !! group g 1 with
            | None => <[group g 1 := group g 2]> by_key
            | Some _ => by_key
            end !! key = Some v ->
            looks_translatable v = true ->
            v = group g 2 \/ v ∈ List.map fst out).
  { intros key v. destruct (by_key !! group g 1) eqn:Hold; [eauto|].
    destruct (decide (group g 1 = key)) as [<-|Hne].
    - rewrite lookup_insert_eq. intros [= <-]. auto.
    - rewrite lookup_insert_ne by exact Hne. eauto. }
  destruct (looks_translatable (group g 2)) eqn:Hvalue; cbn [fst snd];
    intros key v Hget Hlooks.
  - rewrite List.map_app, elem_of_app. cbn [List.map fst].
    destruct (Hkeys key v Hget Hlooks) as [->|Hin]; [right; left|left; exact Hin].
  - destruct (Hkeys key v Hget Hlooks) as [->|Hin]; [congruence|exact Hin].
Qed.

(** The sources of the candidates are the texts that were scanned. *)
Lemma built_sources (project : Project) (include_targets : list str)
    (candidates : list Candidate) (plist_by_key : gmap str str) (s : str) :
  build_candidates project include_targets = inl (candidates, plist_by_key) ->
  s ∈ List.map source candidates
  <-> s ∈ List.map fst (scanned_pairs project include_targets).
Proof.
  intros Hbuild. destruct (build_candidates_grouped _ _ _ _ Hbuild) as [-> _].
  rewrite (candidate_sources
             (fun _ ctxs => sorted context_leb (remove_dups ctxs))).
  set (pairs := scanned_pairs project include_targets).
  rewrite (Permutation_map fst (sorted_Permutation lower_leb (append_pairs pairs []))).
  pose proof (dict_get_None s (append_pairs pairs [])) as Hnone.
  rewrite dict_get_append_pairs in Hnone. cbn [dict_get] in Hnone.
  destruct (decide (s ∈ List.map fst pairs)) as [Hin|Hnin].
  - rewrite bool_decide_eq_true_2 in Hnone by (right; exact Hin).
    split; [intros _; exact Hin|]. intros _.
    destruct (decide (s ∈ List.map fst (append_pairs pairs []))) as [|Hout];
      [assumption|].
    apply Hnone in Hout. discriminate.
  - rewrite bool_decide_eq_false_2 in Hnone.
    + split; [|contradiction]. intros Hin. exfalso.
      exact (proj1 Hnone eq_refl Hin).
    + intros [[x Hx]|Hin]; [discriminate|contradiction].
Qed.

(** The manifest value of a permission key that looks translatable is the
    source of a candidate. *)
Lemma built_manifest_values (project : Project) (include_targets : list str)
    (candidates : list Candidate) (plist_by_key : gmap str str) (key v : str) :
  build_candidates project include_targets = inl (candidates, plist_by_key) ->
  plist_by_key !! key = Some v ->
  looks_translatable v = true ->
  v ∈ List.map source candidates.
Proof.
  intros Hbuild Hget Hlooks. apply (built_sources _ _ _ _ v Hbuild).
  unfold scanned_pairs. rewrite List.map_app, elem_of_app. right.
  revert Hbuild. unfold build_candidates, collect_plist_keys.
  pose proof (plist_values_scanned (enumerate (pbxproj_lines project)) ([], ∅)) as Hscan.
  destruct (fold_left plist_line (enumerate (pbxproj_lines project)) ([], ∅))
    as [out by_key].
  destruct (decide (dom by_key ≠ required)); [discriminate|].
  intros [= _ <-]. cbn [fst snd] in Hscan. apply (Hscan) with (key := key).
  - intros k x. rewrite lookup_empty. discriminate.
  - exact Hget.
  - exact Hlooks.
Qed.

Lemma stored_value_ext (language key : str) (strings1 strings2 : list (str * json)) :
  dict_get key strings1 = dict_get key strings2 ->
  stored_value language key strings1 = stored_value language key strings2.
Proof. unfold stored_value. intros ->. reflexivity. Qed.

(** Merging and then sanitising keeps the translation of every key that
    does not start with a percent sign. *)
Lemma merged_then_sanitized (stored after : option json) (language : str)
    (translations : list (str * str)) (content : json) (changed sanitized : nat) :
  NoDup (List.map fst translations) ->
  update_catalog stored language translations = Some (content, changed) ->
  sanitize_catalog_for_symbols (Some content) language = Some (after, sanitized) ->
  forall k v, (k, v) ∈ translations ->
    startswith (u "%") k = false ->
    stored_value language k (stored_strings after) = Some (JStr v).
Proof.
  intros Hnodup Hmerge Hsan k v Hin Hk.
  rewrite <- (merged_value _ _ _ _ _ Hnodup Hmerge k v Hin).
  apply stored_value_ext. rewrite (sanitize_catalog_get _ _ _ _ k Hsan).
  destruct (dict_get k (stored_strings (Some content))) as [entry|]; [|reflexivity].
  unfold sanitize_entry. rewrite Hk. reflexivity.
Qed.

(** The rows of a run on the candidates of a scan: one row per candidate,
    no source twice, every source translatable. *)
Lemma built_rows (project : Project) (include_targets : list str)
    (candidates : list Candidate) (plist_by_key : gmap str str)
    (service : Service) (rows : list TranslationRow) (issued : list Request) :
  build_candidates project include_targets = inl (candidates, plist_by_key) ->
  translate_candidates service candidates = Ok (rows, issued) ->
  List.map row_source rows = List.map source candidates
  /\ NoDup (List.map row_source rows)
  /\ (forall row, row ∈ rows -> looks_translatable (row_source row) = true)
  /\ (forall row, row ∈ rows -> sound_row row).
Proof.
  intros Hbuild Hrun. unfold translate_candidates in Hrun.
  assert (Hsize : (0 < BATCH_SIZE)%nat) by (unfold BATCH_SIZE; lia).
  destruct (run_state _ _ _ Hsize _ _ _ Hrun) as (st & -> & _ & Hsound & Hcov).
  assert (Hsources : List.map row_source (List.map (make_row st) candidates)
                     = List.map source candidates).
  { rewrite List.map_map. reflexivity. }
  split; [exact Hsources|]. split; [|split].
  - rewrite Hsources. apply (build_candidates_order _ _ _ _ Hbuild).
  - intros row Hrow. apply list_elem_of_In, List.in_map_iff in Hrow.
    destruct Hrow as (c & <- & Hc). cbn [make_row row_source].
    apply (built_translatable _ _ _ _ Hbuild), list_elem_of_In, Hc.
  - intros row Hrow. apply list_elem_of_In, List.in_map_iff in Hrow.
    destruct Hrow as (c & <- & Hc).
    apply made_row_sound; [apply Hsound|apply Hcov].
    apply list_elem_of_In, List.in_map, Hc.
Qed.

(** The translations reach the catalogs.  When [apply_translations]
    completes on the rows of a run over the scanned candidates, the app
    catalog holds the target of every row that has an app context as the
    value of its source for the language, and the widget catalog that of
    every row with a widget context: sanitising removes none of them. *)
Theorem applied_translations_are_stored (project : Project)
    (include_targets : list str) (candidates : list Candidate)
    (plist_by_key : gmap str str) (service : Service)
    (rows : list TranslationRow) (issued : list Request)
    (files files' : Files) (language : str) (counters : Counters) :
  build_candidates project include_targets = inl (candidates, plist_by_key) ->
  translate_candidates service candidates = Ok (rows, issued) ->
  apply_translations files language rows plist_by_key = (files', Some counters) ->
  forall row, row ∈ rows ->
    (APP ∈ List.map target (row_contexts row) ->
     stored_value language (row_source row) (stored_strings (app_catalog files'))
     = Some (JStr (row_target row)))
    /\ (WIDGET ∈ List.map target (row_contexts row) ->
        stored_value language (row_source row) (stored_strings (widget_catalog files'))
        = Some (JStr (row_target row))).
Proof.
  intros Hbuild Hrun Happly row Hrow.
  destruct (built_rows _ _ _ _ _ _ _ Hbuild Hrun) as (_ & Hnodup & Hlooks & _).
  unfold apply_translations in Happly.
  destruct (update_catalog (app_catalog files) language (catalog_map APP rows))
    as [[app1 app_changed]|] eqn:Happ; [|discriminate].
  destruct (update_catalog (widget_catalog files) language (catalog_map WIDGET rows))
    as [[widget1 widget_changed]|] eqn:Hwidget; [|discriminate].
  destruct (sanitize_catalog_for_symbols (Some app1) language)
    as [[app2 app_sanitized]|] eqn:Happ2; [|discriminate].
  destruct (sanitize_catalog_for_symbols (Some widget1) language)
    as [[widget2 widget_sanitized]|] eqn:Hwidget2; [|discriminate].
  destruct (write_info_plist_strings (translated_by_source rows) plist_by_key)
    as [content|]; [|discriminate].
  injection Happly as <- _. cbn [app_catalog widget_catalog].
  pose proof (looks_translatable_no_percent _ (Hlooks row Hrow)) as Hkey.
  split; intros Hgroup.
  - apply (merged_then_sanitized _ _ _ _ _ _ _ (catalog_map_NoDup APP rows) Happ Happ2);
      [|exact Hkey].
    apply catalog_map_get; assumption.
  - apply (merged_then_sanitized _ _ _ _ _ _ _ (catalog_map_NoDup WIDGET rows)
             Hwidget Hwidget2); [|exact Hkey].
    apply catalog_map_get; assumption.
Qed.

(** What [InfoPlist.strings] says.  After a scan that returned, writing the
    file cannot fail: it has one line for each of the two permission keys,
    and the value on a line is the manifest value or a target that passed
    validation against it; a manifest value that looks translatable is
    written as the target of its row. *)
Theorem info_plist_strings_values (project : Project) (include_targets : list str)
    (candidates : list Candidate) (plist_by_key : gmap str str) (service : Service)
    (rows : list TranslationRow) (issued : list Request) :
  build_candidates project include_targets = inl (candidates, plist_by_key) ->
  translate_candidates service candidates = Ok (rows, issued) ->
  exists always when_in_use always_target when_in_use_target,
    plist_by_key !! KEY_ALWAYS = Some always
    /\ plist_by_key !! KEY_WHEN_IN_USE = Some when_in_use
    /\ write_info_plist_strings (translated_by_source rows) plist_by_key
       = Some (strings_line KEY_ALWAYS always_target ++ [10]
               ++ strings_line KEY_WHEN_IN_USE when_in_use_target ++ [10])
    /\ Forall
         (fun item =>
            (item.2 = item.1
             \/ validate_translation item.1 item.2 = (true, reason_ok))
            /\ (looks_translatable item.1 = true ->
                exists row,
                  row ∈ rows /\ row_source row = item.1 /\ row_target row = item.2))
         [ (always, always_target); (when_in_use, when_in_use_target) ].
Proof.
  intros Hbuild Hrun.
  destruct (built_rows _ _ _ _ _ _ _ Hbuild Hrun) as (Hsources & Hnodup & _ & Hsound).
  destruct (build_candidates_grouped _ _ _ _ Hbuild) as [_ Hdom].
  assert (Hkey : forall key, key ∈ required -> exists v, plist_by_key !! key = Some v).
  { intros key Hin. rewrite <- Hdom in Hin. apply elem_of_dom in Hin. exact Hin. }
  destruct (Hkey KEY_ALWAYS) as [always Ha]; [unfold required; set_solver|].
  destruct (Hkey KEY_WHEN_IN_USE) as [when_in_use Hw]; [unfold required; set_solver|].
  assert (Hvalue : forall key v,
            plist_by_key !! key = Some v ->
            let t := default v (dict_get v (translated_by_source rows)) in
            (t = v \/ validate_translation v t = (true, reason_ok))
            /\ (looks_translatable v = true ->
                exists row, row ∈ rows /\ row_source row = v /\ row_target row = t)).
  { intros key v Hget t.
    assert (Hrow : v ∈ List.map row_source rows ->
                   exists row, row ∈ rows /\ row_source row = v /\ row_target row = t).
    { intros Hin. apply list_elem_of_In, List.in_map_iff in Hin.
      destruct Hin as (row & <- & Hrow). apply list_elem_of_In in Hrow.
      exists row. split; [exact Hrow|]. split; [reflexivity|]. subst t.
      rewrite (translated_by_source_get rows row Hnodup Hrow). reflexivity. }
    split.
    - destruct (decide (v ∈ List.map row_source rows)) as [Hin|Hnin].
      + destruct (Hrow Hin) as (row & Hin' & <- & <-).
        destruct (Hsound row Hin') as [[_ Hok]|[_ Hsame]]; auto.
      + left. subst t. unfold translated_by_source.
        rewrite translated_by_source_frame by exact Hnin. reflexivity.
    - intros Hlooks. apply Hrow. rewrite Hsources.
      exact (built_manifest_values _ _ _ _ key v Hbuild Hget Hlooks). }
  exists always, when_in_use,
    (default always (dict_get always (translated_by_source rows))),
    (default when_in_use (dict_get when_in_use (translated_by_source rows))).
  split; [exact Ha|]. split; [exact Hw|]. split.
  - unfold write_info_plist_strings. rewrite Ha, Hw. cbn [join].
    rewrite <- !app_assoc. reflexivity.
  - constructor; [exact (Hvalue _ _ Ha)|].
    constructor; [exact (Hvalue _ _ Hw)|constructor].
Qed.

(** Sanitising a file that a merge wrote. *)
Lemma sanitize_written (strings : list (str * json)) (language : str) :
  sanitize_catalog_for_symbols (Some (written strings)) language =
  match sanitize_entries language (sorted lower_leb strings) with
  | None => None
  | Some (strings', changed) =>
      match changed with
      | O => Some (Some (written strings), 0%nat)
      | S _ => Some (Some (written strings'), changed)
      end
  end.
Proof. reflexivity. Qed.

(** Merging and sanitising a second time, with translations of keys that
    do not start with a percent sign, changes nothing. *)
Lemma merged_then_sanitized_again (stored after : option json) (language : str)
    (translations : list (str * str)) (content : json) (changed sanitized : nat) :
  NoDup (List.map fst translations) ->
  (forall k v, (k, v) ∈ translations -> startswith (u "%") k = false) ->
  update_catalog stored language translations = Some (content, changed) ->
  sanitize_catalog_for_symbols (Some content) language = Some (after, sanitized) ->
  exists content',
    after = Some content'
    /\ update_catalog after language translations = Some (content', 0%nat)
    /\ sanitize_catalog_for_symbols (Some content') language = Some (after, 0%nat).
Proof.
  intros Hnodup Hkeys Hmerge Hsan.
  pose proof (sanitize_catalog_again _ _ _ _ Hsan) as Hagain.
  destruct (update_catalog_result _ _ _ _ _ Hmerge) as (strings1 & Hloop & ->).
  pose proof (update_entries_done _ _ Hnodup _ _ _ _ Hloop) as Hdone.
  rewrite sanitize_written in Hsan.
  destruct (sanitize_entries language (sorted lower_leb strings1))
    as [[strings2 n]|] eqn:Hentries; [|discriminate].
  assert (Hfixed : forall strings,
            (forall k, startswith (u "%") k = false ->
                       dict_get k strings = dict_get k strings1) ->
            update_catalog (Some (written strings)) language translations
            = Some (written strings, 0%nat)).
  { intros strings Hsame. rewrite update_catalog_written.
    rewrite (update_entries_fixed language translations (sorted lower_leb strings)).
    - unfold written. rewrite lower_leb_sorted. reflexivity.
    - intros k v Hin. destruct (Hdone k v Hin) as (entry & Hget & Hentry).
      exists entry. split; [|exact Hentry].
      rewrite dict_get_sorted by (intros a b; apply lower_leb_same_key).
      rewrite Hsame by exact (Hkeys k v Hin). exact Hget. }
  destruct n as [|n]; injection Hsan as <- <-.
  - exists (written strings1). split; [reflexivity|]. split; [|exact Hagain].
    apply Hfixed. reflexivity.
  - exists (written strings2). split; [reflexivity|]. split; [|exact Hagain].
    apply Hfixed. intros k Hk.
    rewrite (sanitize_entries_get _ _ _ _ k Hentries).
    rewrite dict_get_sorted by (intros a b; apply lower_leb_same_key).
    destruct (dict_get k strings1) as [entry|]; [|reflexivity].
    unfold sanitize_entry. rewrite Hk. reflexivity.
Qed.

(** Applying the same rows again changes nothing: when no source starts
    with a percent sign (no candidate of a scan does), a second
    [apply_translations] completes, leaves the three files as the first one
    left them, and returns four zero counters. *)
Theorem apply_translations_twice (files files' : Files) (language : str)
    (rows : list TranslationRow) (plist_by_key : gmap str str) (counters : Counters) :
  (forall row, row ∈ rows -> startswith (u "%") (row_source row) = false) ->
  apply_translations files language rows plist_by_key = (files', Some counters) ->
  apply_translations files' language rows plist_by_key
  = (files', Some {| appCatalogEntriesUpdated := 0;
                     widgetCatalogEntriesUpdated := 0;
                     appSanitizedKeys := 0;
                     widgetSanitizedKeys := 0 |}).
Proof.
  intros Hrows Happly.
  assert (Hkeys : forall group k v,
            (k, v) ∈ catalog_map group rows -> startswith (u "%") k = false).
  { intros group k v Hin. apply catalog_map_sources in Hin.
    apply list_elem_of_In, List.in_map_iff in Hin. destruct Hin as (row & <- & Hrow).
    apply Hrows, list_elem_of_In, Hrow. }
  unfold apply_translations in Happly.
  destruct (update_catalog (app_catalog files) language (catalog_map APP rows))
    as [[app1 app_changed]|] eqn:Happ; [|discriminate].
  destruct (update_catalog (widget_catalog files) language (catalog_map WIDGET rows))
    as [[widget1 widget_changed]|] eqn:Hwidget; [|discriminate].
  destruct (sanitize_catalog_for_symbols (Some app1) language)
    as [[app2 app_sanitized]|] eqn:Happ2; [|discriminate].
  destruct (sanitize_catalog_for_symbols (Some widget1) language)
    as [[widget2 widget_sanitized]|] eqn:Hwidget2; [|discriminate].
  destruct (write_info_plist_strings (translated_by_source rows) plist_by_key)
    as [content|] eqn:Hwrite; [|discriminate].
  injection Happly as <- _.
  destruct (merged_then_sanitized_again _ _ _ _ _ _ _ (catalog_map_NoDup APP rows)
              (Hkeys APP) Happ Happ2) as (app3 & -> & Happ3 & Happ4).
  destruct (merged_then_sanitized_again _ _ _ _ _ _ _ (catalog_map_NoDup WIDGET rows)
              (Hkeys WIDGET) Hwidget Hwidget2) as (widget3 & -> & Hwidget3 & Hwidget4).
  unfold apply_translations. cbn [app_catalog widget_catalog info_plist_strings].
  rewrite Happ3, Hwidget3, Happ4, Hwidget4, Hwrite. reflexivity.
Qed.

End Applied.

(** ** The candidates of [extract_candidates] *)

Section ExtractedCandidates.
Import LocalizeWithOpenai.
Context `{PyUnicode}.

Lemma dict_set_Forall {V : Type} (P : str * V -> Prop) (k : str) (v : V)
    (d : list (str * V)) :
  Forall P d -> P (k, v) -> Forall P (dict_set k v d).
Proof.
  intros Hd Hkv. induction Hd as [|[k' w] d Hitem Hd IH]; cbn [dict_set].
  - constructor; [exact Hkv|constructor].
  - destruct (decide (k' = k)) as [->|Hne]; constructor; assumption.
Qed.

Lemma add_ok (source_lang : str) (buckets : list (str * list Context))
    (source file_path : str) (line_no : Z) (kind target : str) :
  Forall (bucket_ok source_lang) buckets ->
  Forall (bucket_ok source_lang)
    (add source_lang buckets source file_path line_no kind target).
Proof.
  intros Hb. unfold add.
  destruct (bool_decide (strip source = [])) eqn:Hblank; [exact Hb|].
  destruct (should_include_for_source_lang source source_lang) eqn:Hinc;
    cbn [negb]; [|exact Hb].
  apply dict_set_Forall; [exact Hb|].
  split; [exact Hblank|]. split; [exact Hinc|].
  cbn [snd]. destruct (default [] (dict_get source buckets)); discriminate.
Qed.

Lemma add_hits_ok (source_lang target : str) (hits : list ScanHit) :
  forall buckets,
    Forall (bucket_ok source_lang) buckets ->
    Forall (bucket_ok source_lang) (add_hits source_lang target hits buckets).
Proof.
  unfold add_hits. induction hits as [|hit hits IH]; intros buckets Hb;
    cbn [fold_left]; [exact Hb|].
  apply IH, add_ok, Hb.
Qed.

Lemma add_plist_lines_ok (source_lang : str) (lines : list str) :
  forall buckets,
    Forall (bucket_ok source_lang) buckets ->
    Forall (bucket_ok source_lang) (add_plist_lines source_lang lines buckets).
Proof.
  unfold add_plist_lines. induction (enumerate lines) as [|[n text] numbered IH];
    intros buckets Hb; cbn [fold_left]; [exact Hb|].
  apply IH. destruct (search PLIST_PATTERN text); [apply add_ok|]; exact Hb.
Qed.

(** Every candidate [extract_candidates] returns has a source that is not
    blank and that the filter of the source language lets through (for
    [es]: a text that looks Spanish), and at least one context. *)
Theorem extracted_candidates_pass_filter (project : Project)
    (include_targets : list str) (source_lang : str) :
  Forall
    (fun candidate =>
       is_blank (source candidate) = false
       /\ should_include_for_source_lang (source candidate) source_lang = true
       /\ (lower source_lang = u "es" -> is_spanish_like (source candidate) = true)
       /\ contexts candidate ≠ [])
    (extract_candidates project include_targets source_lang).
Proof.
  unfold extract_candidates.
  set (buckets := if bool_decide (WIDGET ∈ include_targets) then _ else _).
  assert (Hb : Forall (bucket_ok source_lang) buckets).
  { subst buckets.
    assert (Happ : Forall (bucket_ok source_lang)
                     (if bool_decide (APP ∈ include_targets)
                      then add_plist_lines source_lang (pbxproj_lines project)
                             (add_hits source_lang APP (app_swift_hits project) [])
                      else [])).
    { destruct (bool_decide (APP ∈ include_targets)); [|constructor].
      apply add_plist_lines_ok, add_hits_ok. constructor. }
    destruct (bool_decide (WIDGET ∈ include_targets)); [|exact Happ].
    apply add_hits_ok, Happ. }
  apply List.Forall_forall. intros c Hc. apply List.in_map_iff in Hc.
  destruct Hc as ([s ctxs] & <- & Hin). cbn [source contexts].
  apply list_elem_of_In in Hin. rewrite (sorted_Permutation item_leb) in Hin.
  apply list_elem_of_In in Hin.
  destruct (proj1 (List.Forall_forall _ _) Hb _ Hin) as (Hblank & Hinc & Hctx).
  cbn [fst snd] in *. split; [exact Hblank|]. split; [exact Hinc|].
  split; [|exact Hctx].
  intros Hes. unfold should_include_for_source_lang in Hinc.
  destruct (decide (lower source_lang = u "es")); [exact Hinc|contradiction].
Qed.

Lemma extracted_not_blank (project : Project) (include_targets : list str)
    (source_lang : str) :
  Forall (fun candidate => is_blank (source candidate) = false)
    (extract_candidates project include_targets source_lang).
Proof.
  unfold extract_candidates.
  assert (Hb : forall buckets, Forall (bucket_ok source_lang) buckets ->
            Forall (fun candidate => is_blank (source candidate) = false)
              (List.map (fun '(source, contexts) =>
                           {| source := source; contexts := contexts |})
                 (sorted item_leb buckets))).
  { intros buckets Hb. apply List.Forall_forall. intros c Hc.
    apply List.in_map_iff in Hc. destruct Hc as ([s ctxs] & <- & Hin).
    apply list_elem_of_In in Hin. rewrite (sorted_Permutation item_leb) in Hin.
    apply list_elem_of_In in Hin.
    exact (proj1 (proj1 (List.Forall_forall _ _) Hb _ Hin)). }
  apply Hb.
  assert (Happ : Forall (bucket_ok source_lang)
                   (if bool_decide (APP ∈ include_targets)
                    then add_plist_lines source_lang (pbxproj_lines project)
                           (add_hits source_lang APP (app_swift_hits project) [])
                    else [])).
  { destruct (bool_decide (APP ∈ include_targets)); [|constructor].
    apply add_plist_lines_ok, add_hits_ok. constructor. }
  destruct (bool_decide (WIDGET ∈ include_targets)); [|exact Happ].
  apply add_hits_ok, Happ.
Qed.

End ExtractedCandidates.

(** ** A service that echoes, on scanned candidates *)

Section ScannedRuns.
Context `{PyUnicode}.

Lemma batch_calls_no_blank (max_retries : nat) (batch : list str) :
  batch ≠ [] -> Forall (fun s => is_blank s = false) batch ->
  batch_calls max_retries batch = 1%nat.
Proof.
  intros Hne Hall. unfold batch_calls. destruct batch as [|s batch]; [contradiction|].
  assert (Hex : existsb is_blank (s :: batch) = false).
  { apply not_true_is_false. intros Hex. apply List.existsb_exists in Hex.
    destruct Hex as (x & Hx & Hb).
    rewrite (proj1 (List.Forall_forall _ _) Hall x Hx) in Hb. discriminate. }
  rewrite Hex. reflexivity.
Qed.

(** Without a blank source every slice costs one request. *)
Lemma echo_requests (batch_size max_retries : nat) (values : list str) :
  (0 < batch_size)%nat ->
  Forall (fun s => is_blank s = false) values ->
  sum_list (List.map (batch_calls max_retries) (chunked values batch_size))
  = slices (length values) batch_size.
Proof.
  intros Hsize Hall.
  destruct (chunked_from_parts (A := str) batch_size Hsize (length values) values)
    as [Hparts Hcount]; [lia|].
  fold (chunked values batch_size) in Hparts, Hcount. rewrite <- Hcount.
  clear Hcount. induction Hparts as [|part parts [Hlen Hsub] _ IH]; [reflexivity|].
  cbn [List.map sum_list length]. rewrite batch_calls_no_blank.
  - simpl. rewrite IH. reflexivity.
  - intros ->. simpl in Hlen. lia.
  - apply List.Forall_forall. intros x Hx.
    apply (proj1 (List.Forall_forall _ _) Hall), list_elem_of_In, Hsub, list_elem_of_In, Hx.
Qed.

Lemma echo_rows_ok (candidates : list Candidate) :
  Forall (fun candidate => is_blank (source candidate) = false) candidates ->
  Forall
    (fun row =>
       row_target row = row_source row
       /\ row_status row = status_fallback
       /\ row_validation row = validation_ok)
    (List.map echo_row candidates).
Proof.
  intros Hall. apply List.Forall_forall. intros row Hrow.
  apply List.in_map_iff in Hrow. destruct Hrow as (c & <- & Hc).
  unfold echo_row, echo_validation. cbn.
  rewrite (proj1 (List.Forall_forall _ _) Hall c Hc). auto.
Qed.

(** A service that only echoes never triggers a retry on scanned
    candidates.  In either script, a run over the candidates of a scan
    returns, issues one request per slice of candidates, and ends every row
    with its source as target, status [fallback] and validation [ok]. *)
Theorem echo_run_on_scanned_candidates (service : Service) (project : Project)
    (include_targets : list str) :
  identity_service service ->
  (forall candidates plist_by_key,
     I18nWorkflow.build_candidates project include_targets
       = inl (candidates, plist_by_key) ->
     exists rows issued,
       I18nWorkflow.translate_candidates service candidates = Ok (rows, issued)
       /\ length issued = slices (length candidates) I18nWorkflow.BATCH_SIZE
       /\ List.map row_source rows = List.map source candidates
       /\ Forall
            (fun row =>
               row_target row = row_source row
               /\ row_status row = status_fallback
               /\ row_validation row = validation_ok)
            rows)
  /\ (forall source_lang,
        let candidates :=
          LocalizeWithOpenai.extract_candidates project include_targets source_lang in
        exists rows issued,
          LocalizeWithOpenai.translate_candidates service candidates = Ok (rows, issued)
          /\ length issued = slices (length candidates) LocalizeWithOpenai.BATCH_SIZE
          /\ List.map row_source rows = List.map source candidates
          /\ Forall
               (fun row =>
                  row_target row = row_source row
                  /\ row_status row = status_fallback
                  /\ row_validation row = validation_ok)
               rows).
Proof.
  intros Hecho.
  assert (Hrun : forall batch_size candidates,
            (0 < batch_size)%nat ->
            Forall (fun candidate => is_blank (source candidate) = false) candidates ->
            exists rows issued,
              translate_candidates_with batch_size 2 service candidates = Ok (rows, issued)
              /\ length issued = slices (length candidates) batch_size
              /\ List.map row_source rows = List.map source candidates
              /\ Forall
                   (fun row =>
                      row_target row = row_source row
                      /\ row_status row = status_fallback
                      /\ row_validation row = validation_ok)
                   rows).
  { intros batch_size candidates Hsize Hall.
    destruct (translate_candidates_echo batch_size 2 service candidates Hsize Hecho)
      as (issued & Hok & Hlen).
    exists (List.map echo_row candidates), issued. split; [exact Hok|]. split.
    - rewrite Hlen, echo_requests; [rewrite List.length_map; reflexivity|exact Hsize|].
      apply List.Forall_forall. intros s Hs. apply List.in_map_iff in Hs.
      destruct Hs as (c & <- & Hc).
      exact (proj1 (List.Forall_forall _ _) Hall c Hc).
    - split; [rewrite List.map_map; reflexivity|apply echo_rows_ok, Hall]. }
  split.
  - intros candidates plist_by_key Hbuild. apply Hrun.
    + unfold I18nWorkflow.BATCH_SIZE. lia.
    + apply List.Forall_forall. intros c Hc.
      apply looks_translatable_not_blank.
      apply (built_translatable _ _ _ _ Hbuild), list_elem_of_In, Hc.
  - intros source_lang candidates. apply Hrun.
    + unfold LocalizeWithOpenai.BATCH_SIZE. lia.
    + apply extracted_not_blank.
Qed.

End ScannedRuns.

(** ** The scan of the manifest *)

Section ManifestScan.
Import I18nWorkflow.
Context `{PyUnicode}.

(** A match leaves the groups it does not have as they were. *)
Lemma rmatch_keeps_group {A : Type} (i : nat) (r : regex) :
  no_group i r = true ->
  forall (s : str) (g : groups) (k : str -> groups -> option A) (a : A),
    rmatch r s g k = Some a ->
    exists s' g', g' !! i = g !! i /\ k s' g' = Some a.
Proof.
  induction r as [|c|p|r1 IH1 r2 IH2|r1 IH1 r2 IH2|r1 IH1|r1 IH1|j r1 IH1];
    cbn [no_group]; intros Hno s g k a; cbn [rmatch].
  - intros Hk. eauto.
  - destruct s as [|x s']; [discriminate|].
    destruct (x =? c); [|discriminate]. eauto.
  - destruct s as [|x s']; [discriminate|].
    destruct (p x); [|discriminate]. eauto.
  - apply andb_true_iff in Hno. destruct Hno as [Hno1 Hno2].
    intros Hm. apply (IH1 Hno1) in Hm. destruct Hm as (s1 & g1 & Hg1 & Hm).
    apply (IH2 Hno2) in Hm. destruct Hm as (s2 & g2 & Hg2 & Hk).
    exists s2, g2. split; [congruence|exact Hk].
  - apply andb_true_iff in Hno. destruct Hno as [Hno1 Hno2].
    destruct (rmatch r1 s g k) as [a1|] eqn:E1.
    + intros [= <-]. exact (IH1 Hno1 _ _ _ _ E1).
    + apply (IH2 Hno2).
  - destruct (rmatch r1 s g k) as [a1|] eqn:E1.
    + intros [= <-]. exact (IH1 Hno _ _ _ _ E1).
    + eauto.
  - generalize (length s) at 1. intros fuel. revert s g.
    induction fuel as [|fuel IHfuel]; intros s g.
    + eauto.
    + match goal with
      | |- context [rmatch r1 s g ?k1] => destruct (rmatch r1 s g k1) as [a1|] eqn:E1
      end.
      * intros [= <-]. apply (IH1 Hno) in E1. destruct E1 as (s1 & g1 & Hg1 & E1).
        destruct (length s1 <? length s)%nat; [|discriminate].
        apply IHfuel in E1. destruct E1 as (s2 & g2 & Hg2 & Hk).
        exists s2, g2. split; [congruence|exact Hk].
      * eauto.
  - apply andb_true_iff in Hno. destruct Hno as [Hij Hno].
    apply negb_true_iff, Nat.eqb_neq in Hij.
    intros Hm. apply (IH1 Hno) in Hm. destruct Hm as (s1 & g1 & Hg1 & Hk).
    eexists s1, _. split; [|exact Hk].
    rewrite lookup_insert_ne by congruence. exact Hg1.
Qed.

(** A literal matches a prefix. *)
Lemma rmatch_Lit {A : Type} (l s : str) (g : groups) (k : str -> groups -> option A) :
  rmatch (Lit l) s g k = if startswith l s then k (drop (length l) s) g else None.
Proof.
  revert s. induction l as [|c l IH]; intros s; cbn [Lit fold_right rmatch startswith].
  - reflexivity.
  - destruct s as [|x s]; [reflexivity|]. fold (Lit l).
    rewrite (N.eqb_sym c x). destruct (x =? c); [|reflexivity].
    cbn [andb length drop]. apply IH.
Qed.

Lemma startswith_take (l s : str) :
  startswith l s = true -> take (length s - length (drop (length l) s)) s = l.
Proof.
  revert s. induction l as [|c l IH]; intros s; cbn [startswith length drop].
  - intros _. rewrite Nat.sub_diag. reflexivity.
  - destruct s as [|x s]; [discriminate|]. intros Hs.
    apply andb_true_iff in Hs. destruct Hs as [Hx Hs]. apply N.eqb_eq in Hx. subst x.
    cbn [length drop]. specialize (IH s Hs).
    assert (Hle : (length (drop (length l) s) <= length s)%nat)
      by (rewrite length_drop; lia).
    replace (S (length s) - length (drop (length l) s))%nat
      with (S (length s - length (drop (length l) s))) by lia.
    cbn [take]. rewrite IH. reflexivity.
Qed.

(** The key a line assigns is one of the two permission keys. *)
Lemma plist_key_pattern_key (text : str) (g : groups) :
  search PLIST_KEY_PATTERN text = Some g ->
  group g 1 = KEY_ALWAYS \/ group g 1 = KEY_WHEN_IN_USE.
Proof.
  induction text as [|x text IH].
  - cbn. discriminate.
  - cbn [search].
    assert (Hhere : forall s g,
              rmatch PLIST_KEY_PATTERN s ∅ (fun _ g => Some g) = Some g ->
              group g 1 = KEY_ALWAYS \/ group g 1 = KEY_WHEN_IN_USE).
    { clear. intros s g. unfold PLIST_KEY_PATTERN.
      set (rest := Cat (Star Space) _).
      assert (Hrest : no_group 1 rest = true) by reflexivity.
      change (rmatch (Cat (Lit (u "INFOPLIST_KEY_"))
                        (Cat (Grp 1 (Alt (Lit KEY_ALWAYS) (Lit KEY_WHEN_IN_USE))) rest))
                s ∅ (fun _ g0 => Some g0))
        with (rmatch (Lit (u "INFOPLIST_KEY_")) s ∅
                (fun s1 g1 =>
                   match rmatch (Lit KEY_ALWAYS) s1 g1
                           (fun s2 g2 =>
                              rmatch rest s2
                                (<[1%nat := take (length s1 - length s2) s1]> g2)
                                (fun _ g0 => Some g0)) with
                   | Some a => Some a
                   | None =>
                       rmatch (Lit KEY_WHEN_IN_USE) s1 g1
                         (fun s2 g2 =>
                            rmatch rest s2
                              (<[1%nat := take (length s1 - length s2) s1]> g2)
                              (fun _ g0 => Some g0))
                   end)).
      rewrite rmatch_Lit. destruct (startswith (u "INFOPLIST_KEY_") s); [|discriminate].
      set (s1 := drop _ s). rewrite !rmatch_Lit.
      assert (Hone : forall key,
                startswith key s1 = true ->
                rmatch rest (drop (length key) s1)
                  (<[1%nat := take (length s1 - length (drop (length key) s1)) s1]> ∅)
                  (fun _ g0 => Some g0) = Some g ->
                group g 1 = key).
      { intros key Hkey Hm. rewrite (startswith_take _ _ Hkey) in Hm.
        apply (rmatch_keeps_group 1 rest Hrest) in Hm.
        destruct Hm as (s' & g' & Hg & [= <-]). unfold group.
        rewrite Hg, lookup_insert_eq. reflexivity. }
      destruct (startswith KEY_ALWAYS s1) eqn:Ha.
      - destruct (rmatch rest (drop (length KEY_ALWAYS) s1) _ _) as [g0|] eqn:Hm.
        + intros [= <-]. left. exact (Hone _ Ha Hm).
        + destruct (startswith KEY_WHEN_IN_USE s1) eqn:Hw; [|discriminate].
          intros Hm'. right. exact (Hone _ Hw Hm').
      - destruct (startswith KEY_WHEN_IN_USE s1) eqn:Hw; [|discriminate].
        intros Hm'. right. exact (Hone _ Hw Hm'). }
    destruct (rmatch PLIST_KEY_PATTERN (x :: text) ∅ (fun _ g => Some g)) as [g0|] eqn:Hm.
    + intros [= <-]. exact (Hhere _ _ Hm).
    + exact IH.
Qed.

Lemma manifest_declares_required (lines : list str) (key : str) :
  manifest_declares lines key = true -> key ∈ required.
Proof.
  unfold manifest_declares. intros Hd. apply List.existsb_exists in Hd.
  destruct Hd as (text & _ & Hd).
  destruct (search PLIST_KEY_PATTERN text) as [g|] eqn:Hs; [|discriminate].
  apply bool_decide_eq_true_1 in Hd. subst key. apply required_keys.
  destruct (plist_key_pattern_key _ _ Hs) as [->| ->]; [left|right; left].
Qed.

(** The converse of C8: the scan of the manifest fails only when a required
    key is not assigned.  [collect_plist_keys] returns exactly when the
    manifest assigns both permission keys, [build_candidates] returns
    exactly then, whatever the targets, and the dictionary returned has the
    two keys and no other. *)
Theorem manifest_scan_returns (project : Project) :
  ((manifest_declares (pbxproj_lines project) KEY_ALWAYS = true
    /\ manifest_declares (pbxproj_lines project) KEY_WHEN_IN_USE = true)
   <-> exists out by_key, collect_plist_keys project = inl (out, by_key))
  /\ (forall include_targets,
        (manifest_declares (pbxproj_lines project) KEY_ALWAYS = true
         /\ manifest_declares (pbxproj_lines project) KEY_WHEN_IN_USE = true)
        <-> exists candidates by_key,
              build_candidates project include_targets = inl (candidates, by_key))
  /\ (forall include_targets candidates by_key,
        build_candidates project include_targets = inl (candidates, by_key) ->
        dom by_key = required).
Proof.
  assert (Hscan :
            (manifest_declares (pbxproj_lines project) KEY_ALWAYS = true
             /\ manifest_declares (pbxproj_lines project) KEY_WHEN_IN_USE = true)
            <-> exists out by_key, collect_plist_keys project = inl (out, by_key)).
  { destruct (collect_plist_keys_result project) as (out & by_key & Hdom & ->).
    rewrite <- !Hdom. split.
    - intros [Ha Hw]. destruct (decide (dom by_key ≠ required)) as [Hne|_]; [|eauto].
      exfalso. apply Hne. apply set_eq. intros k. split.
      + intros Hk. apply Hdom in Hk. exact (manifest_declares_required _ _ Hk).
      + intros Hk. apply required_keys in Hk. apply elem_of_cons in Hk.
        destruct Hk as [->|Hk]; [exact Ha|].
        apply list_elem_of_singleton in Hk. subst k. exact Hw.
    - intros (out' & by_key' & Hok).
      destruct (decide (dom by_key ≠ required)) as [|Heq]; [discriminate|].
      apply dec_stable in Heq. rewrite Heq.
      split; apply required_keys; [left|right; left]. }
  split; [exact Hscan|]. split.
  - intros include_targets. rewrite Hscan. unfold build_candidates.
    destruct (collect_plist_keys project) as [[out by_key]|e].
    + split; intros _; eauto.
    + split; intros (x & y & Hxy); discriminate.
  - intros include_targets candidates by_key Hbuild.
    exact (proj2 (build_candidates_grouped _ _ _ _ Hbuild)).
Qed.

End ManifestScan.

(** ** When [main] calls the service *)

Section MainRequests.
Import I18nWorkflow.
Context `{PyUnicode}.

Lemma build_candidates_declared (project : Project) (include_targets : list str)
    (candidates : list Candidate) (plist_by_key : gmap str str) :
  build_candidates project include_targets = inl (candidates, plist_by_key) ->
  manifest_declares (pbxproj_lines project) KEY_ALWAYS = true
  /\ manifest_declares (pbxproj_lines project) KEY_WHEN_IN_USE = true.
Proof.
  unfold build_candidates.
  destruct (collect_plist_keys_result project) as (out & by_key & Hdom & ->).
  destruct (decide (dom by_key ≠ required)) as [|Heq]; [discriminate|].
  apply dec_stable in Heq. intros _. rewrite <- !Hdom, Heq.
  split; apply required_keys; [left|right; left].
Qed.

(** [main] calls the translation service only past all its checks: never
    in a dry run, never with a target other than [app] and [widget], never
    without an API key, never when the manifest lacks a permission key, and
    never when the scan found nothing.  Every request it issues asks for
    sources of the scanned candidates, at most [BATCH_SIZE] of them. *)
Theorem main_requests_guarded (args : Args) (OPENAI_API_KEY : option str)
    (project : Project) (service : Service) :
  requests (main args OPENAI_API_KEY project service) ≠ [] ->
  dry_run args = false
  /\ invalid_targets_of args = []
  /\ (exists c key, OPENAI_API_KEY = Some (c :: key))
  /\ manifest_declares (pbxproj_lines project) KEY_ALWAYS = true
  /\ manifest_declares (pbxproj_lines project) KEY_WHEN_IN_USE = true
  /\ exists candidates plist_by_key,
       build_candidates project (include_targets_of args) = inl (candidates, plist_by_key)
       /\ candidates ≠ []
       /\ Forall
            (fun request =>
               (1 <= length (sources request) <= BATCH_SIZE)%nat
               /\ forall s, s ∈ sources request -> s ∈ List.map source candidates)
            (requests (main args OPENAI_API_KEY project service)).
Proof.
  unfold main.
  destruct (bool_decide (invalid_targets_of args = [])) eqn:Hvalid; cbn [negb];
    [|intros Hne; contradiction].
  apply bool_decide_eq_true_1 in Hvalid.
  destruct (build_candidates project (include_targets_of args))
    as [[candidates plist_by_key]|e] eqn:Hbuild; [|intros Hne; contradiction].
  destruct (dry_run args); [intros Hne; contradiction|].
  destruct OPENAI_API_KEY as [[|c key]|]; try (intros Hne; contradiction).
  intros Hrequests.
  destruct (build_candidates_declared _ _ _ _ Hbuild) as [Ha Hw].
  split; [reflexivity|]. split; [exact Hvalid|]. split; [eauto|].
  split; [exact Ha|]. split; [exact Hw|].
  exists candidates, plist_by_key. split; [reflexivity|].
  assert (Hsize : (0 < BATCH_SIZE)%nat) by (unfold BATCH_SIZE; lia).
  destruct (translate_batches_issued MAX_RETRIES service
              (chunked (List.map source candidates) BATCH_SIZE)
              (batches_nonempty BATCH_SIZE Hsize _) initial_state)
    as (new & Hnew & _ & Hall & _).
  cbn [initial_state calls app] in Hnew.
  assert (Hissued : requests
            match translate_candidates service candidates with
            | Ok (rows, issued) => {| outcome := rows_translated rows; requests := issued |}
            | RuntimeError issued => {| outcome := transport_error; requests := issued |}
            end = new).
  { rewrite <- Hnew. unfold translate_candidates, translate_candidates_with.
    destruct (translate_batches _ _ _ _); reflexivity. }
  rewrite Hissued in *. split.
  - intros ->. apply Hrequests. rewrite <- Hnew.
    unfold chunked. cbn. reflexivity.
  - destruct (chunked_from_parts (A := str) BATCH_SIZE Hsize
                (length (List.map source candidates)) (List.map source candidates))
      as [Hparts _]; [lia|].
    fold (chunked (List.map source candidates) BATCH_SIZE) in Hparts.
    rewrite List.Forall_forall in Hparts.
    eapply List.Forall_impl; [|exact Hall].
    intros request (batch & Hbatch & Hne & Hsub & Hlen & _).
    destruct (Hparts batch) as [Hl Hin]; [apply list_elem_of_In; exact Hbatch|].
    split; [|auto]. destruct (sources request); [contradiction|]. simpl in *. lia.
Qed.

End MainRequests.

(** ** The catalog [localize_with_openai] writes *)

Section LocalizedCatalog.
Import I18nWorkflow.
Context `{PyUnicode}.

Lemma localized_entry_result (source_lang v : str) (entry entry' : json) :
  LocalizeWithOpenai.update_entry source_lang v entry = Some entry' ->
  exists e e' localizations,
    entry = JDict e /\ entry' = JDict e'
    /\ default (JDict []) (dict_get (u "localizations") e) = JDict localizations
    /\ dict_get (u "localizations") e'
       = Some (JDict (dict_set source_lang (string_unit v) localizations))
    /\ dict_get (u "extractionState") e' = Some (JStr (u "manual"))
    /\ (forall f, f ≠ u "localizations" -> f ≠ u "extractionState" ->
                  dict_get f e' = dict_get f e).
Proof.
  unfold LocalizeWithOpenai.update_entry.
  destruct entry as [| | | | | |e]; try discriminate.
  rewrite (dict_get_set_ne (u "extractionState") (u "localizations")) by discriminate.
  destruct (default (JDict []) (dict_get (u "localizations") e))
    as [| | | | | |localizations] eqn:Hloc; try discriminate.
  intros [= <-]. eexists e, _, localizations.
  split; [reflexivity|]. split; [reflexivity|]. split; [exact Hloc|].
  split; [apply dict_get_set_eq|]. split.
  - rewrite dict_get_set_ne by discriminate. apply dict_get_set_eq.
  - intros f Hf1 Hf2. rewrite !dict_get_set_ne by congruence. reflexivity.
Qed.

Lemma localized_entry_again (source_lang v : str) (entry entry' : json) :
  LocalizeWithOpenai.update_entry source_lang v entry = Some entry' ->
  LocalizeWithOpenai.update_entry source_lang v entry' = Some entry'.
Proof.
  intros Hfirst.
  destruct (localized_entry_result _ _ _ _ Hfirst)
    as (e & e' & locs & _ & -> & _ & Hloc & Hstate & _).
  unfold LocalizeWithOpenai.update_entry.
  rewrite (dict_set_same _ _ _ Hstate), Hloc. cbn [default from_option id].
  rewrite (dict_set_same source_lang (string_unit v)) by apply dict_get_set_eq.
  rewrite (dict_set_same _ _ _ Hloc). reflexivity.
Qed.

Lemma localized_entries_frame (source_lang : str) (pairs : list (str * str)) :
  forall strings strings' k,
    LocalizeWithOpenai.update_entries source_lang pairs strings = Some strings' ->
    k ∉ List.map fst pairs ->
    dict_get k strings' = dict_get k strings.
Proof.
  induction pairs as [|[target_text source_text] rest IH]; intros strings strings' k;
    cbn [LocalizeWithOpenai.update_entries].
  - intros [= <-] _. reflexivity.
  - destruct (LocalizeWithOpenai.update_entry source_lang source_text _) as [entry'|];
      [|discriminate].
    intros Hrun Hk. cbn [List.map fst] in Hk.
    apply not_elem_of_cons in Hk. destruct Hk as [Hne Hk].
    rewrite (IH _ _ k Hrun Hk). apply dict_get_set_ne. congruence.
Qed.

(** The entry of a key after the loop comes from the last pair of the key. *)
Lemma localized_entries_last (source_lang : str) (before : list (str * str)) :
  forall strings strings' k v after,
    LocalizeWithOpenai.update_entries source_lang (before ++ (k, v) :: after) strings
    = Some strings' ->
    k ∉ List.map fst after ->
    exists entry entry',
      LocalizeWithOpenai.update_entry source_lang v entry = Some entry'
      /\ dict_get k strings' = Some entry'.
Proof.
  induction before as [|[target_text source_text] before IH];
    intros strings strings' k v after; cbn [app LocalizeWithOpenai.update_entries].
  - destruct (LocalizeWithOpenai.update_entry source_lang v _) as [entry'|] eqn:Hentry;
      [|discriminate].
    intros Hrun Hk. eexists _, entry'. split; [exact Hentry|].
    rewrite (localized_entries_frame _ _ _ _ k Hrun Hk). apply dict_get_set_eq.
  - destruct (LocalizeWithOpenai.update_entry source_lang source_text _) as [entry'|];
      [|discriminate].
    apply IH.
Qed.

Lemma localized_entries_keys (source_lang : str) (pairs : list (str * str)) :
  forall strings strings',
    LocalizeWithOpenai.update_entries source_lang pairs strings = Some strings' ->
    forall k, k ∈ List.map fst strings' <->
              k ∈ List.map fst strings \/ k ∈ List.map fst pairs.
Proof.
  induction pairs as [|[target_text source_text] rest IH]; intros strings strings';
    cbn [LocalizeWithOpenai.update_entries].
  - intros [= <-] k. cbn [List.map]. rewrite elem_of_nil. tauto.
  - destruct (LocalizeWithOpenai.update_entry source_lang source_text _) as [entry'|];
      [|discriminate].
    intros Hrun k. rewrite (IH _ _ Hrun), dict_set_keys. cbn [List.map fst].
    rewrite elem_of_cons.
    destruct (decide (target_text ∈ List.map fst strings)) as [Hin|Hnin].
    + rewrite bool_decide_eq_true_2 by exact Hin.
      split; [tauto|]. intros [?|[->|?]]; tauto.
    + rewrite bool_decide_eq_false_2 by exact Hnin.
      rewrite elem_of_app, list_elem_of_singleton. tauto.
Qed.

Lemma localized_entries_fixed (source_lang : str) (pairs : list (str * str))
    (strings : list (str * json)) :
  (forall k v, (k, v) ∈ pairs ->
     exists entry,
       dict_get k strings = Some entry
       /\ LocalizeWithOpenai.update_entry source_lang v entry = Some entry) ->
  LocalizeWithOpenai.update_entries source_lang pairs strings = Some strings.
Proof.
  induction pairs as [|[target_text source_text] rest IH]; intros Hdone;
    cbn [LocalizeWithOpenai.update_entries]; [reflexivity|].
  destruct (Hdone target_text source_text) as (entry & Hget & Hentry); [left|].
  rewrite Hget. cbn [default from_option id]. rewrite Hentry.
  rewrite (dict_set_same _ _ _ Hget). apply IH.
  intros k v Hin. apply Hdone. right. exact Hin.
Qed.

Lemma localized_catalog_result (stored : option json) (source_lang target_lang : str)
    (pairs : list (str * str)) (content : json) :
  LocalizeWithOpenai.update_catalog stored source_lang target_lang pairs = Some content ->
  exists strings',
    LocalizeWithOpenai.update_entries source_lang pairs (stored_strings stored)
    = Some strings'
    /\ content = JDict [ (u "sourceLanguage", JStr target_lang);
                         (u "strings", JDict (sorted lower_leb strings'));
                         (u "version", JStr (u "1.0")) ].
Proof.
  assert (Hloop : forall strings,
            match LocalizeWithOpenai.update_entries source_lang pairs strings with
            | None => None
            | Some strings' =>
                Some (JDict [ (u "sourceLanguage", JStr target_lang);
                              (u "strings", JDict (sorted lower_leb strings'));
                              (u "version", JStr (u "1.0")) ])
            end = Some content ->
            exists strings',
              LocalizeWithOpenai.update_entries source_lang pairs strings = Some strings'
              /\ content = JDict [ (u "sourceLanguage", JStr target_lang);
                                   (u "strings", JDict (sorted lower_leb strings'));
                                   (u "version", JStr (u "1.0")) ]).
  { intros strings.
    destruct (LocalizeWithOpenai.update_entries source_lang pairs strings)
      as [strings'|]; [|discriminate].
    intros [= <-]. eauto. }
  unfold LocalizeWithOpenai.update_catalog, stored_strings.
  destruct stored as [[| | | | | |top]|]; try discriminate.
  - assert (H1 : u "version" ≠ u "strings") by (vm_compute; discriminate).
    assert (H2 : u "sourceLanguage" ≠ u "strings") by (vm_compute; discriminate).
    rewrite (dict_get_set_ne _ _ _ _ H2).
    destruct (dict_get (u "strings") top) as [x|] eqn:Hstrings.
    + rewrite (dict_get_set_ne _ _ _ _ H1), (dict_get_set_ne _ _ _ _ H2), Hstrings.
      destruct x; try discriminate. apply Hloop.
    + rewrite (dict_get_set_ne _ _ _ _ H1), dict_get_set_eq. apply Hloop.
  - apply Hloop.
Qed.

(** What the catalog of the target language holds after an update.  Its
    source language is the target language and its version [1.0]; its keys
    are in the order of their lowered forms; an entry whose key is not a
    translated text is the stored one; and the entry of a translated text
    is [manual] and stores, for the source language, the source text of the
    last pair with that translated text: when two sources have the same
    translation, the later one replaces the earlier. *)
Theorem localized_catalog_last_pair_wins (stored : option json)
    (source_lang target_lang : str) (pairs : list (str * str)) (content : json) :
  LocalizeWithOpenai.update_catalog stored source_lang target_lang pairs = Some content ->
  exists strings,
    content = JDict [ (u "sourceLanguage", JStr target_lang);
                      (u "strings", JDict strings);
                      (u "version", JStr (u "1.0")) ]
    /\ StronglySorted (fun a b => str_leb (lower a) (lower b) = true)
         (List.map fst strings)
    /\ (forall k, k ∈ List.map fst strings <->
                  k ∈ List.map fst (stored_strings stored) \/ k ∈ List.map fst pairs)
    /\ (forall k, k ∉ List.map fst pairs ->
                  dict_get k strings = dict_get k (stored_strings stored))
    /\ (forall before k v after,
          pairs = before ++ (k, v) :: after ->
          k ∉ List.map fst after ->
          exists e localizations,
            dict_get k strings = Some (JDict e)
            /\ dict_get (u "extractionState") e = Some (JStr (u "manual"))
            /\ dict_get (u "localizations") e = Some (JDict localizations)
            /\ dict_get source_lang localizations = Some (string_unit v)).
Proof.
  intros Hrun.
  destruct (localized_catalog_result _ _ _ _ _ Hrun) as (strings' & Hloop & ->).
  exists (sorted lower_leb strings'). split; [reflexivity|].
  assert (Hget : forall k, dict_get k (sorted lower_leb strings') = dict_get k strings').
  { intros k. apply dict_get_sorted. intros a b. apply lower_leb_same_key. }
  split; [|split; [|split]].
  - apply StronglySorted_map_key.
    apply (sorted_StronglySorted (lower_leb (V := json))).
    + intros a b. apply str_leb_total.
    + intros a b c. apply str_leb_trans.
  - intros k.
    rewrite (Permutation_map fst (sorted_Permutation lower_leb strings')).
    exact (localized_entries_keys _ _ _ _ Hloop k).
  - intros k Hk. rewrite Hget. exact (localized_entries_frame _ _ _ _ k Hloop Hk).
  - intros before k v after -> Hk.
    destruct (localized_entries_last _ _ _ _ _ _ _ Hloop Hk) as (entry & entry' & Hentry & Hk').
    destruct (localized_entry_result _ _ _ _ Hentry)
      as (e & e' & locs & _ & -> & _ & Hloc & Hstate & _).
    exists e', (dict_set source_lang (string_unit v) locs).
    rewrite Hget. split; [exact Hk'|]. split; [exact Hstate|]. split; [exact Hloc|].
    apply dict_get_set_eq.
Qed.

(** Updating the catalog of the target language twice with the same pairs
    writes the same file, when no two pairs have the same translated
    text. *)
Theorem localized_catalog_twice (stored : option json) (source_lang target_lang : str)
    (pairs : list (str * str)) (content : json) :
  NoDup (List.map fst pairs) ->
  LocalizeWithOpenai.update_catalog stored source_lang target_lang pairs = Some content ->
  LocalizeWithOpenai.update_catalog (Some content) source_lang target_lang pairs
  = Some content.
Proof.
  intros Hnodup Hrun.
  destruct (localized_catalog_result _ _ _ _ _ Hrun) as (strings' & Hloop & ->).
  change (LocalizeWithOpenai.update_catalog
            (Some (JDict [ (u "sourceLanguage", JStr target_lang);
                           (u "strings", JDict (sorted lower_leb strings'));
                           (u "version", JStr (u "1.0")) ]))
            source_lang target_lang pairs)
    with (match LocalizeWithOpenai.update_entries source_lang pairs
                  (sorted lower_leb strings') with
          | None => None
          | Some strings2 =>
              Some (JDict [ (u "sourceLanguage", JStr target_lang);
                            (u "strings", JDict (sorted lower_leb strings2));
                            (u "version", JStr (u "1.0")) ])
          end).
  rewrite (localized_entries_fixed source_lang pairs (sorted lower_leb strings')).
  - rewrite lower_leb_sorted. reflexivity.
  - intros k v Hin. apply list_elem_of_split in Hin.
    destruct Hin as (before & after & ->).
    assert (Hk : k ∉ List.map fst after).
    { rewrite List.map_app in Hnodup. apply NoDup_app in Hnodup.
      destruct Hnodup as (_ & _ & Hafter). cbn [List.map fst] in Hafter.
      apply NoDup_cons in Hafter. tauto. }
    destruct (localized_entries_last _ _ _ _ _ _ _ Hloop Hk)
      as (entry & entry' & Hentry & Hk').
    exists entry'. split.
    + rewrite dict_get_sorted by (intros a b; apply lower_leb_same_key). exact Hk'.
    + exact (localized_entry_again _ _ _ _ Hentry).
Qed.

End LocalizedCatalog.

(** ** The known regions *)

Section KnownRegions.
Import I18nWorkflow.

Lemma find_index_Some {A : Type} (p : A -> bool) (l : list A) (i : nat) :
  find_index p l = Some i ->
  exists x, l !! i = Some x /\ p x = true
            /\ Forall (fun y => p y = false) (take i l).
Proof.
  revert i. induction l as [|y l IH]; intros i; cbn [find_index]; [discriminate|].
  destruct (p y) eqn:Hy.
  - intros [= <-]. exists y. split; [reflexivity|]. split; [exact Hy|constructor].
  - destruct (find_index p l) as [j|]; [|discriminate]. intros [= <-].
    destruct (IH j eq_refl) as (x & Hx & Hp & Hbefore).
    exists x. split; [exact Hx|]. split; [exact Hp|].
    cbn [take]. constructor; assumption.
Qed.

Lemma find_index_app {A : Type} (p : A -> bool) (before after : list A) :
  Forall (fun y => p y = false) before ->
  find_index p (before ++ after)
  = option_map (fun i => (length before + i)%nat) (find_index p after).
Proof.
  induction 1 as [|y before Hy _ IH]; cbn [app find_index length].
  - destruct (find_index p after); reflexivity.
  - rewrite Hy, IH. destruct (find_index p after); reflexivity.
Qed.

Lemma find_index_None {A : Type} (p : A -> bool) (l : list A) :
  find_index p l = None <-> Forall (fun y => p y = false) l.
Proof.
  induction l as [|y l IH]; cbn [find_index].
  - split; [constructor|reflexivity].
  - destruct (p y) eqn:Hy.
    + split; [discriminate|]. intros Hall. inversion Hall; congruence.
    + destruct (find_index p l) as [j|]; cbn [option_map].
      * split; [discriminate|]. intros Hall. inversion Hall as [|? ? _ Hl]; subst.
        apply IH in Hl. discriminate.
      * split; [|reflexivity]. intros _. constructor; [exact Hy|]. apply IH. reflexivity.
Qed.

(** The block and what surrounds it make up the file. *)
Lemma locate_block_parts (lines : list str) (start_idx end_idx : nat) :
  locate_block lines = inl (start_idx, end_idx) ->
  (start_idx < end_idx < length lines)%nat
  /\ lines = take (S start_idx) lines ++ block_of lines start_idx end_idx
             ++ drop end_idx lines
  /\ find_index (contains (u "knownRegions = (")) lines = Some start_idx
  /\ exists closing, drop end_idx lines = closing :: drop (S end_idx) lines
                     /\ strip closing = u ");".
Proof.
  unfold locate_block, block_of.
  destruct (find_index (contains (u "knownRegions = (")) lines) as [start|] eqn:Hstart;
    [|discriminate].
  destruct (find_index _ (drop (S start) lines)) as [offset|] eqn:Hend; [|discriminate].
  intros [= <- <-].
  destruct (find_index_Some _ _ _ Hend) as (closing & Hclosing & Hclose & _).
  apply bool_decide_eq_true_1 in Hclose.
  rewrite lookup_drop in Hclosing.
  pose proof (lookup_lt_Some _ _ _ Hclosing) as Hlt.
  split; [lia|]. split; [|split; [reflexivity|]].
  - change (S start + offset)%nat with (S (start + offset)).
    replace (S (start + offset) - S start)%nat with offset by lia.
    assert (Hdrop : drop (S (start + offset)) lines = drop offset (drop (S start) lines))
      by (rewrite drop_drop; reflexivity).
    rewrite Hdrop, (take_drop offset (drop (S start) lines)), take_drop. reflexivity.
  - exists closing. split; [|exact Hclose].
    exact (drop_S lines closing (S start + offset) Hclosing).
Qed.

(** The loop that drops repeated regions. *)
Lemma unique_regions_fold (normalized : list str) :
  forall unique_regions (seen : gset str),
    (forall r, r ∈ seen <-> r ∈ unique_regions) ->
    NoDup unique_regions ->
    let result := fold_left unique_step normalized (unique_regions, seen) in
    (forall r, r ∈ result.2 <-> r ∈ result.1)
    /\ NoDup result.1
    /\ (forall r, r ∈ result.1 <-> r ∈ unique_regions \/ r ∈ normalized).
Proof.
  induction normalized as [|region rest IH]; intros U seen Hseen Hnodup; cbn [fold_left].
  - cbn [fst snd]. split; [exact Hseen|]. split; [exact Hnodup|].
    intros r. rewrite elem_of_nil. tauto.
  - assert (Hstep : unique_step (U, seen) region
                    = if decide (region ∈ seen) then (U, seen)
                      else (U ++ [region], seen ∪ {[region]})) by reflexivity.
    rewrite Hstep. clear Hstep. destruct (decide (region ∈ seen)) as [Hin|Hnin].
    + destruct (IH U seen Hseen Hnodup) as (H1 & H2 & H3).
      split; [exact H1|]. split; [exact H2|].
      intros r. rewrite H3, elem_of_cons. split; [tauto|].
      intros [Hr|[->|Hr]]; auto. left. apply Hseen, Hin.
    + assert (Hseen' : forall r, r ∈ seen ∪ {[region]} <-> r ∈ U ++ [region]).
      { intros r. rewrite elem_of_union, elem_of_singleton, elem_of_app,
          list_elem_of_singleton, Hseen. reflexivity. }
      assert (Hnodup' : NoDup (U ++ [region])).
      { apply NoDup_app. split; [exact Hnodup|]. split; [|apply NoDup_singleton].
        intros x Hx Hx'. apply list_elem_of_singleton in Hx'. subst x.
        apply Hnin, Hseen, Hx. }
      destruct (IH (U ++ [region]) (seen ∪ {[region]}) Hseen' Hnodup')
        as (H1 & H2 & H3).
      split; [exact H1|]. split; [exact H2|].
      intros r. rewrite H3, elem_of_app, list_elem_of_singleton, elem_of_cons. tauto.
Qed.

Lemma unique_regions_spec (normalized : list str) :
  (forall r, r ∈ (unique_regions_of normalized).2 <-> r ∈ (unique_regions_of normalized).1)
  /\ NoDup (unique_regions_of normalized).1
  /\ (forall r, r ∈ (unique_regions_of normalized).1 <-> r ∈ normalized).
Proof.
  destruct (unique_regions_fold normalized [] ∅) as (H1 & H2 & H3).
  - intros r. rewrite elem_of_empty, elem_of_nil. tauto.
  - constructor.
  - split; [exact H1|]. split; [exact H2|].
    intros r. rewrite H3, elem_of_nil. tauto.
Qed.

(** Regions that already differ come out as they went in. *)
Lemma unique_regions_NoDup (normalized : list str) :
  NoDup normalized -> (unique_regions_of normalized).1 = normalized.
Proof.
  unfold unique_regions_of.
  assert (Hgen : forall U (seen : gset str),
            (forall r, r ∈ seen <-> r ∈ U) ->
            NoDup (U ++ normalized) ->
            (fold_left unique_step normalized (U, seen)).1 = U ++ normalized).
  { induction normalized as [|x rest IH]; intros U seen Hseen Hnodup; cbn [fold_left].
    - cbn. rewrite app_nil_r. reflexivity.
    - assert (Hstep : unique_step (U, seen) x
                      = if decide (x ∈ seen) then (U, seen)
                        else (U ++ [x], seen ∪ {[x]})) by reflexivity.
      rewrite Hstep. clear Hstep. destruct (decide (x ∈ seen)) as [Hin|Hnin].
      + exfalso. apply NoDup_app in Hnodup. destruct Hnodup as (_ & Hdisj & _).
        apply (Hdisj x); [apply Hseen, Hin|left].
      + rewrite (IH (U ++ [x]) (seen ∪ {[x]})).
        * rewrite <- app_assoc. reflexivity.
        * intros r. rewrite elem_of_union, elem_of_singleton, elem_of_app,
            list_elem_of_singleton, Hseen. reflexivity.
        * rewrite <- app_assoc. exact Hnodup. }
  intros Hnodup. apply (Hgen [] ∅).
  - intros r. rewrite elem_of_empty, elem_of_nil. tauto.
  - exact Hnodup.
Qed.

Lemma filter_filter_implied {A : Type} (p q : A -> bool) (l : list A) :
  (forall x, p x = true -> q x = true) ->
  List.filter p (List.filter q l) = List.filter p l.
Proof.
  intros Himp. induction l as [|x l IH]; cbn [List.filter]; [reflexivity|].
  destruct (q x) eqn:Hq; cbn [List.filter].
  - rewrite IH. reflexivity.
  - rewrite IH. destruct (p x) eqn:Hp; [|reflexivity].
    rewrite (Himp x Hp) in Hq. discriminate.
Qed.

(** The language is put in, once. *)
Lemma with_language_spec (language : str) (unique_regions : list str) (seen : gset str) :
  (forall r, r ∈ seen <-> r ∈ unique_regions) ->
  NoDup unique_regions ->
  NoDup (with_language language (unique_regions, seen))
  /\ (forall r, r ∈ with_language language (unique_regions, seen)
                <-> r = language \/ r ∈ unique_regions)
  /\ List.filter (other_region language) (with_language language (unique_regions, seen))
     = List.filter (other_region language) unique_regions
  /\ (language ∈ unique_regions ->
      with_language language (unique_regions, seen) = unique_regions).
Proof.
  intros Hseen Hnodup. unfold with_language.
  destruct (decide (language ∈ seen)) as [Hin|Hnin].
  - apply Hseen in Hin. split; [exact Hnodup|]. split; [|split; reflexivity].
    intros r. split; [auto|]. intros [->|Hr]; assumption.
  - assert (Hfresh : language ∉ unique_regions) by (intros Hin; apply Hnin, Hseen, Hin).
    assert (Hnot : other_region language language = false).
    { unfold other_region. rewrite (bool_decide_eq_true_2 (language = language)) by reflexivity.
      apply andb_false_r. }
    destruct (find_index _ unique_regions) as [base_idx|].
    + split; [|split; [|split]].
      * apply NoDup_app. rewrite <- (take_drop base_idx unique_regions) in Hnodup, Hfresh.
        apply NoDup_app in Hnodup. destruct Hnodup as (Ht & Hdisj & Hd).
        rewrite elem_of_app in Hfresh.
        split; [exact Ht|]. split.
        { intros x Hx Hx'. apply elem_of_cons in Hx'. destruct Hx' as [->|Hx'].
          - apply Hfresh. left. exact Hx.
          - exact (Hdisj x Hx Hx'). }
        { apply NoDup_cons. split; [|exact Hd]. intros Hx. apply Hfresh. right. exact Hx. }
      * intros r. rewrite <- (take_drop base_idx unique_regions) at 3.
        rewrite !elem_of_app, list_elem_of_singleton. tauto.
      * rewrite !List.filter_app. cbn [List.filter]. rewrite Hnot. cbn [app].
        rewrite <- List.filter_app, take_drop. reflexivity.
      * intros Hin. contradiction.
    + split; [|split; [|split]].
      * apply NoDup_app. split; [exact Hnodup|]. split; [|apply NoDup_singleton].
        intros x Hx Hx'. apply list_elem_of_singleton in Hx'. subst x. contradiction.
      * intros r. rewrite elem_of_app, list_elem_of_singleton. tauto.
      * rewrite List.filter_app. cbn [List.filter]. rewrite Hnot. apply app_nil_r.
      * intros Hin. contradiction.
Qed.

(** [Base] goes last. *)
Lemma base_last_spec (language : str) (unique_regions : list str) :
  NoDup unique_regions ->
  NoDup (base_last unique_regions)
  /\ (forall r, r ∈ base_last unique_regions <-> r ∈ unique_regions)
  /\ (BASE ∈ base_last unique_regions -> last (base_last unique_regions) = Some BASE)
  /\ List.filter (other_region language) (base_last unique_regions)
     = List.filter (other_region language) unique_regions.
Proof.
  intros Hnodup. unfold base_last.
  destruct (decide (BASE ∈ unique_regions)) as [Hin|Hnin].
  - rewrite bool_decide_eq_true_2 by exact Hin.
    assert (Hmem : forall r,
              r ∈ List.filter (fun region => negb (bool_decide (region = BASE)))
                    unique_regions
              <-> r ∈ unique_regions /\ r ≠ BASE).
    { intros r. rewrite !list_elem_of_In, List.filter_In, negb_true_iff.
      rewrite bool_decide_eq_false. reflexivity. }
    split; [|split; [|split]].
    + apply NoDup_app. split; [apply NoDup_ListNoDup, List.NoDup_filter,
                                 NoDup_ListNoDup, Hnodup|].
      split; [|apply NoDup_singleton].
      intros x Hx Hx'. apply list_elem_of_singleton in Hx'. subst x.
      apply Hmem in Hx. destruct Hx as [_ Hx]. contradiction.
    + intros r. rewrite elem_of_app, list_elem_of_singleton, Hmem.
      destruct (decide (r = BASE)) as [->|Hne]; [tauto|]. tauto.
    + intros _. apply last_snoc.
    + rewrite List.filter_app. cbn [List.filter].
      assert (Hbase : other_region language BASE = false).
      { unfold other_region. rewrite (bool_decide_eq_true_2 (BASE = BASE)) by reflexivity.
        reflexivity. }
      rewrite Hbase, app_nil_r. apply filter_filter_implied.
      intros x Hx. unfold other_region in Hx. apply andb_true_iff in Hx. tauto.
  - rewrite bool_decide_eq_false_2 by exact Hnin.
    split; [exact Hnodup|]. split; [reflexivity|]. split; [|reflexivity].
    intros Hin. contradiction.
Qed.

(** A list with [Base] at its end, and nowhere else, is left as it is. *)
Lemma base_last_fixed (unique_regions : list str) :
  NoDup unique_regions ->
  (BASE ∈ unique_regions -> last unique_regions = Some BASE) ->
  base_last unique_regions = unique_regions.
Proof.
  intros Hnodup Hlast. unfold base_last.
  destruct (decide (BASE ∈ unique_regions)) as [Hin|Hnin].
  - rewrite bool_decide_eq_true_2 by exact Hin.
    specialize (Hlast Hin). apply last_Some in Hlast. destruct Hlast as [front ->].
    apply NoDup_app in Hnodup. destruct Hnodup as (_ & Hdisj & _).
    rewrite List.filter_app. cbn [List.filter].
    rewrite (bool_decide_eq_true_2 (BASE = BASE)) by reflexivity. cbn [negb].
    rewrite app_nil_r. f_equal.
    assert (Hall : Forall (fun region => negb (bool_decide (region = BASE)) = true) front).
    { apply List.Forall_forall. intros x Hx. apply negb_true_iff, bool_decide_eq_false_2.
      intros ->. apply (Hdisj BASE); [apply list_elem_of_In; exact Hx|left]. }
    clear - Hall. induction Hall as [|x front Hx _ IH]; [reflexivity|].
    cbn [List.filter]. rewrite Hx, IH. reflexivity.
  - rewrite bool_decide_eq_false_2 by exact Hnin. reflexivity.
Qed.

(** The regions [ensure_known_region] writes, from the known ones. *)
Lemma ensured_regions_spec (language : str) (block : list str) :
  let known := (unique_regions_of (normalized_regions block)).1 in
  let regions := ensured_regions language block in
  NoDup regions
  /\ (forall r, r ∈ regions <-> r = language \/ r ∈ known)
  /\ (BASE ∈ regions -> last regions = Some BASE)
  /\ List.filter (other_region language) regions
     = List.filter (other_region language) known.
Proof.
  intros known regions. subst known regions. unfold ensured_regions.
  destruct (unique_regions_spec (normalized_regions block)) as (Hseen & Hnodup & _).
  destruct (unique_regions_of (normalized_regions block)) as [U seen]. cbn [fst snd] in *.
  destruct (with_language_spec language U seen Hseen Hnodup) as (Hw1 & Hw2 & Hw3 & _).
  destruct (base_last_spec language _ Hw1) as (Hb1 & Hb2 & Hb3 & Hb4).
  split; [exact Hb1|]. split; [|split; [exact Hb3|]].
  - intros r. rewrite Hb2, Hw2. reflexivity.
  - rewrite Hb4, Hw3. reflexivity.
Qed.

(** The lines after [ensure_known_region]: the block is replaced by the
    lines of the ensured regions. *)
Lemma ensure_known_region_lines (lines : list str) (language : str)
    (changed : bool) (lines' : list str) :
  ensure_known_region lines language = inl (changed, lines') ->
  exists start_idx end_idx,
    locate_block lines = inl (start_idx, end_idx)
    /\ lines' = take (S start_idx) lines
                ++ List.map block_line
                     (ensured_regions language (block_of lines start_idx end_idx))
                ++ drop end_idx lines
    /\ (changed = false <-> lines' = lines).
Proof.
  unfold ensure_known_region.
  destruct (locate_block lines) as [[start_idx end_idx]|e] eqn:Hlocate; [|discriminate].
  destruct (locate_block_parts _ _ _ Hlocate) as (Hlt & Hparts & _).
  set (regions := ensured_regions language (block_of lines start_idx end_idx)).
  destruct (decide (block_of lines start_idx end_idx ≠ List.map block_line regions))
    as [Hne|Heq]; intros [= <- <-]; exists start_idx, end_idx;
    (split; [reflexivity|]).
  - split; [reflexivity|]. split; [discriminate|]. intros Hsame. exfalso. apply Hne.
    rewrite Hparts in Hsame at 3.
    apply app_inv_head, app_inv_tail in Hsame. congruence.
  - apply dec_stable in Heq. subst regions. split; [rewrite <- Heq; exact Hparts|].
    split; reflexivity.
Qed.

(** What [ensure_known_region] does to the file.  It raises exactly when
    [get_known_regions] does.  Otherwise only the lines of the block are
    replaced, and the file is unchanged exactly when it returns [False].
    The block written lists the regions that were known and the language,
    each once, with [Base] last when present and the other known regions
    in the order they had. *)
Theorem ensure_known_region_writes (lines : list str) (language : str) :
  match ensure_known_region lines language with
  | inr e => get_known_regions lines = inr e
  | inl (changed, lines') =>
      exists start_idx end_idx known regions,
        locate_block lines = inl (start_idx, end_idx)
        /\ get_known_regions lines = inl known
        /\ lines' = take (S start_idx) lines ++ List.map block_line regions
                    ++ drop end_idx lines
        /\ (changed = false <-> lines' = lines)
        /\ NoDup regions
        /\ (forall r, r ∈ regions <-> r = language \/ r ∈ known)
        /\ (BASE ∈ regions -> last regions = Some BASE)
        /\ List.filter (other_region language) regions
           = List.filter (other_region language) known
  end.
Proof.
  destruct (ensure_known_region lines language) as [[changed lines']|e] eqn:Hrun.
  - destruct (ensure_known_region_lines _ _ _ _ Hrun)
      as (start_idx & end_idx & Hlocate & Hlines & Hchanged).
    destruct (ensured_regions_spec language (block_of lines start_idx end_idx))
      as (H1 & H2 & H3 & H4).
    eexists start_idx, end_idx, _, _. split; [exact Hlocate|]. split.
    { unfold get_known_regions. rewrite Hlocate. reflexivity. }
    split; [exact Hlines|]. split; [exact Hchanged|]. auto.
  - revert Hrun. unfold ensure_known_region, get_known_regions.
    destruct (locate_block lines) as [[start_idx end_idx]|e']; [|congruence].
    destruct (decide _); discriminate.
Qed.

(** *** Writing the block and reading it back *)

Lemma lstrip_chars_clean (chars s : str) :
  Forall (fun c => existsb (N.eqb c) chars = false) s -> lstrip_chars chars s = s.
Proof.
  intros Hs. destruct Hs as [|c s Hc _]; [reflexivity|].
  cbn [lstrip_chars]. rewrite Hc. reflexivity.
Qed.

Lemma strip_chars_clean (chars s : str) :
  Forall (fun c => existsb (N.eqb c) chars = false) s -> strip_chars chars s = s.
Proof.
  intros Hs. unfold strip_chars. rewrite (lstrip_chars_clean _ _ Hs).
  rewrite lstrip_chars_clean; [apply rev_involutive|].
  apply List.Forall_rev, Hs.
Qed.

Lemma lstrip_clean (s : str) :
  Forall (fun c => isspace c = false) s -> lstrip s = s.
Proof.
  intros Hs. destruct Hs as [|c s Hc _]; [reflexivity|].
  cbn [lstrip]. rewrite Hc. reflexivity.
Qed.

Lemma strip_clean (s : str) :
  Forall (fun c => isspace c = false) s -> strip s = s.
Proof.
  intros Hs. unfold strip, rstrip. rewrite (lstrip_clean _ Hs).
  rewrite lstrip_clean; [apply rev_involutive|].
  apply List.Forall_rev, Hs.
Qed.

(** Dropping one character at each end. *)
Lemma strip_chars_wrapped (q : N) (s : str) :
  Forall (fun c => (c =? q) = false) s ->
  strip_chars [q] ([q] ++ s ++ [q]) = s /\ strip_chars [q] (s ++ [q]) = s.
Proof.
  intros Hs.
  assert (Hclean : forall t, Forall (fun c => (c =? q) = false) t ->
                             Forall (fun c => existsb (N.eqb c) [q] = false) t).
  { intros t Ht. eapply List.Forall_impl; [|exact Ht].
    intros c Hc. cbn [existsb]. rewrite Hc. reflexivity. }
  assert (Hhead : forall t, Forall (fun c => (c =? q) = false) t ->
                            lstrip_chars [q] (t ++ [q]) = match t with
                                                          | [] => []
                                                          | _ :: _ => t ++ [q]
                                                          end).
  { intros t Ht. destruct Ht as [|c t Hc _]; cbn [app lstrip_chars existsb].
    - rewrite N.eqb_refl. reflexivity.
    - rewrite Hc. reflexivity. }
  assert (Htail : strip_chars [q] (s ++ [q]) = s).
  { unfold strip_chars. rewrite (Hhead s Hs). destruct s as [|c s]; [reflexivity|].
    set (t := c :: s) in *. rewrite rev_app_distr.
    change (rev [q] ++ rev t) with (q :: rev t).
    assert (Hq : lstrip_chars [q] (q :: rev t) = lstrip_chars [q] (rev t))
      by (cbn [lstrip_chars existsb]; rewrite N.eqb_refl; reflexivity).
    rewrite Hq, lstrip_chars_clean; [apply rev_involutive|].
    apply Hclean, List.Forall_rev, Hs. }
  split; [|exact Htail].
  assert (Hq : lstrip_chars [q] ([q] ++ s ++ [q]) = lstrip_chars [q] (s ++ [q]))
    by (cbn [app lstrip_chars existsb]; rewrite N.eqb_refl; reflexivity).
  unfold strip_chars in *. rewrite Hq. exact Htail.
Qed.

(** The characters of a region code are not whitespace, commas or
    quotation marks. *)
Lemma code_char_clean (c : N) :
  word_char c || (c =? 45) = true ->
  isspace c = false /\ (c =? 44) = false /\ (c =? 34) = false.
Proof.
  intros Hc.
  assert (Hrange : 65 <= c <= 90 \/ 97 <= c <= 122 \/ 48 <= c <= 57 \/ c = 95 \/ c = 45).
  { unfold word_char, ascii_letter in Hc.
    rewrite !orb_true_iff, !andb_true_iff, !N.leb_le, !N.eqb_eq in Hc. lia. }
  split; [|split; apply N.eqb_neq; lia].
  unfold isspace.
  repeat match goal with
         | |- _ || _ = false => apply orb_false_intro
         | |- _ && _ = false => apply andb_false_iff
         end;
    rewrite ?N.eqb_neq, ?N.leb_gt; lia.
Qed.

Lemma region_code_clean (region : str) :
  region_code region = true ->
  region ≠ []
  /\ Forall (fun c => isspace c = false) region
  /\ Forall (fun c => (c =? 44) = false) region
  /\ Forall (fun c => (c =? 34) = false) region.
Proof.
  unfold region_code. intros Hcode. apply andb_true_iff in Hcode.
  destruct Hcode as [Hne Hall]. apply negb_true_iff, bool_decide_eq_false_1 in Hne.
  split; [exact Hne|].
  rewrite List.forallb_forall in Hall.
  repeat split; apply List.Forall_forall; intros c Hc;
    destruct (code_char_clean c (Hall c Hc)) as (H1 & H2 & H3); assumption.
Qed.

(** The line written for a region code is read back as that region. *)
Lemma block_line_read (region : str) :
  region_code region = true ->
  normalize_region (strip_chars [44] (strip (block_line region))) = region
  /\ strip (block_line region) ≠ u ");".
Proof.
  intros Hcode. destruct (region_code_clean _ Hcode) as (Hne & Hspace & Hcomma & Hquote).
  assert (Hformat : format_region region = region
                    \/ format_region region = [34] ++ region ++ [34]).
  { unfold format_region. destruct (_ && _); auto. }
  assert (Hfspace : Forall (fun c => isspace c = false) (format_region region)).
  { destruct Hformat as [-> | ->]; [exact Hspace|].
    constructor; [reflexivity|]. apply Forall_app. split; [exact Hspace|].
    constructor; [reflexivity|constructor]. }
  assert (Hfcomma : Forall (fun c => (c =? 44) = false) (format_region region)).
  { destruct Hformat as [-> | ->]; [exact Hcomma|].
    constructor; [reflexivity|]. apply Forall_app. split; [exact Hcomma|].
    constructor; [reflexivity|constructor]. }
  assert (Hstrip : strip (block_line region) = format_region region ++ [44]).
  { unfold block_line.
    assert (Htabs : forall t, strip ([9; 9; 9; 9] ++ t) = strip t) by reflexivity.
    rewrite Htabs. apply strip_clean. apply Forall_app. split; [exact Hfspace|].
    constructor; [reflexivity|constructor]. }
  split.
  - rewrite Hstrip. rewrite (proj2 (strip_chars_wrapped 44 _ Hfcomma)).
    unfold normalize_region. rewrite (strip_clean _ Hfspace).
    rewrite (strip_chars_clean [44] (format_region region)).
    2:{ eapply List.Forall_impl; [|exact Hfcomma]. intros c Hc. cbn [existsb].
        rewrite Hc. reflexivity. }
    destruct Hformat as [-> | ->].
    + rewrite (strip_chars_clean [34] region); [apply strip_clean, Hspace|].
      eapply List.Forall_impl; [|exact Hquote]. intros c Hc. cbn [existsb].
      rewrite Hc. reflexivity.
    + rewrite (proj1 (strip_chars_wrapped 34 _ Hquote)). apply strip_clean, Hspace.
  - rewrite Hstrip. intros Heq.
    assert (Hlast : last (format_region region ++ [44]) = last (u ");"))
      by (rewrite Heq; reflexivity).
    rewrite last_snoc in Hlast. discriminate.
Qed.

Lemma normalized_block_lines (regions : list str) :
  Forall (fun region => region_code region = true) regions ->
  normalized_regions (List.map block_line regions) = regions
  /\ Forall (fun text => bool_decide (strip text = u ");") = false)
       (List.map block_line regions).
Proof.
  unfold normalized_regions.
  induction 1 as [|region regions Hcode _ [IH1 IH2]]; [split; [reflexivity|constructor]|].
  destruct (block_line_read _ Hcode) as [Hread Hclose].
  cbn [List.map List.filter]. rewrite Hread.
  rewrite bool_decide_eq_false_2 by (apply (region_code_clean _ Hcode)).
  cbn [negb]. rewrite IH1. split; [reflexivity|].
  constructor; [apply bool_decide_eq_false_2; exact Hclose|exact IH2].
Qed.

Lemma drop_app_exact {A : Type} (l1 l2 : list A) (n : nat) :
  length l1 = n -> drop n (l1 ++ l2) = l2.
Proof. intros <-. apply drop_app_length. Qed.

Lemma find_index_prefix {A : Type} (p : A -> bool) (l rest : list A) (i : nat) :
  find_index p l = Some i -> find_index p (take (S i) l ++ rest) = Some i.
Proof.
  intros Hfind. destruct (find_index_Some _ _ _ Hfind) as (x & Hx & Hp & Hbefore).
  rewrite (take_S_r _ _ _ Hx), <- app_assoc, find_index_app by exact Hbefore.
  cbn [app find_index]. rewrite Hp. cbn [option_map].
  rewrite length_take, Nat.add_0_r. f_equal.
  pose proof (lookup_lt_Some _ _ _ Hx). lia.
Qed.

(** Running [ensure_known_region] again changes nothing, and the language
    is among the known regions.  For a project file whose regions are
    region codes, and a language that is one: a second call returns
    [False] and leaves the lines as the first call left them, and
    [get_known_regions] then returns the regions that were known and the
    language.  (The file is taken by its lines: what is written is the
    lines joined by line feeds, and no line written holds a line break.) *)
Theorem ensure_known_region_twice (lines : list str) (language : str)
    (known : list str) (changed : bool) (lines' : list str) :
  region_code language = true ->
  get_known_regions lines = inl known ->
  Forall (fun region => region_code region = true) known ->
  ensure_known_region lines language = inl (changed, lines') ->
  ensure_known_region lines' language = inl (false, lines')
  /\ exists regions,
       get_known_regions lines' = inl regions
       /\ language ∈ regions
       /\ forall r, r ∈ regions <-> r = language \/ r ∈ known.
Proof.
  intros Hlanguage Hknown Hcodes Hrun.
  destruct (ensure_known_region_lines _ _ _ _ Hrun)
    as (start_idx & end_idx & Hlocate & Hlines & _).
  unfold get_known_regions in Hknown. rewrite Hlocate in Hknown.
  injection Hknown as Hknown.
  destruct (ensured_regions_spec language (block_of lines start_idx end_idx))
    as (Hnodup & Hmem & Hlast & _).
  rewrite Hknown in Hmem.
  set (regions := ensured_regions language (block_of lines start_idx end_idx)) in *.
  assert (Hall : Forall (fun region => region_code region = true) regions).
  { apply List.Forall_forall. intros r Hr. apply list_elem_of_In, Hmem in Hr.
    destruct Hr as [->|Hr]; [exact Hlanguage|].
    exact (proj1 (List.Forall_forall _ _) Hcodes r (proj1 (list_elem_of_In _ _) Hr)). }
  destruct (normalized_block_lines regions Hall) as [Hread Hopen].
  destruct (locate_block_parts _ _ _ Hlocate)
    as (Hlt & _ & Hstart & closing & Hdrop & Hclose).
  assert (Hlen : length (take (S start_idx) lines) = S start_idx)
    by (rewrite length_take; lia).
  assert (Hlocate' : locate_block lines'
                     = inl (start_idx,
                            (S start_idx + (length (List.map block_line regions) + 0))%nat)).
  { unfold locate_block. rewrite Hlines.
    rewrite (find_index_prefix _ _ _ _ Hstart).
    rewrite (drop_app_exact _ _ _ Hlen).
    rewrite find_index_app by (eapply List.Forall_impl; [|exact Hopen]; auto).
    rewrite Hdrop. cbn [find_index]. rewrite bool_decide_eq_true_2 by exact Hclose.
    reflexivity. }
  assert (Hblock : block_of lines' start_idx
                     (S start_idx + (length (List.map block_line regions) + 0))
                   = List.map block_line regions).
  { unfold block_of. rewrite Hlines, (drop_app_exact _ _ _ Hlen).
    replace (S start_idx + (length (List.map block_line regions) + 0) - S start_idx)%nat
      with (length (List.map block_line regions)) by lia.
    apply take_app_length. }
  assert (Hunique : unique_regions_of regions = (regions, (unique_regions_of regions).2)).
  { rewrite <- (unique_regions_NoDup regions Hnodup) at 2.
    destruct (unique_regions_of regions); reflexivity. }
  assert (Hin : language ∈ regions) by (apply Hmem; left; reflexivity).
  assert (Hensured : ensured_regions language (List.map block_line regions) = regions).
  { unfold ensured_regions. rewrite Hread, Hunique.
    destruct (unique_regions_spec regions) as (Hseen & _ & _).
    rewrite (unique_regions_NoDup regions Hnodup) in Hseen.
    destruct (with_language_spec language regions _ Hseen Hnodup) as (_ & _ & _ & Hsame).
    rewrite (Hsame Hin). apply base_last_fixed; assumption. }
  split.
  - unfold ensure_known_region. rewrite Hlocate', Hblock, Hensured.
    destruct (decide (List.map block_line regions ≠ List.map block_line regions));
      [contradiction|reflexivity].
  - exists regions. split; [|split; [exact Hin|exact Hmem]].
    unfold get_known_regions. rewrite Hlocate', Hblock, Hread.
    rewrite (unique_regions_NoDup regions Hnodup). reflexivity.
Qed.

End KnownRegions.

(** ** Witnesses of the further properties *)

Lemma answer_lookup (f : str -> str) (l : list str) (s : str) :
  s ∈ l ->
  (list_to_map (List.map (fun s => (s, f s)) l) : gmap str str) !! s = Some (f s).
Proof.
  induction l as [|x l IH]; intros Hin; [apply elem_of_nil in Hin; contradiction|].
  cbn [List.map list_to_map foldr]. fold (list_to_map (M := gmap str str)).
  destruct (decide (x = s)) as [->|Hne].
  - apply lookup_insert_eq.
  - rewrite lookup_insert_ne by exact Hne. apply IH.
    apply elem_of_cons in Hin. destruct Hin as [->|Hin]; [contradiction|exact Hin].
Qed.

Lemma glossary_service_valid :
  valid_service (H := Latin1) (List.map source word_candidates) glossary_service.
Proof.
  intros n request Hsub. eexists. split; [reflexivity|].
  intros s Hs. unfold accepted, target_for. rewrite answer_lookup by exact Hs.
  specialize (Hsub s Hs). cbn in Hsub.
  apply elem_of_cons in Hsub. destruct Hsub as [->|Hsub]; [vm_compute; reflexivity|].
  apply list_elem_of_singleton in Hsub. subst s. vm_compute. reflexivity.
Qed.

Lemma sample_translations_NoDup : NoDup (List.map fst sample_translations).
Proof.
  vm_compute. repeat constructor; intros Hin.
  - apply elem_of_cons in Hin. destruct Hin as [Hin|Hin]; [discriminate|].
    apply elem_of_nil in Hin. exact Hin.
  - apply elem_of_nil in Hin. exact Hin.
Qed.

Lemma chunked_partition_witness :
  (0 < 2)%nat
  /\ concat (chunked [u "a"; u "b"; u "c"] 2) = [u "a"; u "b"; u "c"]
  /\ Forall (fun part => (1 <= length part <= 2)%nat) (chunked [u "a"; u "b"; u "c"] 2)
  /\ length (chunked [u "a"; u "b"; u "c"] 2) = slices (length [u "a"; u "b"; u "c"]) 2.
Proof.
  assert (Hsize : (0 < 2)%nat) by lia.
  exact (conj Hsize (chunked_partition [u "a"; u "b"; u "c"] 2 Hsize)).
Defined.

Lemma rows_validated_or_source_witness :
  exists rows issued,
    translate_candidates_with (H := Latin1) 30 2 glossary_service word_candidates
      = Ok (rows, issued)
    /\ Forall2
         (fun candidate row =>
            row_source row = source candidate
            /\ row_contexts row = contexts candidate
            /\ sound_row (H := Latin1) row
            /\ (row_status row = status_fallback <-> row_target row = row_source row))
         word_candidates rows.
Proof.
  destruct (translate_candidates_with (H := Latin1) 30 2 glossary_service word_candidates)
    as [[rows issued]|issued] eqn:Hrun; [|vm_compute in Hrun; discriminate].
  exists rows, issued. split; [reflexivity|].
  assert (Hsize : (0 < 30)%nat) by lia.
  exact (@rows_validated_or_source Latin1 30 2 glossary_service Hsize word_candidates
           rows issued Hrun).
Defined.

Lemma requests_per_batch_witness :
  exists rows issued,
    translate_candidates_with (H := Latin1) 30 2 echo_service hello_candidates
      = Ok (rows, issued)
    /\ (slices (length hello_candidates) 30 <= length issued
        <= (2 + 1) * slices (length hello_candidates) 30)%nat.
Proof.
  destruct (translate_candidates_with (H := Latin1) 30 2 echo_service hello_candidates)
    as [[rows issued]|issued] eqn:Hrun; [|vm_compute in Hrun; discriminate].
  exists rows, issued. split; [reflexivity|].
  assert (Hsize : (0 < 30)%nat) by lia.
  exact (@requests_per_batch Latin1 30 2 echo_service Hsize hello_candidates rows issued
           Hrun).
Defined.

Lemma requests_well_formed_witness :
  (0 < 30)%nat
  /\ Forall
       (fun request =>
          (1 <= length (sources request) <= 30)%nat
          /\ (forall s, s ∈ sources request -> s ∈ List.map source hello_candidates)
          /\ feedback_matches request)
       (issued_of snd
          (translate_candidates_with (H := Latin1) 30 2 echo_service hello_candidates)).
Proof.
  assert (Hsize : (0 < 30)%nat) by lia.
  exact (conj Hsize
           (@requests_well_formed Latin1 30 2 echo_service Hsize hello_candidates)).
Defined.

Lemma valid_service_one_request_witness :
  exists rows issued,
    translate_candidates_with (H := Latin1) 30 2 glossary_service word_candidates
      = Ok (rows, issued)
    /\ length issued = slices (length word_candidates) 30
    /\ Forall
         (fun row =>
            row_validation row = validation_ok
            /\ validate_translation (H := Latin1) (row_source row) (row_target row)
               = (true, reason_ok))
         rows.
Proof.
  apply (@valid_service_one_request Latin1 30 2 glossary_service); [lia|].
  exact glossary_service_valid.
Defined.

Lemma candidates_group_scanned_pairs_witness :
  exists candidates plist_by_key,
    I18nWorkflow.build_candidates (H := Latin1) sample_project [APP; WIDGET]
      = inl (candidates, plist_by_key)
    /\ forall s ctx,
         (s, ctx) ∈ scanned_pairs sample_project [APP; WIDGET]
         <-> exists candidate,
               candidate ∈ candidates /\ source candidate = s
               /\ ctx ∈ contexts candidate.
Proof.
  destruct (I18nWorkflow.build_candidates (H := Latin1) sample_project [APP; WIDGET])
    as [[candidates plist_by_key]|e] eqn:Hbuild; [|vm_compute in Hbuild; discriminate].
  exists candidates, plist_by_key. split; [reflexivity|].
  exact (@candidates_group_scanned_pairs Latin1 sample_project [APP; WIDGET]
           candidates plist_by_key Hbuild).
Defined.

Lemma candidate_contexts_sorted_witness :
  exists candidates plist_by_key,
    I18nWorkflow.build_candidates (H := Latin1) sample_project [APP; WIDGET]
      = inl (candidates, plist_by_key)
    /\ Forall
         (fun candidate =>
            contexts candidate ≠ []
            /\ NoDup (contexts candidate)
            /\ StronglySorted (fun a b => I18nWorkflow.context_leb a b = true)
                 (contexts candidate))
         candidates.
Proof.
  destruct (I18nWorkflow.build_candidates (H := Latin1) sample_project [APP; WIDGET])
    as [[candidates plist_by_key]|e] eqn:Hbuild; [|vm_compute in Hbuild; discriminate].
  exists candidates, plist_by_key. split; [reflexivity|].
  exact (@candidate_contexts_sorted Latin1 sample_project [APP; WIDGET]
           candidates plist_by_key Hbuild).
Defined.

Lemma candidates_look_translatable_witness :
  exists candidates plist_by_key,
    I18nWorkflow.build_candidates (H := Latin1) sample_project [APP; WIDGET]
      = inl (candidates, plist_by_key)
    /\ Forall
         (fun candidate =>
            I18nWorkflow.looks_translatable (source candidate) = true
            /\ is_blank (source candidate) = false
            /\ (source candidate ∉ I18nWorkflow.SKIP_LITERALS)
            /\ startswith (u "%") (strip (source candidate)) = false
            /\ startswith (u "\(") (source candidate) = false
            /\ existsb I18nWorkflow.ascii_letter (source candidate) = true)
         candidates.
Proof.
  destruct (I18nWorkflow.build_candidates (H := Latin1) sample_project [APP; WIDGET])
    as [[candidates plist_by_key]|e] eqn:Hbuild; [|vm_compute in Hbuild; discriminate].
  exists candidates, plist_by_key. split; [reflexivity|].
  exact (@candidates_look_translatable Latin1 sample_project [APP; WIDGET]
           candidates plist_by_key Hbuild).
Defined.

Lemma merge_stores_translations_witness :
  exists content changed e localizations,
    I18nWorkflow.update_catalog (H := Latin1) (Some sample_catalog) (u "es")
      sample_translations = Some (content, changed)
    /\ dict_get (u "Cancel") (I18nWorkflow.stored_strings (Some content))
       = Some (I18nWorkflow.JDict e)
    /\ dict_get (u "localizations") e = Some (I18nWorkflow.JDict localizations)
    /\ dict_get (u "es") localizations = Some (I18nWorkflow.string_unit (u "Cancelar"))
    /\ is_Some (dict_get (u "extractionState") e)
    /\ stored_value (u "es") (u "Cancel") (I18nWorkflow.stored_strings (Some content))
       = Some (I18nWorkflow.JStr (u "Cancelar")).
Proof.
  destruct (I18nWorkflow.update_catalog (H := Latin1) (Some sample_catalog) (u "es")
              sample_translations) as [[content changed]|] eqn:Hfirst;
    [|vm_compute in Hfirst; discriminate].
  assert (Hin : (u "Cancel", u "Cancelar") ∈ sample_translations)
    by (unfold sample_translations; left).
  destruct (@merge_stores_translations Latin1 (Some sample_catalog) (u "es")
              sample_translations content changed sample_translations_NoDup Hfirst
              (u "Cancel") (u "Cancelar") Hin) as (e & localizations & Hrest).
  exists content, changed, e, localizations. split; [reflexivity|exact Hrest].
Defined.

Lemma merge_keeps_rest_of_entry_witness :
  exists content changed e e' localizations localizations',
    I18nWorkflow.update_catalog (H := Latin1) (Some sample_catalog) (u "es")
      sample_translations = Some (content, changed)
    /\ default (I18nWorkflow.JDict [])
         (dict_get (u "Cancel") (I18nWorkflow.stored_strings (Some sample_catalog)))
       = I18nWorkflow.JDict e
    /\ dict_get (u "Cancel") (I18nWorkflow.stored_strings (Some content))
       = Some (I18nWorkflow.JDict e')
    /\ (forall f, f ≠ u "localizations" -> f ≠ u "extractionState" ->
                  dict_get f e' = dict_get f e)
    /\ dict_get (u "extractionState") e'
       = Some (default (I18nWorkflow.JStr (u "manual"))
                 (dict_get (u "extractionState") e))
    /\ default (I18nWorkflow.JDict []) (dict_get (u "localizations") e)
       = I18nWorkflow.JDict localizations
    /\ dict_get (u "localizations") e' = Some (I18nWorkflow.JDict localizations')
    /\ forall other, other ≠ u "es" ->
         dict_get other localizations' = dict_get other localizations.
Proof.
  destruct (I18nWorkflow.update_catalog (H := Latin1) (Some sample_catalog) (u "es")
              sample_translations) as [[content changed]|] eqn:Hfirst;
    [|vm_compute in Hfirst; discriminate].
  assert (Hin : u "Cancel" ∈ List.map fst sample_translations)
    by (unfold sample_translations; left).
  destruct (@merge_keeps_rest_of_entry Latin1 (Some sample_catalog) (u "es")
              sample_translations content changed sample_translations_NoDup Hfirst
              (u "Cancel") Hin) as (e & e' & localizations & localizations' & Hrest).
  exists content, changed, e, e', localizations, localizations'.
  split; [reflexivity|exact Hrest].
Defined.

Lemma merge_counts_differing_values_witness :
  exists content changed,
    I18nWorkflow.update_catalog (H := Latin1) (Some sample_catalog) (u "es")
      sample_translations = Some (content, changed)
    /\ changed =
       length (List.filter
                 (fun item =>
                    I18nWorkflow.differs
                      (stored_value (u "es") item.1
                         (I18nWorkflow.stored_strings (Some sample_catalog))) item.2)
                 sample_translations)
    /\ (changed <= length sample_translations)%nat.
Proof.
  destruct (I18nWorkflow.update_catalog (H := Latin1) (Some sample_catalog) (u "es")
              sample_translations) as [[content changed]|] eqn:Hfirst;
    [|vm_compute in Hfirst; discriminate].
  exists content, changed. split; [reflexivity|].
  exact (@merge_counts_differing_values Latin1 (Some sample_catalog) (u "es")
           sample_translations content changed sample_translations_NoDup Hfirst).
Defined.

Lemma merge_writes_sorted_keys_witness :
  exists content changed,
    I18nWorkflow.update_catalog (H := Latin1) (Some sample_catalog) (u "es")
      sample_translations = Some (content, changed)
    /\ (forall k,
          k ∈ List.map fst (I18nWorkflow.stored_strings (Some content)) <->
          k ∈ List.map fst (I18nWorkflow.stored_strings (Some sample_catalog))
          \/ k ∈ List.map fst sample_translations)
    /\ StronglySorted
         (fun a b => str_leb (lower (PyUnicode := Latin1) a)
                       (lower (PyUnicode := Latin1) b) = true)
         (List.map fst (I18nWorkflow.stored_strings (Some content)))
    /\ (NoDup (List.map fst (I18nWorkflow.stored_strings (Some sample_catalog))) ->
        NoDup (List.map fst (I18nWorkflow.stored_strings (Some content)))).
Proof.
  destruct (I18nWorkflow.update_catalog (H := Latin1) (Some sample_catalog) (u "es")
              sample_translations) as [[content changed]|] eqn:Hfirst;
    [|vm_compute in Hfirst; discriminate].
  exists content, changed. split; [reflexivity|].
  exact (@merge_writes_sorted_keys Latin1 (Some sample_catalog) (u "es")
           sample_translations content changed sample_translations_NoDup Hfirst).
Defined.

Lemma sanitized_catalog_is_clean_witness :
  exists after changed,
    I18nWorkflow.sanitize_catalog_for_symbols (H := Latin1) (Some generated_catalog)
      (u "es") = Some (after, changed)
    /\ changed = 2%nat
    /\ dict_get (u "%lld items") (I18nWorkflow.stored_strings after)
       = Some (I18nWorkflow.JDict generated_entry_clean)
    /\ dict_get (u "extractionState") generated_entry_clean
       ≠ Some (I18nWorkflow.JStr (u "manual"))
    /\ forall localizations,
         dict_get (u "localizations") generated_entry_clean
         = Some (I18nWorkflow.JDict localizations) ->
         dict_get (u "es") localizations = None.
Proof.
  assert (Hrun : I18nWorkflow.sanitize_catalog_for_symbols (H := Latin1)
                   (Some generated_catalog) (u "es")
                 = Some (Some (I18nWorkflow.JDict
                                 [ (u "sourceLanguage", I18nWorkflow.JStr (u "en"));
                                   (u "strings",
                                    I18nWorkflow.JDict
                                      [ (u "%lld items",
                                         I18nWorkflow.JDict generated_entry_clean);
                                        (u "Cancel",
                                         I18nWorkflow.JDict
                                           [ (u "extractionState",
                                              I18nWorkflow.JStr (u "manual"));
                                             (u "localizations",
                                              I18nWorkflow.JDict
                                                [ (u "es",
                                                   I18nWorkflow.string_unit
                                                     (u "Cancelar")) ]) ]) ]);
                                   (u "version", I18nWorkflow.JStr (u "1.0")) ]),
                         2%nat)) by (vm_compute; reflexivity).
  eexists _, _. split; [exact Hrun|]. split; [reflexivity|].
  assert (Hget : dict_get (u "%lld items")
                   (I18nWorkflow.stored_strings
                      (Some (I18nWorkflow.JDict
                               [ (u "sourceLanguage", I18nWorkflow.JStr (u "en"));
                                 (u "strings",
                                  I18nWorkflow.JDict
                                    [ (u "%lld items",
                                       I18nWorkflow.JDict generated_entry_clean);
                                      (u "Cancel",
                                       I18nWorkflow.JDict
                                         [ (u "extractionState",
                                            I18nWorkflow.JStr (u "manual"));
                                           (u "localizations",
                                            I18nWorkflow.JDict
                                              [ (u "es",
                                                 I18nWorkflow.string_unit
                                                   (u "Cancelar")) ]) ]) ]);
                                 (u "version", I18nWorkflow.JStr (u "1.0")) ])))
                 = Some (I18nWorkflow.JDict generated_entry_clean))
    by (vm_compute; reflexivity).
  split; [exact Hget|].
  apply (@sanitized_catalog_is_clean Latin1 (Some generated_catalog) _ (u "es") 2%nat
           Hrun (u "%lld items") generated_entry_clean Hget);
    vm_compute; reflexivity.
Defined.

Lemma sanitize_twice_witness :
  exists after changed,
    I18nWorkflow.sanitize_catalog_for_symbols (H := Latin1) (Some generated_catalog)
      (u "es") = Some (after, changed)
    /\ changed = 2%nat
    /\ I18nWorkflow.sanitize_catalog_for_symbols (H := Latin1) after (u "es")
       = Some (after, 0%nat)
    /\ (changed = 0%nat <-> after = Some generated_catalog).
Proof.
  destruct (I18nWorkflow.sanitize_catalog_for_symbols (H := Latin1)
              (Some generated_catalog) (u "es")) as [[after changed]|] eqn:Hrun;
    [|vm_compute in Hrun; discriminate].
  exists after, changed. split; [reflexivity|]. split.
  - assert (Hn : match I18nWorkflow.sanitize_catalog_for_symbols (H := Latin1)
                         (Some generated_catalog) (u "es") with
                 | Some (_, n) => n
                 | None => 0%nat
                 end = 2%nat) by (vm_compute; reflexivity).
    rewrite Hrun in Hn. exact Hn.
  - exact (@sanitize_twice Latin1 (Some generated_catalog) after (u "es") changed Hrun).
Defined.

Lemma sanitize_frame_witness :
  exists after changed,
    I18nWorkflow.sanitize_catalog_for_symbols (H := Latin1) (Some generated_catalog)
      (u "es") = Some (after, changed)
    /\ dict_get (u "Cancel") (I18nWorkflow.stored_strings after)
       = dict_get (u "Cancel") (I18nWorkflow.stored_strings (Some generated_catalog)).
Proof.
  destruct (I18nWorkflow.sanitize_catalog_for_symbols (H := Latin1)
              (Some generated_catalog) (u "es")) as [[after changed]|] eqn:Hrun;
    [|vm_compute in Hrun; discriminate].
  exists after, changed. split; [reflexivity|].
  apply (proj1 (@sanitize_frame Latin1 (Some generated_catalog) after (u "es") changed
                  Hrun (u "Cancel"))).
  vm_compute. reflexivity.
Defined.

Lemma sample_rows_no_percent (row : TranslationRow) :
  row ∈ sample_rows -> startswith (u "%") (row_source row) = false.
Proof.
  intros Hrow. apply list_elem_of_singleton in Hrow. subst row. vm_compute. reflexivity.
Qed.

Lemma apply_translations_twice_witness :
  exists files' counters,
    I18nWorkflow.apply_translations (H := Latin1) sample_files (u "es") sample_rows
      sample_plist_by_key = (files', Some counters)
    /\ I18nWorkflow.appCatalogEntriesUpdated counters = 1%nat
    /\ I18nWorkflow.widgetCatalogEntriesUpdated counters = 1%nat
    /\ I18nWorkflow.apply_translations (H := Latin1) files' (u "es") sample_rows
         sample_plist_by_key
       = (files', Some {| I18nWorkflow.appCatalogEntriesUpdated := 0;
                          I18nWorkflow.widgetCatalogEntriesUpdated := 0;
                          I18nWorkflow.appSanitizedKeys := 0;
                          I18nWorkflow.widgetSanitizedKeys := 0 |}).
Proof.
  destruct (I18nWorkflow.apply_translations (H := Latin1) sample_files (u "es")
              sample_rows sample_plist_by_key) as [files' [counters|]] eqn:Happly;
    [|vm_compute in Happly; discriminate].
  assert (Hcount : match I18nWorkflow.apply_translations (H := Latin1) sample_files
                           (u "es") sample_rows sample_plist_by_key with
                   | (_, Some c) =>
                       (I18nWorkflow.appCatalogEntriesUpdated c,
                        I18nWorkflow.widgetCatalogEntriesUpdated c)
                   | (_, None) => (0%nat, 0%nat)
                   end = (1%nat, 1%nat)) by (vm_compute; reflexivity).
  rewrite Happly in Hcount. injection Hcount as H1 H2.
  exists files', counters. split; [reflexivity|]. split; [exact H1|].
  split; [exact H2|].
  exact (@apply_translations_twice Latin1 sample_files files' (u "es") sample_rows
           sample_plist_by_key counters sample_rows_no_percent Happly).
Defined.

(** The scan of the sample project, the run of the glossary service on its
    candidates, and the files written from the rows. *)
Lemma sample_pipeline :
  exists candidates plist_by_key rows issued files' counters row,
    I18nWorkflow.build_candidates (H := Latin1) sample_project [APP; WIDGET]
      = inl (candidates, plist_by_key)
    /\ I18nWorkflow.translate_candidates (H := Latin1) glossary_service candidates
       = Ok (rows, issued)
    /\ I18nWorkflow.apply_translations (H := Latin1) sample_files (u "es") rows
         plist_by_key = (files', Some counters)
    /\ row ∈ rows
    /\ row_source row = u "Cancel"
    /\ row_target row = u "Cancelar"
    /\ List.map target (row_contexts row) = [APP; WIDGET].
Proof.
  assert (Hfull :
            match I18nWorkflow.build_candidates (H := Latin1) sample_project
                    [APP; WIDGET] with
            | inl (candidates, plist_by_key) =>
                match I18nWorkflow.translate_candidates (H := Latin1) glossary_service
                        candidates with
                | Ok (rows, _) =>
                    match I18nWorkflow.apply_translations (H := Latin1) sample_files
                            (u "es") rows plist_by_key with
                    | (_, Some _) =>
                        option_map
                          (fun row => (row_source row, row_target row,
                                       List.map target (row_contexts row)))
                          (rows !! 1%nat)
                    | (_, None) => None
                    end
                | RuntimeError _ => None
                end
            | inr _ => None
            end = Some (u "Cancel", u "Cancelar", [APP; WIDGET]))
    by (vm_compute; reflexivity).
  destruct (I18nWorkflow.build_candidates (H := Latin1) sample_project [APP; WIDGET])
    as [[candidates plist_by_key]|e] eqn:Hbuild; [|discriminate].
  destruct (I18nWorkflow.translate_candidates (H := Latin1) glossary_service candidates)
    as [[rows issued]|issued] eqn:Hrun; [|discriminate].
  destruct (I18nWorkflow.apply_translations (H := Latin1) sample_files (u "es") rows
              plist_by_key) as [files' [counters|]] eqn:Happly; [|discriminate].
  destruct (rows !! 1%nat) as [row|] eqn:Hrow; [|discriminate].
  injection Hfull as Hs Ht Hc.
  exists candidates, plist_by_key, rows, issued, files', counters, row.
  split; [reflexivity|]. split; [exact Hrun|]. split; [exact Happly|].
  split; [apply list_elem_of_lookup; eauto|]. auto.
Qed.

Lemma applied_translations_are_stored_witness :
  exists candidates plist_by_key rows issued files' counters row,
    I18nWorkflow.build_candidates (H := Latin1) sample_project [APP; WIDGET]
      = inl (candidates, plist_by_key)
    /\ I18nWorkflow.translate_candidates (H := Latin1) glossary_service candidates
       = Ok (rows, issued)
    /\ I18nWorkflow.apply_translations (H := Latin1) sample_files (u "es") rows
         plist_by_key = (files', Some counters)
    /\ row ∈ rows
    /\ stored_value (u "es") (u "Cancel")
         (I18nWorkflow.stored_strings (I18nWorkflow.app_catalog files'))
       = Some (I18nWorkflow.JStr (u "Cancelar"))
    /\ stored_value (u "es") (u "Cancel")
         (I18nWorkflow.stored_strings (I18nWorkflow.widget_catalog files'))
       = Some (I18nWorkflow.JStr (u "Cancelar")).
Proof.
  destruct sample_pipeline
    as (candidates & plist_by_key & rows & issued & files' & counters & row
        & Hbuild & Hrun & Happly & Hrow & Hs & Ht & Hc).
  exists candidates, plist_by_key, rows, issued, files', counters, row.
  split; [exact Hbuild|]. split; [exact Hrun|]. split; [exact Happly|].
  split; [exact Hrow|].
  destruct (@applied_translations_are_stored Latin1 sample_project [APP; WIDGET]
              candidates plist_by_key glossary_service rows issued sample_files files'
              (u "es") counters Hbuild Hrun Happly row Hrow) as [Happ Hwidget].
  rewrite Hs, Ht, Hc in *. split.
  - apply Happ. left.
  - apply Hwidget. right. left.
Defined.

Lemma info_plist_strings_values_witness :
  exists candidates plist_by_key rows issued,
    I18nWorkflow.build_candidates (H := Latin1) sample_project [APP; WIDGET]
      = inl (candidates, plist_by_key)
    /\ I18nWorkflow.translate_candidates (H := Latin1) glossary_service candidates
       = Ok (rows, issued)
    /\ exists always when_in_use always_target when_in_use_target,
         plist_by_key !! KEY_ALWAYS = Some always
         /\ plist_by_key !! KEY_WHEN_IN_USE = Some when_in_use
         /\ I18nWorkflow.write_info_plist_strings
              (I18nWorkflow.translated_by_source rows) plist_by_key
            = Some (I18nWorkflow.strings_line KEY_ALWAYS always_target ++ [10]
                    ++ I18nWorkflow.strings_line KEY_WHEN_IN_USE when_in_use_target
                    ++ [10])
         /\ Forall
              (fun item =>
                 (item.2 = item.1
                  \/ validate_translation (H := Latin1) item.1 item.2 = (true, reason_ok))
                 /\ (I18nWorkflow.looks_translatable item.1 = true ->
                     exists row,
                       row ∈ rows /\ row_source row = item.1 /\ row_target row = item.2))
              [ (always, always_target); (when_in_use, when_in_use_target) ].
Proof.
  destruct sample_pipeline
    as (candidates & plist_by_key & rows & issued & files' & counters & row
        & Hbuild & Hrun & _).
  exists candidates, plist_by_key, rows, issued.
  split; [exact Hbuild|]. split; [exact Hrun|].
  exact (@info_plist_strings_values Latin1 sample_project [APP; WIDGET] candidates
           plist_by_key glossary_service rows issued Hbuild Hrun).
Defined.

Lemma echo_run_on_scanned_candidates_witness :
  identity_service echo_service
  /\ forall source_lang,
       exists rows issued,
         LocalizeWithOpenai.translate_candidates (H := Latin1) echo_service
           (LocalizeWithOpenai.extract_candidates (H := Latin1) sample_project [APP]
              source_lang) = Ok (rows, issued)
         /\ length issued =
            slices (length (LocalizeWithOpenai.extract_candidates (H := Latin1)
                              sample_project [APP] source_lang))
              LocalizeWithOpenai.BATCH_SIZE
         /\ List.map row_source rows =
            List.map source
              (LocalizeWithOpenai.extract_candidates (H := Latin1) sample_project [APP]
                 source_lang)
         /\ Forall
              (fun row =>
                 row_target row = row_source row
                 /\ row_status row = status_fallback
                 /\ row_validation row = validation_ok)
              rows.
Proof.
  split; [exact echo_service_echoes|].
  exact (proj2 (@echo_run_on_scanned_candidates Latin1 echo_service sample_project [APP]
                  echo_service_echoes)).
Defined.


Lemma ensure_known_region_twice_witness :
  exists changed lines' regions,
    I18nWorkflow.ensure_known_region region_lines (u "pt-BR") = inl (changed, lines')
    /\ changed = true
    /\ I18nWorkflow.ensure_known_region lines' (u "pt-BR") = inl (false, lines')
    /\ I18nWorkflow.get_known_regions lines' = inl regions
    /\ u "pt-BR" ∈ regions
    /\ forall r, r ∈ regions <-> r = u "pt-BR" \/ r ∈ [u "en"; u "Base"].
Proof.
  destruct (I18nWorkflow.ensure_known_region region_lines (u "pt-BR"))
    as [[changed lines']|e] eqn:Hrun; [|vm_compute in Hrun; discriminate].
  assert (Hchanged : match I18nWorkflow.ensure_known_region region_lines (u "pt-BR") with
                     | inl (b, _) => b
                     | inr _ => false
                     end = true) by (vm_compute; reflexivity).
  rewrite Hrun in Hchanged.
  assert (Hlanguage : region_code (u "pt-BR") = true) by (vm_compute; reflexivity).
  assert (Hknown : I18nWorkflow.get_known_regions region_lines = inl [u "en"; u "Base"])
    by (vm_compute; reflexivity).
  assert (Hcodes : Forall (fun region => region_code region = true) [u "en"; u "Base"])
    by (repeat constructor).
  destruct (ensure_known_region_twice region_lines (u "pt-BR") [u "en"; u "Base"]
              changed lines' Hlanguage Hknown Hcodes Hrun)
    as (Hagain & regions & Hget & Hin & Hmem).
  exists changed, lines', regions.
  split; [reflexivity|]. split; [exact Hchanged|]. split; [exact Hagain|].
  split; [exact Hget|]. split; [exact Hin|exact Hmem].
Defined.

Lemma main_requests_guarded_witness :
  I18nWorkflow.requests
    (I18nWorkflow.main (H := Latin1) sample_args (Some (u "sk-test")) sample_project
       echo_service) ≠ []
  /\ I18nWorkflow.dry_run sample_args = false
  /\ I18nWorkflow.invalid_targets_of sample_args = []
  /\ I18nWorkflow.manifest_declares (pbxproj_lines sample_project) KEY_ALWAYS = true
  /\ I18nWorkflow.manifest_declares (pbxproj_lines sample_project) KEY_WHEN_IN_USE = true.
Proof.
  assert (Hrequests : I18nWorkflow.requests
                        (I18nWorkflow.main (H := Latin1) sample_args (Some (u "sk-test"))
                           sample_project echo_service) ≠ [])
    by (vm_compute; discriminate).
  destruct (@main_requests_guarded Latin1 sample_args (Some (u "sk-test")) sample_project
              echo_service Hrequests) as (Hdry & Hvalid & _ & Ha & Hw & _).
  split; [exact Hrequests|]. split; [exact Hdry|]. split; [exact Hvalid|].
  split; [exact Ha|exact Hw].
Defined.

Lemma localized_catalog_last_pair_wins_witness :
  exists content strings e localizations,
    LocalizeWithOpenai.update_catalog (H := Latin1) None (u "es") (u "en") colliding_pairs
      = Some content
    /\ content = I18nWorkflow.JDict
                   [ (u "sourceLanguage", I18nWorkflow.JStr (u "en"));
                     (u "strings", I18nWorkflow.JDict strings);
                     (u "version", I18nWorkflow.JStr (u "1.0")) ]
    /\ dict_get (u "Cancel") strings = Some (I18nWorkflow.JDict e)
    /\ dict_get (u "extractionState") e = Some (I18nWorkflow.JStr (u "manual"))
    /\ dict_get (u "localizations") e = Some (I18nWorkflow.JDict localizations)
    /\ dict_get (u "es") localizations = Some (I18nWorkflow.string_unit (u "Anular")).
Proof.
  destruct (LocalizeWithOpenai.update_catalog (H := Latin1) None (u "es") (u "en")
              colliding_pairs) as [content|] eqn:Hrun;
    [|vm_compute in Hrun; discriminate].
  destruct (@localized_catalog_last_pair_wins Latin1 None (u "es") (u "en")
              colliding_pairs content Hrun) as (strings & Hcontent & _ & _ & _ & Hlast).
  destruct (Hlast [(u "Cancel", u "Cancelar")] (u "Cancel") (u "Anular") [] eq_refl)
    as (e & localizations & Hentry).
  { apply not_elem_of_nil. }
  exists content, strings, e, localizations.
  split; [reflexivity|]. split; [exact Hcontent|exact Hentry].
Defined.

Lemma localized_catalog_twice_witness :
  exists content,
    LocalizeWithOpenai.update_catalog (H := Latin1) (Some sample_catalog) (u "es") (u "en")
      sample_translations = Some content
    /\ LocalizeWithOpenai.update_catalog (H := Latin1) (Some content) (u "es") (u "en")
         sample_translations = Some content.
Proof.
  destruct (LocalizeWithOpenai.update_catalog (H := Latin1) (Some sample_catalog) (u "es")
              (u "en") sample_translations) as [content|] eqn:Hrun;
    [|vm_compute in Hrun; discriminate].
  exists content. split; [reflexivity|].
  exact (@localized_catalog_twice Latin1 (Some sample_catalog) (u "es") (u "en")
           sample_translations content sample_translations_NoDup Hrun).
Defined.
